(** * Nano-Parrot: tracking and session engine

    A shallow embedding of the IoU tracker ([tracker.ts]), the session
    lifecycle manager (the analysis loop of [routes/+page.svelte] with the
    Dexie layer [dexieDb.ts]) and the hourly aggregator
    ([sessionAggregator.ts]).

    Conventions.  The numbers of the tracker (coordinates, extents,
    scores, ratios, video times) are binary64 floating-point numbers, the
    primitive [float], with the operations of IEEE 754 as JavaScript has
    them.  Timestamps in milliseconds and counters are integers ([Z]);
    durations in seconds in the database layer are exact rationals ([Q]).
    [Date.now()] is an explicit argument, read once per synchronous block;
    database calls issued without [await] are applied in the order they
    are issued.  A JS [Map] is an association list in insertion order.
    The random identifier source [generateID] is an oracle indexed by the
    number of calls made so far. *)

From Stdlib Require Import List ZArith QArith Qround Bool String Ascii Lia Lqa.
From Stdlib Require Import Floats.
Import ListNotations.

Set Warnings "-inexact-float".

Open Scope string_scope.
Open Scope Z_scope.

(* ================================================================== *)
(** * Part I: definitions                                              *)
(* ================================================================== *)

(** ** Numbers *)

(** [Math.max] and [Math.min] on two arguments: NaN when an argument is
    NaN, and the positive zero counted above the negative one. *)
Definition Math_max (a b : float) : float :=
  match (a ?= b)%float with
  | FNotComparable => nan
  | FLt => b
  | FGt => a
  | FEq => match classify a with NZero => b | _ => a end
  end.

Definition Math_min (a b : float) : float :=
  match (a ?= b)%float with
  | FNotComparable => nan
  | FLt => a
  | FGt => b
  | FEq => match classify a with PZero => b | _ => a end
  end.

(** [Math.round]: the nearest integer, halves rounded up. *)
Definition Math_round (q : Q) : Z := Qfloor (q + (1 # 2)).

Module Tracker.

(** ** tracker.ts *)

(** A box [[x, y, w, h]]. *)
Record Box := mkBox { bx : float; by_ : float; bw : float; bh : float }.

Definition intersectionW (boxA boxB : Box) : float :=
  let x1 := Math_max (bx boxA) (bx boxB) in
  let x2 := Math_min (bx boxA + bw boxA) (bx boxB + bw boxB) in
  Math_max 0 (x2 - x1).

Definition intersectionH (boxA boxB : Box) : float :=
  let y1 := Math_max (by_ boxA) (by_ boxB) in
  let y2 := Math_min (by_ boxA + bh boxA) (by_ boxB + bh boxB) in
  Math_max 0 (y2 - y1).

Definition intersectionArea (boxA boxB : Box) : float :=
  (intersectionW boxA boxB * intersectionH boxA boxB)%float.

Definition boxArea (b : Box) : float := (bw b * bh b)%float.

Definition unionArea (boxA boxB : Box) : float :=
  (boxArea boxA + boxArea boxB - intersectionArea boxA boxB)%float.

Definition calculateIoU (boxA boxB : Box) : float :=
  if (unionArea boxA boxB =? 0)%float then 0%float
  else (intersectionArea boxA boxB / unionArea boxA boxB)%float.

Record TrackerConfig := mkConfig {
  iouThreshold : float;
  gracePeriodMs : Z;
  highScoreThreshold : float;
  lowScoreThreshold : float;
  confirmationFrames : Z;
  minAreaRatio : float;
  maxAspectRatio : float;
  minAspectRatio : float
}.

(** config.ts *)
Definition TRACKER_CONFIG : TrackerConfig :=
  {| iouThreshold := 0.3%float;
     gracePeriodMs := 2000;
     highScoreThreshold := 0.5%float;
     lowScoreThreshold := 0.3%float;
     confirmationFrames := 3;
     minAreaRatio := 0.005%float;
     maxAspectRatio := 4.0%float;
     minAspectRatio := 0.25%float |}.

Record Detection := mkDetection { det_bbox : Box; det_score : float }.

Record LocalTrack := mkTrack {
  id : string;
  bbox : Box;
  score : float;
  firstSeen : Z;
  lastSeen : Z;
  matched : bool;
  consecutiveFrames : Z;
  isConfirmed : bool
}.

(** The tracks: [localTracks] and the number of identifiers drawn from
    [generateID] so far. *)
Record TrackerState := mkTracker {
  localTracks : list LocalTrack;
  idsDrawn : nat
}.

Definition initialTracker : TrackerState :=
  {| localTracks := []; idsDrawn := 0 |}.

(** Step 1.5, the geometric filter. *)
Definition geometricFilter (cfg : TrackerConfig) (d : Detection) : bool :=
  let w := bw (det_bbox d) in
  let h := bh (det_bbox d) in
  let area := (w * h)%float in
  if (area <? minAreaRatio cfg)%float then false
  else
    let aspectRatio := (w / h)%float in
    if (maxAspectRatio cfg <? aspectRatio)%float
       || (aspectRatio <? minAspectRatio cfg)%float
    then false else true.

Definition clearMatched (t : LocalTrack) : LocalTrack :=
  {| id := id t; bbox := bbox t; score := score t; firstSeen := firstSeen t;
     lastSeen := lastSeen t; matched := false;
     consecutiveFrames := consecutiveFrames t; isConfirmed := isConfirmed t |}.

(** The inner [forEach] over the tracks: the running best IoU and index,
    replaced only by a strictly greater IoU. *)
Fixpoint findBestFrom (tracks : list LocalTrack) (det : Detection)
    (index : nat) (bestIoU : float) (bestMatchIndex : option nat)
    : float * option nat :=
  match tracks with
  | [] => (bestIoU, bestMatchIndex)
  | track :: rest =>
      let iou := calculateIoU (bbox track) (det_bbox det) in
      if (bestIoU <? iou)%float
      then findBestFrom rest det (S index) iou (Some index)
      else findBestFrom rest det (S index) bestIoU bestMatchIndex
  end.

Definition findBest (tracks : list LocalTrack) (det : Detection)
    : float * option nat :=
  findBestFrom tracks det 0%nat 0%float None.

(** The "update existing track" branch. *)
Definition updateTrack (cfg : TrackerConfig) (det : Detection) (now : Z)
    (track : LocalTrack) : LocalTrack :=
  let frames := consecutiveFrames track + 1 in
  {| id := id track;
     bbox := det_bbox det;
     score := det_score det;
     firstSeen := firstSeen track;
     lastSeen := now;
     matched := true;
     consecutiveFrames := frames;
     isConfirmed :=
       if confirmationFrames cfg <=? frames then true
       else isConfirmed track |}.

(** The "create new track" branch. *)
Definition newTrack (newId : string) (det : Detection) (now : Z)
    : LocalTrack :=
  {| id := newId; bbox := det_bbox det; score := det_score det;
     firstSeen := now; lastSeen := now; matched := true;
     consecutiveFrames := 1; isConfirmed := false |}.

Fixpoint updateAt {A : Type} (f : A -> A) (n : nat) (l : list A) : list A :=
  match l, n with
  | [], _ => []
  | x :: rest, O => f x :: rest
  | x :: rest, S m => x :: updateAt f m rest
  end.

(** The "create new track" branch with its score gate: a detection below
    the high threshold is dropped. *)
Definition createTrack (generateID : nat -> string) (cfg : TrackerConfig)
    (now : Z) (st : TrackerState) (det : Detection) : TrackerState :=
  if (det_score det <? highScoreThreshold cfg)%float then st
  else {| localTracks :=
            localTracks st ++ [newTrack (generateID (idsDrawn st)) det now];
          idsDrawn := S (idsDrawn st) |}.

(** The body of [currentDetections.forEach] for one detection;
    [bestMatchIndex = None] stands for the index [-1]. *)
Definition matchDetection (generateID : nat -> string) (cfg : TrackerConfig)
    (now : Z) (st : TrackerState) (det : Detection) : TrackerState :=
  let '(bestIoU, bestMatchIndex) := findBest (localTracks st) det in
  match (iouThreshold cfg <? bestIoU)%float, bestMatchIndex with
  | true, Some index =>
      {| localTracks := updateAt (updateTrack cfg det now) index
                          (localTracks st);
         idsDrawn := idsDrawn st |}
  | _, _ => createTrack generateID cfg now st det
  end.

(** Step 2: clear the [matched] flags, then match the detections in
    detector order. *)
Definition matchFrame (generateID : nat -> string) (cfg : TrackerConfig)
    (detections : list Detection) (now : Z) (st : TrackerState)
    : TrackerState :=
  fold_left (matchDetection generateID cfg now) detections
    {| localTracks := map clearMatched (localTracks st);
       idsDrawn := idsDrawn st |}.

(** Step 3: the prune test. *)
Definition withinGrace (cfg : TrackerConfig) (now : Z) (t : LocalTrack)
    : bool :=
  now - lastSeen t <? gracePeriodMs cfg.

Definition pruneTracks (cfg : TrackerConfig) (now : Z)
    (tracks : list LocalTrack) : list LocalTrack :=
  filter (withinGrace cfg now) tracks.

(** Steps 1.5 to 3 of [processFrame] on the normalised detections of one
    frame, read at time [now]. *)
Definition trackDetections (generateID : nat -> string) (cfg : TrackerConfig)
    (rawDetections : list Detection) (now : Z) (st : TrackerState)
    : TrackerState :=
  let currentDetections := filter (geometricFilter cfg) rawDetections in
  let st' := matchFrame generateID cfg currentDetections now st in
  {| localTracks := pruneTracks cfg now (localTracks st');
     idsDrawn := idsDrawn st' |}.

(** Step 4: what [trackingData.set] publishes, one snapshot per confirmed
    track. *)
Definition publishedTracks (st : TrackerState) : list LocalTrack :=
  filter isConfirmed (localTracks st).

(** A detection as the detector returns it: a box in pixels and the score
    of its first category. *)
Record RawDetection := mkRaw {
  originX : float;
  originY : float;
  width : float;
  height : float;
  categoryScore : float
}.

(** The video element at a call of [processFrame], with what
    [detectForVideo] returns for its current frame. *)
Record Video := mkVideo {
  currentTime : float;
  videoWidth : float;
  videoHeight : float;
  detected : list RawDetection
}.

(** The module state of tracker.ts: whether [objectDetector] is set,
    [lastVideoTime], and the tracks. *)
Record TrackerModule := mkModule {
  objectDetector : bool;
  lastVideoTime : float;
  tracks : TrackerState
}.

(** The module once [initializeTracker] has set the detector. *)
Definition initializedTracker : TrackerModule :=
  {| objectDetector := true; lastVideoTime := (-1)%float;
     tracks := initialTracker |}.

Definition disposeTracker (m : TrackerModule) : TrackerModule :=
  {| objectDetector := false; lastVideoTime := lastVideoTime m;
     tracks := {| localTracks := []; idsDrawn := idsDrawn (tracks m) |} |}.

(** Pixels to coordinates relative to the video size. *)
Definition normalise (vidW vidH : float) (d : RawDetection) : Detection :=
  {| det_bbox := {| bx := (originX d / vidW)%float;
                    by_ := (originY d / vidH)%float;
                    bw := (width d / vidW)%float;
                    bh := (height d / vidH)%float |};
     det_score := categoryScore d |}.

(** Whether a call gets past the three guards: the detector is set, the
    video time differs from [lastVideoTime], and the video has a size.
    [lastVideoTime] is overwritten by every call that gets past the first
    two guards, also by one that then stops at the third. *)
Definition frameIsProcessed (video : Video) (m : TrackerModule) : bool :=
  objectDetector m
  && negb (currentTime video =? lastVideoTime m)%float
  && negb ((videoWidth video =? 0)%float || (videoHeight video =? 0)%float).

(** [processFrame], called at time [now]. *)
Definition processFrame (generateID : nat -> string) (cfg : TrackerConfig)
    (video : Video) (now : Z) (m : TrackerModule) : TrackerModule :=
  if negb (objectDetector m) then m
  else if (currentTime video =? lastVideoTime m)%float then m
  else
    let vidW := videoWidth video in
    let vidH := videoHeight video in
    if (vidW =? 0)%float || (vidH =? 0)%float then
      {| objectDetector := objectDetector m;
         lastVideoTime := currentTime video;
         tracks := tracks m |}
    else
      {| objectDetector := objectDetector m;
         lastVideoTime := currentTime video;
         tracks :=
           trackDetections generateID cfg
             (map (normalise vidW vidH) (detected video)) now (tracks m) |}.

(** A sequence of calls, each with the video and the time of the call. *)
Definition runFrames (generateID : nat -> string) (cfg : TrackerConfig)
    (frames : list (Video * Z)) (m : TrackerModule) : TrackerModule :=
  fold_left (fun s fr => processFrame generateID cfg (fst fr) (snd fr) s)
    frames m.

Definition findTrack (uid : string) (tracks : list LocalTrack)
    : option LocalTrack :=
  find (fun t => String.eqb (id t) uid) tracks.

End Tracker.

Module Db.

(** ** dexieDb.ts *)

Record AnalysisEvent := mkEvent {
  timestamp : Z;
  targetUid : string;
  prompt : string;
  result : string
}.

Record UserSession := mkSession {
  sessionId : string;
  firstSeen : Z;
  lastSeen : Z;
  duration : Q;
  events : list AnalysisEvent
}.

Record SummarizedSession := mkSummary {
  ss_sessionId : string;
  ss_timestamp : Z;
  ss_duration : Z;
  gender : string;
  age_group : string;
  fashion_style : string
}.

(** The two tables.  Each is keyed by [sessionId]; the list holds the rows
    in the order their keys were first written. *)
Record Database := mkDatabase {
  sessions : list UserSession;
  summarized_sessions : list SummarizedSession
}.

Definition emptyDatabase : Database :=
  {| sessions := []; summarized_sessions := [] |}.

(** [Table.get]. *)
Definition getRow (sid : string) (tbl : list UserSession)
    : option UserSession :=
  find (fun s => String.eqb (sessionId s) sid) tbl.

(** [Table.put]: the row with the same key is replaced, a new key is
    added. *)
Fixpoint putRow (row : UserSession) (tbl : list UserSession)
    : list UserSession :=
  match tbl with
  | [] => [row]
  | s :: rest =>
      if String.eqb (sessionId s) (sessionId row) then row :: rest
      else s :: putRow row rest
  end.

(** [Table.delete]. *)
Definition deleteRow (sid : string) (tbl : list UserSession)
    : list UserSession :=
  filter (fun s => negb (String.eqb (sessionId s) sid)) tbl.

Fixpoint putSummary (row : SummarizedSession) (tbl : list SummarizedSession)
    : list SummarizedSession :=
  match tbl with
  | [] => [row]
  | s :: rest =>
      if String.eqb (ss_sessionId s) (ss_sessionId row) then row :: rest
      else s :: putSummary row rest
  end.

Definition withSessions (tbl : list UserSession) (db : Database) : Database :=
  {| sessions := tbl; summarized_sessions := summarized_sessions db |}.

(** [(lastSeen - firstSeen) / 1000], in seconds. *)
Definition durationSeconds (first last : Z) : Q :=
  (inject_Z (last - first) / 1000)%Q.

Definition startSession (sid : string) (now : Z) (db : Database) : Database :=
  withSessions
    (putRow {| sessionId := sid; firstSeen := now; lastSeen := now;
               duration := 0; events := [] |} (sessions db)) db.

Definition updateSessionHeartbeat (sid : string) (now : Z) (db : Database)
    : Database :=
  match getRow sid (sessions db) with
  | Some data =>
      withSessions
        (putRow {| sessionId := sessionId data;
                   firstSeen := firstSeen data;
                   lastSeen := now;
                   duration := durationSeconds (firstSeen data) now;
                   events := events data |} (sessions db)) db
  | None => db
  end.

Definition addAnalysisLog (sid uid text res : string) (now : Z)
    (db : Database) : Database :=
  match getRow sid (sessions db) with
  | Some data =>
      withSessions
        (putRow {| sessionId := sessionId data;
                   firstSeen := firstSeen data;
                   lastSeen := now;
                   duration := durationSeconds (firstSeen data) now;
                   events :=
                     events data
                     ++ [{| timestamp := now; targetUid := uid;
                            prompt := text; result := res |}] |}
           (sessions db)) db
  | None => db
  end.

Definition endSession (sid : string) (now : Z) (db : Database) : Database :=
  updateSessionHeartbeat sid now db.

Definition deleteSession (sid : string) (db : Database) : Database :=
  withSessions (deleteRow sid (sessions db)) db.

Definition getAllSessions (db : Database) : list UserSession := sessions db.

Definition HOUR_MS : Z := 60 * 60 * 1000.

(** Sessions whose [firstSeen] lies in [[hourStart, hourStart + 1h)]. *)
Definition getSessionsByHour (hourStart : Z) (db : Database)
    : list UserSession :=
  let hourEnd := hourStart + HOUR_MS in
  filter (fun s => (hourStart <=? firstSeen s) && (firstSeen s <? hourEnd))
    (sessions db).

Definition bulkSaveSummarizedSessions (data : list SummarizedSession)
    (db : Database) : Database :=
  {| sessions := sessions db;
     summarized_sessions :=
       fold_left (fun tbl row => putSummary row tbl) data
         (summarized_sessions db) |}.

(** The calls the page makes on this layer, as values: a call is applied
    with the clock reading at which it runs. *)
Inductive DbCall :=
| StartSession (sid : string)
| EndSession (sid : string)
| DeleteSession (sid : string)
| AddAnalysisLog (sid uid text res : string).

Definition applyCall (now : Z) (db : Database) (c : DbCall) : Database :=
  match c with
  | StartSession sid => startSession sid now db
  | EndSession sid => endSession sid now db
  | DeleteSession sid => deleteSession sid db
  | AddAnalysisLog sid uid text res => addAnalysisLog sid uid text res now db
  end.

Definition applyCalls (now : Z) (calls : list DbCall) (db : Database)
    : Database :=
  fold_left (applyCall now) calls db.

End Db.

Module Aggregator.
Import Db.

(** ** sessionAggregator.ts *)

(** The fields read from a parsed event payload. *)
Record ParsedEvent := mkParsed {
  age : option string;
  sex : option string;
  fashion : option string
}.

(** What the aggregator takes from its surroundings: [JSON.parse] on an
    event payload ([None] when it throws or yields [null]),
    [JSON.stringify] on a frequency map, and the offset of local time from
    UTC in milliseconds, which [Date.setMinutes] works in. *)
Record Runtime := mkRuntime {
  JSON_parse : string -> option ParsedEvent;
  JSON_stringify : list (string * Z) -> string;
  timezoneOffsetMs : Z
}.

Definition getCount (key : string) (counts : list (string * Z)) : option Z :=
  option_map snd (find (fun kv => String.eqb (fst kv) key) counts).

Fixpoint setCount (key : string) (count : Z) (counts : list (string * Z))
    : list (string * Z) :=
  match counts with
  | [] => [(key, count)]
  | (k, c) :: rest =>
      if String.eqb k key then (k, count) :: rest
      else (k, c) :: setCount key count rest
  end.

(** [a ?? b] *)
Definition orElse (a : option Z) (b : Z) : Z :=
  match a with Some x => x | None => b end.

Fixpoint computeModeLoop (values : list string) (counts : list (string * Z))
    (maxCount : Z) (mode : string) : string :=
  match values with
  | [] => mode
  | v :: rest =>
      let count := orElse (getCount v counts) 0 + 1 in
      let counts' := setCount v count counts in
      if maxCount <? count then computeModeLoop rest counts' count v
      else computeModeLoop rest counts' maxCount mode
  end.

Definition computeMode (values : list string) : string :=
  match values with
  | [] => "unknown"
  | v0 :: _ => computeModeLoop values [] 0 v0
  end.

(** The separators of [/[,\/\s]+/] among the ASCII characters. *)
Definition isSeparator (c : ascii) : bool :=
  let n := nat_of_ascii c in
  (n =? 44)%nat || (n =? 47)%nat || (n =? 32)%nat
  || ((9 <=? n)%nat && (n <=? 13)%nat).

(** [toLowerCase] on the ASCII letters. *)
Definition toLowerCaseAscii (c : ascii) : ascii :=
  let n := nat_of_ascii c in
  if (65 <=? n)%nat && (n <=? 90)%nat then ascii_of_nat (n + 32) else c.

Definition flushTerm (term : string) (terms : list string) : list string :=
  match term with
  | EmptyString => terms
  | _ => term :: terms
  end.

(** [raw.split(...).map(trim, toLowerCase).filter(nonempty)]: the maximal
    runs of characters that are not separators, lowercased. *)
Fixpoint splitTerms (raw : string) (term : string) : list string :=
  match raw with
  | EmptyString => flushTerm term []
  | String c rest =>
      if isSeparator c then flushTerm term (splitTerms rest EmptyString)
      else splitTerms rest (term ++ String (toLowerCaseAscii c) EmptyString)
  end.

Definition countTerm (freq : list (string * Z)) (term : string)
    : list (string * Z) :=
  setCount term (orElse (getCount term freq) 0 + 1) freq.

Definition buildFashionFrequencyMap (fashionValues : list string)
    : list (string * Z) :=
  fold_left
    (fun freq raw => fold_left countTerm (splitTerms raw EmptyString) freq)
    fashionValues [].

Definition parseEventResult (rt : Runtime) (event : AnalysisEvent)
    : option ParsedEvent :=
  JSON_parse rt (result event).

(** [xs.filter(v => !!v)] on optional strings: present and not empty. *)
Fixpoint truthyStrings (xs : list (option string)) : list string :=
  match xs with
  | [] => []
  | Some (String c r) :: rest => String c r :: truthyStrings rest
  | _ :: rest => truthyStrings rest
  end.

Fixpoint successes {A : Type} (xs : list (option A)) : list A :=
  match xs with
  | [] => []
  | Some x :: rest => x :: successes rest
  | None :: rest => successes rest
  end.

Definition buildSummarizedSession (rt : Runtime) (session : UserSession)
    : SummarizedSession :=
  let parsed := successes (map (parseEventResult rt) (events session)) in
  let ages := truthyStrings (map age parsed) in
  let sexes := truthyStrings (map sex parsed) in
  let fashions := truthyStrings (map fashion parsed) in
  let durationSeconds :=
    Math_round (inject_Z (lastSeen session - firstSeen session) / 1000) in
  {| ss_sessionId := sessionId session;
     ss_timestamp := firstSeen session;
     ss_duration := durationSeconds;
     gender := computeMode sexes;
     age_group := computeMode ages;
     fashion_style := JSON_stringify rt (buildFashionFrequencyMap fashions) |}.

(** [getHourFloor]: the start of the local hour that holds [timestampMs]. *)
Definition getHourFloor (rt : Runtime) (timestampMs : Z) : Z :=
  let localMs := timestampMs + timezoneOffsetMs rt in
  localMs - localMs mod HOUR_MS - timezoneOffsetMs rt.

(** The filter of both entry points: sessions with at least one event. *)
Definition hasEvents (s : UserSession) : bool :=
  (0 <? Z.of_nat (List.length (events s))).

(** [aggregateHourlyData]: the number of sessions aggregated and the
    database afterwards. *)
Definition aggregateHourlyData (rt : Runtime) (targetHourTimestamp : Z)
    (db : Database) : Z * Database :=
  let found := getSessionsByHour targetHourTimestamp db in
  match found with
  | [] => (0, db)
  | _ =>
      let validSessions := filter hasEvents found in
      match validSessions with
      | [] => (0, db)
      | _ =>
          let summaries := map (buildSummarizedSession rt) validSessions in
          (Z.of_nat (List.length summaries),
           bulkSaveSummarizedSessions summaries db)
      end
  end.

Definition CHUNK_SIZE : nat := 50.

(** The chunk loop of [aggregateAllData], one chunk per unit of fuel. *)
Fixpoint aggregateChunks (fuel : nat) (rt : Runtime)
    (remaining : list UserSession) (totalProcessed : Z) (db : Database)
    : option (Z * Database) :=
  match remaining with
  | [] => Some (totalProcessed, db)
  | _ =>
      match fuel with
      | O => None
      | S fuel' =>
          let chunk := firstn CHUNK_SIZE remaining in
          let summaries := map (buildSummarizedSession rt) chunk in
          aggregateChunks fuel' rt (skipn CHUNK_SIZE remaining)
            (totalProcessed + Z.of_nat (List.length summaries))
            (bulkSaveSummarizedSessions summaries db)
      end
  end.

Definition aggregateAllData (rt : Runtime) (db : Database)
    : option (Z * Database) :=
  let allSessions := getAllSessions db in
  let validSessions := filter hasEvents allSessions in
  match validSessions with
  | [] => Some (0, db)
  | _ => aggregateChunks (List.length validSessions) rt validSessions 0 db
  end.

(** The database together with the [localStorage] entry
    [aggregator_lastProcessedHour]. *)
Record Storage := mkStorage {
  database : Database;
  lastProcessedHour : option Z
}.

(** The [while (hour < currentHour)] loop: the hours handed to
    [aggregateHourlyData], in order, and the database afterwards. *)
Fixpoint aggregateMissedHours (fuel : nat) (rt : Runtime)
    (hour currentHour : Z) (db : Database) : option (list Z * Database) :=
  if hour <? currentHour then
    match fuel with
    | O => None
    | S fuel' =>
        match aggregateMissedHours fuel' rt (hour + HOUR_MS) currentHour
                (snd (aggregateHourlyData rt hour db)) with
        | Some (hours, db') => Some (hour :: hours, db')
        | None => None
        end
    end
  else Some ([], db).

(** [checkAndTriggerAggregation] at clock reading [now]: the hours it
    aggregated and the storage afterwards.  The loop is given one unit of
    fuel per hour between the two marks, and one to spare. *)
Definition checkAndTriggerAggregation (rt : Runtime) (now : Z) (st : Storage)
    : option (list Z * Storage) :=
  let currentHour := getHourFloor rt now in
  match lastProcessedHour st with
  | None =>
      Some ([], {| database := database st;
                   lastProcessedHour := Some currentHour |})
  | Some lastProcessed =>
      if lastProcessed <? currentHour then
        match aggregateMissedHours
                (Z.to_nat ((currentHour - lastProcessed) / HOUR_MS + 1)) rt
                lastProcessed currentHour (database st) with
        | Some (hours, db') =>
            Some (hours, {| database := db';
                            lastProcessedHour := Some currentHour |})
        | None => None
        end
      else Some ([], st)
  end.

End Aggregator.

Module Nano.

(** ** main.ts: [analyzeFrameWithNanoStreaming] *)

(** One element of the parsed result array; [uid] and the eight
    attributes are [None] when missing or [null]. *)
Record NanoAnalysisResult := mkResult {
  uid : option string;
  age : option string;
  sex : option string;
  fashion : option string;
  emotion : option string;
  action : option string;
  direction : option string;
  accessories : option string;
  posture : option string
}.

(** What [JSON.parse] yields on the model output: an array of results, or
    a value that [for ... of] cannot iterate. *)
Inductive ParsedResults :=
| ResultArray (items : list NanoAnalysisResult)
| NotIterable.

Record NanoStreamingResponse := mkResponse {
  results : ParsedResults;
  prompt : string
}.

(** How a call on the engine goes. *)
Inductive EngineBehaviour :=
| ApiUnavailable                 (* [getLanguageModel()] is null *)
| SessionUnavailable             (* waiting for, cloning or creating the
                                    session rejects *)
| PromptingFails                 (* drawing, prompting or streaming throws *)
| Responds (fullText : string).  (* the stream ends with [fullText] *)

Inductive Completion (A : Type) :=
| Resolved (value : A)
| Rejected.
Arguments Resolved {A} value.
Arguments Rejected {A}.

(** The text functions the call relies on: the prompt built from the
    tracks, the removal of code fences with [trim], and [JSON.parse]
    ([None] when it throws). *)
Record Runtime := mkRuntime {
  describePersons : list Tracker.LocalTrack -> string;
  stripFences : string -> string;
  JSON_parse : string -> option ParsedResults
}.

(** The fallback result for output that does not parse. *)
Definition rawResult (cleanResult : string) : NanoAnalysisResult :=
  {| uid := Some "raw"; age := Some "unknown"; sex := Some "unknown";
     fashion := Some cleanResult; emotion := Some "unknown";
     action := Some "unknown"; direction := Some "unknown";
     accessories := Some "unknown"; posture := Some "unknown" |}.

Definition analyzeFrameWithNanoStreaming (rt : Runtime)
    (engine : EngineBehaviour) (detections : list Tracker.LocalTrack)
    : Completion NanoStreamingResponse :=
  let promptText := describePersons rt detections in
  match engine with
  | ApiUnavailable => Rejected
  | SessionUnavailable => Rejected
  | PromptingFails =>
      Resolved {| results := ResultArray []; prompt := promptText |}
  | Responds fullText =>
      let cleanResult := stripFences rt fullText in
      match JSON_parse rt cleanResult with
      | Some parsed => Resolved {| results := parsed; prompt := promptText |}
      | None =>
          Resolved {| results := ResultArray [rawResult cleanResult];
                      prompt := promptText |}
      end
  end.

End Nano.

Module Sessions.

(** ** routes/+page.svelte: the session map and the analysis cycle *)

Definition MIN_SESSION_DURATION : Z := 1000.
Definition SESSION_TIMEOUT : Z := 5000.

Record SessionData := mkSessionData {
  sessionId : string;
  startTime : Z;
  lastSeen : Z
}.

(** [activeSessions], a [Map] from track identifier to session data. *)
Definition SessionMap : Type := list (string * SessionData).

Definition mapGet (key : string) (m : SessionMap) : option SessionData :=
  option_map snd (find (fun kv => String.eqb (fst kv) key) m).

Definition mapHas (key : string) (m : SessionMap) : bool :=
  match mapGet key m with Some _ => true | None => false end.

Fixpoint mapSet (key : string) (value : SessionData) (m : SessionMap)
    : SessionMap :=
  match m with
  | [] => [(key, value)]
  | (k, v) :: rest =>
      if String.eqb k key then (k, value) :: rest
      else (k, v) :: mapSet key value rest
  end.

Definition mapDelete (key : string) (m : SessionMap) : SessionMap :=
  filter (fun kv => negb (String.eqb (fst kv) key)) m.

(** What [cleanupStaleSessions] decides for one entry of the map. *)
Inductive Closing := StaysOpen | Finalized | Deleted.

Definition closing (currentTrackIds : list string) (now : Z) (uid : string)
    (sessionData : SessionData) : Closing :=
  if existsb (String.eqb uid) currentTrackIds then StaysOpen
  else
    let timeSinceLastSeen := now - lastSeen sessionData in
    if SESSION_TIMEOUT <? timeSinceLastSeen then
      let sessionDuration := now - startTime sessionData in
      if MIN_SESSION_DURATION <=? sessionDuration then Finalized
      else Deleted
    else StaysOpen.

(** The [forEach] of [cleanupStaleSessions]: the database calls it makes
    and the identifiers it collects in [toRemove]. *)
Fixpoint sweep (currentTrackIds : list string) (now : Z) (m : SessionMap)
    : list Db.DbCall * list string :=
  match m with
  | [] => ([], [])
  | (uid, sessionData) :: rest =>
      let '(calls, toRemove) := sweep currentTrackIds now rest in
      match closing currentTrackIds now uid sessionData with
      | StaysOpen => (calls, toRemove)
      | Finalized =>
          (Db.EndSession (sessionId sessionData) :: calls, uid :: toRemove)
      | Deleted =>
          (Db.DeleteSession (sessionId sessionData) :: calls,
           uid :: toRemove)
      end
  end.

Definition cleanupStaleSessions (currentTrackIds : list string) (now : Z)
    (m : SessionMap) : list Db.DbCall * SessionMap :=
  let '(calls, toRemove) := sweep currentTrackIds now m in
  (calls, fold_left (fun acc uid => mapDelete uid acc) toRemove m).

(** The end of the page ([onDestroy]): every session still in the map is
    ended or deleted by its age. *)
Definition closeAllSessions (now : Z) (m : SessionMap) : list Db.DbCall :=
  map (fun kv =>
         let duration := now - startTime (snd kv) in
         if MIN_SESSION_DURATION <=? duration
         then Db.EndSession (sessionId (snd kv))
         else Db.DeleteSession (sessionId (snd kv))) m.

(** Step 1 of a cycle, for the valid tracks in order: open a session for
    a track without one, refresh [lastSeen] otherwise.  [longIds] counts
    the identifiers drawn from [generateID('long')]. *)
Fixpoint manageSessions (generateLongID : nat -> string)
    (validTracks : list Tracker.LocalTrack) (now : Z)
    (m : SessionMap) (longIds : nat)
    : list Db.DbCall * SessionMap * nat :=
  match validTracks with
  | [] => ([], m, longIds)
  | t :: rest =>
      let uid := Tracker.id t in
      match mapGet uid m with
      | None =>
          let newSessionId := generateLongID longIds in
          let '(calls, m', n') :=
            manageSessions generateLongID rest now
              (mapSet uid {| sessionId := newSessionId; startTime := now;
                             lastSeen := now |} m) (S longIds) in
          (Db.StartSession newSessionId :: calls, m', n')
      | Some sessionData =>
          manageSessions generateLongID rest now
            (mapSet uid {| sessionId := sessionId sessionData;
                           startTime := startTime sessionData;
                           lastSeen := now |} m) longIds
      end
  end.

(** What the cycle takes from its surroundings. *)
Record Runtime := mkRuntime {
  generateLongID : nat -> string;
  JSON_stringify : list (string * string) -> string;
  nano : Nano.Runtime;
  aggregator : Aggregator.Runtime
}.

(** The state the cycle works on: the session map, the database with the
    aggregator's mark, the count of long identifiers drawn, and the
    [isAnalyzing] flag. *)
Record World := mkWorld {
  activeSessions : SessionMap;
  storage : Aggregator.Storage;
  longIds : nat;
  isAnalyzing : bool
}.

Definition initialWorld : World :=
  {| activeSessions := [];
     storage := {| Aggregator.database := Db.emptyDatabase;
                   Aggregator.lastProcessedHour := None |};
     longIds := 0;
     isAnalyzing := true |}.

(** What one cycle did: its database calls in order, the number of calls
    to [analyzeFrameWithNanoStreaming], and whether it re-armed the
    timer. *)
Record CycleReport := mkReport {
  dbCalls : list Db.DbCall;
  inferenceCalls : nat;
  scheduledNext : bool
}.

Definition withDatabase (f : Db.Database -> Db.Database)
    (st : Aggregator.Storage) : Aggregator.Storage :=
  {| Aggregator.database := f (Aggregator.database st);
     Aggregator.lastProcessedHour := Aggregator.lastProcessedHour st |}.

(** The aggregation check made after a log entry is written.  The page
    does not await it; here it runs to its end before the next result is
    logged. *)
Definition aggregationCheck (rt : Runtime) (now : Z)
    (st : Aggregator.Storage) : Aggregator.Storage :=
  match Aggregator.checkAndTriggerAggregation (aggregator rt) now st with
  | Some (_, st') => st'
  | None => st
  end.

Definition present (field : string) (value : option string)
    : list (string * string) :=
  match value with
  | Some v => [(field, v)]
  | None => []
  end.

(** [resultObj]: the attributes that are neither [null] nor undefined. *)
Definition resultObject (res : Nano.NanoAnalysisResult)
    : list (string * string) :=
  present "age" (Nano.age res) ++ present "sex" (Nano.sex res)
  ++ present "fashion" (Nano.fashion res)
  ++ present "emotion" (Nano.emotion res)
  ++ present "action" (Nano.action res)
  ++ present "direction" (Nano.direction res)
  ++ present "accessories" (Nano.accessories res)
  ++ present "posture" (Nano.posture res).

Definition truthy (text : string) : bool :=
  match text with
  | EmptyString => false
  | _ => true
  end.

(** The session a result is logged to: [activeSessions.get(res.uid)],
    provided [res.uid] is truthy. *)
Definition sessionFor (m : SessionMap) (res : Nano.NanoAnalysisResult)
    : option (string * SessionData) :=
  match Nano.uid res with
  | Some u =>
      match mapGet u m with
      | Some sessionData => if truthy u then Some (u, sessionData) else None
      | None => None
      end
  | None => None
  end.

(** Step 3 of a cycle, at the clock reading [later] after the call has
    resolved: the calls made and the storage afterwards. *)
Fixpoint logResults (rt : Runtime) (m : SessionMap)
    (items : list Nano.NanoAnalysisResult) (promptText : string) (later : Z)
    (st : Aggregator.Storage) : list Db.DbCall * Aggregator.Storage :=
  match items with
  | [] => ([], st)
  | res :: rest =>
      match sessionFor m res with
      | Some (u, sessionData) =>
          let resultJson := JSON_stringify rt (resultObject res) in
          let call :=
            Db.AddAnalysisLog (sessionId sessionData) u promptText
              resultJson in
          let st1 := withDatabase (fun db => Db.applyCall later db call) st in
          let st2 := aggregationCheck rt later st1 in
          let '(calls, st3) := logResults rt m rest promptText later st2 in
          (call :: calls, st3)
      | None => logResults rt m rest promptText later st
      end
  end.

(** What one cycle reads: the published tracks, the clock at its start,
    whether the video has a frame, how the engine behaves if called, and
    the clock once the call has resolved. *)
Record CycleInput := mkInput {
  currentTracks : list Tracker.LocalTrack;
  now : Z;
  videoReady : bool;
  engine : Nano.EngineBehaviour;
  resolvedAt : Z
}.

Definition hasId (t : Tracker.LocalTrack) : bool := truthy (Tracker.id t).

Definition isValidTrack (t : Tracker.LocalTrack) : bool :=
  hasId t && Tracker.isConfirmed t && Tracker.matched t.

(** The cycle up to the point where the engine would be called: the
    sweep of stale sessions and, when there are valid tracks, step 1. *)
Definition sessionPhase (rt : Runtime) (inp : CycleInput) (w : World)
    : list Db.DbCall * World :=
  let currentTrackIds :=
    map Tracker.id (filter hasId (currentTracks inp)) in
  let '(calls1, m1) :=
    cleanupStaleSessions currentTrackIds (now inp) (activeSessions w) in
  let validTracks := filter isValidTrack (currentTracks inp) in
  let '(calls2, m2, n2) :=
    manageSessions (generateLongID rt) validTracks (now inp) m1 (longIds w) in
  ((calls1 ++ calls2)%list,
   {| activeSessions := m2;
      storage :=
        withDatabase (Db.applyCalls (now inp) (calls1 ++ calls2)%list)
          (storage w);
      longIds := n2;
      isAnalyzing := isAnalyzing w |}).

(** Whether the cycle reaches the call on the engine. *)
Definition callsEngine (inp : CycleInput) : bool :=
  match filter isValidTrack (currentTracks inp) with
  | [] => false
  | _ => videoReady inp
  end.

(** One run of [loop]. *)
Definition analysisCycle (rt : Runtime) (inp : CycleInput) (w : World)
    : World * CycleReport :=
  if negb (isAnalyzing w) then
    (w, {| dbCalls := []; inferenceCalls := 0; scheduledNext := false |})
  else
    let '(calls, w1) := sessionPhase rt inp w in
    if callsEngine inp then
      let validTracks := filter isValidTrack (currentTracks inp) in
      match Nano.analyzeFrameWithNanoStreaming (nano rt) (engine inp)
              validTracks with
      | Nano.Rejected =>
          (w1, {| dbCalls := calls; inferenceCalls := 1;
                  scheduledNext := isAnalyzing w1 |})
      | Nano.Resolved response =>
          match Nano.results response with
          | Nano.NotIterable =>
              (w1, {| dbCalls := calls; inferenceCalls := 1;
                      scheduledNext := isAnalyzing w1 |})
          | Nano.ResultArray items =>
              let '(logged, st) :=
                logResults rt (activeSessions w1) items
                  (Nano.prompt response) (resolvedAt inp) (storage w1) in
              ({| activeSessions := activeSessions w1;
                  storage := st;
                  longIds := longIds w1;
                  isAnalyzing := isAnalyzing w1 |},
               {| dbCalls := (calls ++ logged)%list; inferenceCalls := 1;
                  scheduledNext := isAnalyzing w1 |})
          end
      end
    else
      (w1, {| dbCalls := calls; inferenceCalls := 0;
              scheduledNext := isAnalyzing w1 |}).

(** A run of cycles, one input each. *)
Definition runCycles (rt : Runtime) (inputs : list CycleInput) (w : World)
    : World :=
  fold_left (fun acc inp => fst (analysisCycle rt inp acc)) inputs w.

End Sessions.

Module Loop.

(** ** routes/+page.svelte: the scheduling of the analysis loop

    JavaScript runs one callback at a time, to its end or to its next
    [await].  The state below counts where the runs of [loop] stand
    between callbacks; an event is one callback. *)

Record LoopState := mkLoop {
  isAnalyzing : bool;
  trackerDisposed : bool;   (* [onDestroy] has run: [disposeTracker] has
                               emptied the published tracks and no frame
                               is processed any more *)
  pendingTimers : nat;      (* [setTimeout(loop, 0)] callbacks not yet run *)
  awaitingInference : nat;  (* runs of [loop] suspended at
                               [await analyzeFrameWithNanoStreaming]: the
                               calls in flight *)
  awaitingWrite : nat       (* runs of [loop] suspended at
                               [await db.addAnalysisLog] *)
}.

Definition initialLoop : LoopState :=
  {| isAnalyzing := false; trackerDisposed := false; pendingTimers := 0;
     awaitingInference := 0; awaitingWrite := 0 |}.

Inductive Event :=
| StartAnalysisLoop (validTracks : bool)
    (* the timer of [handleCameraReady] calls [startAnalysisLoop];
       [validTracks]: the published tracks hold a valid one and the video
       has a frame *)
| TimerFires (validTracks : bool)
    (* a pending [setTimeout(loop, 0)] runs [loop] *)
| InferenceSettles (logs : bool)
    (* a call in flight resolves or rejects and its run of [loop]
       resumes; [logs]: it resolved with a result to log *)
| WriteSettles (more : bool)
    (* an awaited [addAnalysisLog] settles; [more]: another result is
       logged next *)
| Destroy (timerCancelled : bool).
    (* [onDestroy]; [timerCancelled]: [analysisTimeout] was still
       pending when [clearTimeout] ran.  The page receives no
       [camera-ready] event afterwards, so the tracker is not
       initialised again *)

(** The end of [loop]: the timer is re-armed while [isAnalyzing] holds. *)
Definition finishLoop (s : LoopState) : LoopState :=
  if isAnalyzing s then
    {| isAnalyzing := isAnalyzing s; trackerDisposed := trackerDisposed s;
       pendingTimers := S (pendingTimers s);
       awaitingInference := awaitingInference s;
       awaitingWrite := awaitingWrite s |}
  else s.

(** [loop] from its start to its first [await] or to its end.  After
    [disposeTracker] the published tracks are empty, so the branch with
    the call is not taken. *)
Definition enterLoop (validTracks : bool) (s : LoopState) : LoopState :=
  if negb (isAnalyzing s) then s
  else if validTracks && negb (trackerDisposed s) then
    {| isAnalyzing := isAnalyzing s; trackerDisposed := trackerDisposed s;
       pendingTimers := pendingTimers s;
       awaitingInference := S (awaitingInference s);
       awaitingWrite := awaitingWrite s |}
  else finishLoop s.

(** One callback; [None] when the event cannot happen in [s]. *)
Definition step (s : LoopState) (e : Event) : option LoopState :=
  match e with
  | StartAnalysisLoop validTracks =>
      if isAnalyzing s then Some s
      else
        Some (enterLoop validTracks
                {| isAnalyzing := true; trackerDisposed := trackerDisposed s;
                   pendingTimers := pendingTimers s;
                   awaitingInference := awaitingInference s;
                   awaitingWrite := awaitingWrite s |})
  | TimerFires validTracks =>
      match pendingTimers s with
      | O => None
      | S timers =>
          Some (enterLoop validTracks
                  {| isAnalyzing := isAnalyzing s;
                     trackerDisposed := trackerDisposed s;
                     pendingTimers := timers;
                     awaitingInference := awaitingInference s;
                     awaitingWrite := awaitingWrite s |})
      end
  | InferenceSettles logs =>
      match awaitingInference s with
      | O => None
      | S calls =>
          if logs then
            Some {| isAnalyzing := isAnalyzing s;
                    trackerDisposed := trackerDisposed s;
                    pendingTimers := pendingTimers s;
                    awaitingInference := calls;
                    awaitingWrite := S (awaitingWrite s) |}
          else
            Some (finishLoop
                    {| isAnalyzing := isAnalyzing s;
                       trackerDisposed := trackerDisposed s;
                       pendingTimers := pendingTimers s;
                       awaitingInference := calls;
                       awaitingWrite := awaitingWrite s |})
      end
  | WriteSettles more =>
      match awaitingWrite s with
      | O => None
      | S writes =>
          if more then Some s
          else
            Some (finishLoop
                    {| isAnalyzing := isAnalyzing s;
                       trackerDisposed := trackerDisposed s;
                       pendingTimers := pendingTimers s;
                       awaitingInference := awaitingInference s;
                       awaitingWrite := writes |})
      end
  | Destroy timerCancelled =>
      Some {| isAnalyzing := false; trackerDisposed := true;
              pendingTimers :=
                if timerCancelled then Nat.pred (pendingTimers s)
                else pendingTimers s;
              awaitingInference := awaitingInference s;
              awaitingWrite := awaitingWrite s |}
  end.

(** A sequence of callbacks. *)
Fixpoint run (events : list Event) (s : LoopState) : option LoopState :=
  match events with
  | [] => Some s
  | e :: rest =>
      match step s e with
      | Some s' => run rest s'
      | None => None
      end
  end.

End Loop.

(* ================================================================== *)
(** * Part II: theorems                                                *)
(* ================================================================== *)

Module FloatFacts.

(** ** Binary64 arithmetic

    Facts about the primitive floating-point operations, read off their
    specification on [spec_float]. *)

(** *** Comparison *)

(** The place of a number on the extended line, as a triple compared
    lexicographically. *)
Definition key (x : spec_float) : Z * Z * Z :=
  match x with
  | S754_nan => (0, 0, 0)
  | S754_infinity true => (-2, 0, 0)
  | S754_infinity false => (2, 0, 0)
  | S754_zero _ => (0, 0, 0)
  | S754_finite true m e => (-1, - e, - Zpos m)
  | S754_finite false m e => (1, e, Zpos m)
  end.

Definition lexcmp (a b : Z * Z * Z) : comparison :=
  let '(a1, a2, a3) := a in
  let '(b1, b2, b3) := b in
  match a1 ?= b1 with
  | Eq => match a2 ?= b2 with Eq => a3 ?= b3 | c => c end
  | c => c
  end.

Definition lexle (a b : Z * Z * Z) : Prop :=
  let '(a1, a2, a3) := a in
  let '(b1, b2, b3) := b in
  a1 < b1 \/ (a1 = b1 /\ (a2 < b2 \/ (a2 = b2 /\ a3 <= b3))).

Lemma lexcmp_le (a b : Z * Z * Z) : lexcmp a b <> Gt <-> lexle a b.
Proof.
  destruct a as [[a1 a2] a3], b as [[b1 b2] b3]. unfold lexcmp, lexle.
  destruct (Z.compare_spec a1 b1); [ | split; [ lia | discriminate ] | split; [ congruence | lia ] ].
  destruct (Z.compare_spec a2 b2); [ | split; [ lia | discriminate ] | split; [ congruence | lia ] ].
  destruct (Z.compare_spec a3 b3); split; try lia; try discriminate; congruence.
Qed.

Lemma SFcompare_key (x y : spec_float) :
  x <> S754_nan -> y <> S754_nan ->
  SFcompare x y = Some (lexcmp (key x) (key y)).
Proof.
  intros Nx Ny.
  destruct x as [sx | sx | | sx mx ex], y as [sy | sy | | sy my ey];
    try congruence; cbn [SFcompare key];
    try (destruct sx; try destruct sy; reflexivity);
    try (destruct sy; reflexivity).
  destruct sx, sy; cbn [lexcmp Z.compare]; try reflexivity.
  change (CompOpp (1 ?= 1)%positive) with Eq. cbv iota.
  rewrite Z.compare_opp, (Z.compare_antisym ex ey).
  destruct (ex ?= ey); reflexivity.
Qed.

Lemma lexcmp_antisym (a b : Z * Z * Z) : lexcmp b a = CompOpp (lexcmp a b).
Proof.
  destruct a as [[a1 a2] a3], b as [[b1 b2] b3]. unfold lexcmp.
  rewrite (Z.compare_antisym a1 b1), (Z.compare_antisym a2 b2),
    (Z.compare_antisym a3 b3).
  destruct (a1 ?= b1), (a2 ?= b2), (a3 ?= b3); reflexivity.
Qed.

Lemma SFcompare_antisym (x y : spec_float) :
  SFcompare y x = option_map CompOpp (SFcompare x y).
Proof.
  destruct x as [sx | sx | | sx mx ex] eqn:Ex, y as [sy | sy | | sy my ey] eqn:Ey;
    try reflexivity;
    rewrite <- Ex, <- Ey, !SFcompare_key by (subst; discriminate);
    cbn [option_map]; now rewrite lexcmp_antisym.
Qed.


(** *** The primitive operations through their specifications *)




Lemma compare_antisym (a b : float) :
  (b ?= a)%float
  = match (a ?= b)%float with
    | FLt => FGt
    | FGt => FLt
    | c => c
    end.
Proof.
  rewrite !compare_spec, (SFcompare_antisym (Prim2SF a) (Prim2SF b)).
  now destruct (SFcompare (Prim2SF a) (Prim2SF b)) as [ [ | | ] | ].
Qed.





(** *** Order *)

(** [x] is at most [y], neither being NaN. *)
Definition le (x y : spec_float) : Prop :=
  x <> S754_nan /\ y <> S754_nan /\ lexle (key x) (key y).

Lemma le_refl (x : spec_float) : x <> S754_nan -> le x x.
Proof.
  intros N. split; [ exact N | split; [ exact N | ] ].
  destruct (key x) as [[k1 k2] k3]. unfold lexle. lia.
Qed.

Lemma le_trans (x y z : spec_float) : le x y -> le y z -> le x z.
Proof.
  intros (Nx & _ & A) (_ & Nz & B). split; [ exact Nx | split; [ exact Nz | ] ].
  destruct (key x) as [[x1 x2] x3], (key y) as [[y1 y2] y3],
           (key z) as [[z1 z2] z3].
  unfold lexle in *. lia.
Qed.

Lemma SFcompare_le (x y : spec_float) (c : comparison) :
  SFcompare x y = Some c ->
  match c with
  | Lt => le x y
  | Eq => le x y /\ le y x
  | Gt => le y x
  end.
Proof.
  intros E.
  assert (Nx : x <> S754_nan) by (intros ->; discriminate).
  assert (Ny : y <> S754_nan) by (intros ->; destruct x; discriminate).
  rewrite (SFcompare_key x y Nx Ny) in E. injection E as E.
  pose proof (lexcmp_le (key x) (key y)) as A.
  pose proof (lexcmp_le (key y) (key x)) as B.
  rewrite lexcmp_antisym, E in B. rewrite E in A. unfold le.
  destruct c; cbn [CompOpp] in B;
    repeat split; auto; try (apply A; discriminate);
    try (apply B; discriminate).
Qed.

Lemma leb_le (a b : float) :
  (a <=? b)%float = true -> le (Prim2SF a) (Prim2SF b).
Proof.
  rewrite leb_spec. unfold SFleb.
  destruct (SFcompare (Prim2SF a) (Prim2SF b)) as [ c | ] eqn:E;
    [ | discriminate ].
  pose proof (SFcompare_le _ _ _ E) as L.
  destruct c; [ tauto | tauto | discriminate ].
Qed.



(** *** Mantissas *)






(** *** Subtraction *)






(** *** NaN goes through *)






Lemma div_nan_r (a : float) : (a / nan)%float = nan.
Proof.
  apply Prim2SF_inj. rewrite div_spec. change (Prim2SF nan) with S754_nan.
  now destruct (Prim2SF a).
Qed.



(** *** Zero *)







(** *** A number divided by itself *)


(** *** The two comparisons together *)

Lemma comparison_cases (a b : float) :
  ((Prim2SF a = S754_nan \/ Prim2SF b = S754_nan)
   /\ (a <? b)%float = false /\ (a <=? b)%float = false)
  \/ (Prim2SF a <> S754_nan /\ Prim2SF b <> S754_nan
      /\ (((a <? b)%float = true /\ (a <=? b)%float = true
           /\ lexle (key (Prim2SF a)) (key (Prim2SF b))
           /\ ~ lexle (key (Prim2SF b)) (key (Prim2SF a)))
          \/ ((a <? b)%float = false /\ (a <=? b)%float = true
              /\ lexle (key (Prim2SF a)) (key (Prim2SF b))
              /\ lexle (key (Prim2SF b)) (key (Prim2SF a)))
          \/ ((a <? b)%float = false /\ (a <=? b)%float = false
              /\ ~ lexle (key (Prim2SF a)) (key (Prim2SF b))
              /\ lexle (key (Prim2SF b)) (key (Prim2SF a))))).
Proof.
  rewrite ltb_spec, leb_spec. unfold SFltb, SFleb.
  destruct (SFcompare (Prim2SF a) (Prim2SF b)) as [ c | ] eqn:E.
  - right.
    assert (Na : Prim2SF a <> S754_nan) by (intros N; now rewrite N in E).
    assert (Nb : Prim2SF b <> S754_nan)
      by (intros N; rewrite N in E; now destruct (Prim2SF a)).
    split; [ exact Na | split; [ exact Nb | ] ].
    rewrite (SFcompare_key _ _ Na Nb) in E. injection E as E.
    pose proof (lexcmp_le (key (Prim2SF a)) (key (Prim2SF b))) as A.
    pose proof (lexcmp_le (key (Prim2SF b)) (key (Prim2SF a))) as B.
    rewrite lexcmp_antisym, E in B. rewrite E in A.
    destruct c; cbn [CompOpp] in B.
    + right. left. repeat split; [ apply A | apply B ]; discriminate.
    + left. repeat split; [ apply A; discriminate | ].
      intros L. apply B in L. now apply L.
    + right. right. repeat split; [ | apply B; discriminate ].
      intros L. apply A in L. now apply L.
  - left. split; [ | split; reflexivity ].
    destruct (Prim2SF a), (Prim2SF b); try discriminate; auto.
Qed.

Ltac order_keys :=
  repeat match goal with
  | H : context [key ?x] |- _ =>
      let k1 := fresh "k" in let k2 := fresh "k" in let k3 := fresh "k" in
      destruct (key x) as [[k1 k2] k3]
  | |- context [key ?x] =>
      let k1 := fresh "k" in let k2 := fresh "k" in let k3 := fresh "k" in
      destruct (key x) as [[k1 k2] k3]
  end;
  unfold lexle in *.

Ltac compare_floats a b :=
  let H := fresh "Hc" in
  destruct (comparison_cases a b)
    as [([? | ?] & ? & ?)
       | (? & ? & [(? & ? & ? & ?) | [(? & ? & ? & ?) | (? & ? & ? & ?)]])].

Lemma ltb_le (a b : float) :
  (a <? b)%float = true -> le (Prim2SF a) (Prim2SF b).
Proof.
  intros L. unfold le. compare_floats a b; try congruence; auto.
Qed.

Lemma le_ltb_false (x y : float) :
  le (Prim2SF x) (Prim2SF y) -> (y <? x)%float = false.
Proof.
  intros (Nx & Ny & L). compare_floats y x; try congruence; auto.
Qed.

Lemma ltb_trans (a b c : float) :
  (a <? b)%float = true -> (b <? c)%float = true -> (a <? c)%float = true.
Proof.
  intros A B.
  compare_floats a b; try congruence.
  compare_floats b c; try congruence.
  compare_floats a c; try congruence; order_keys; lia.
Qed.

Lemma ltb_leb_false (x r : float) :
  (x <? r)%float = true -> (r <=? x)%float = false.
Proof.
  intros A.
  compare_floats x r; try congruence.
  compare_floats r x; try congruence; order_keys; lia.
Qed.

(** A value that is not above [b] is not above anything that [b] is at
    most. *)
Lemma ltb_false_le (b x r : float) :
  Prim2SF b <> S754_nan ->
  (b <? x)%float = false -> le (Prim2SF b) (Prim2SF r) ->
  (r <? x)%float = false.
Proof.
  intros Nb A (_ & Nr & L).
  compare_floats b x; try congruence;
    compare_floats r x; try congruence; order_keys; lia.
Qed.

Lemma ltb_false_ltb (b x r : float) :
  Prim2SF b <> S754_nan ->
  (b <? x)%float = false -> (b <? r)%float = true ->
  (r <=? x)%float = false.
Proof.
  intros Nb A B.
  compare_floats b r; try congruence.
  compare_floats b x; try congruence;
    compare_floats r x; try congruence; order_keys; lia.
Qed.

Lemma ltb_not_nan (a b : float) :
  (a <? b)%float = true ->
  Prim2SF a <> S754_nan /\ Prim2SF b <> S754_nan.
Proof.
  intros A. compare_floats a b; try congruence; auto.
Qed.

(** *** Finite numbers *)



End FloatFacts.

Module TrackerFacts.
Import Tracker FloatFacts.

(** *** Symmetry *)





(** *** Boxes that do not overlap *)





(** *** Equal areas *)


Example calculateIoU_partial :
  calculateIoU (mkBox 0 0 2 2) (mkBox 1 0 2 2)
  = (2 / 6)%float.
Proof. reflexivity. Qed.

Example calculateIoU_contained :
  calculateIoU (mkBox 0 0 4 4) (mkBox 1 1 2 2) = 0.25%float.
Proof. reflexivity. Qed.




(** *** The prune step *)

Lemma withinGrace_iff (cfg : TrackerConfig) (now : Z) (t : LocalTrack) :
  withinGrace cfg now t = true <-> now - lastSeen t < gracePeriodMs cfg.
Proof. unfold withinGrace. apply Z.ltb_lt. Qed.

Lemma pruneTracks_In (cfg : TrackerConfig) (now : Z)
    (tracks : list LocalTrack) (t : LocalTrack) :
  In t (pruneTracks cfg now tracks) <->
  In t tracks /\ now - lastSeen t < gracePeriodMs cfg.
Proof.
  unfold pruneTracks. rewrite filter_In, withinGrace_iff. reflexivity.
Qed.

(** A call of [processFrame] either stops at a guard and leaves the
    tracks as they were, or runs steps 1.5 to 3 on the normalised
    detections. *)
Lemma processFrame_tracks (generateID : nat -> string) (cfg : TrackerConfig)
    (video : Video) (now : Z) (m : TrackerModule) :
  tracks (processFrame generateID cfg video now m)
  = if frameIsProcessed video m
    then trackDetections generateID cfg
           (map (normalise (videoWidth video) (videoHeight video))
              (detected video)) now (tracks m)
    else tracks m.
Proof.
  unfold processFrame, frameIsProcessed.
  destruct (objectDetector m); cbn [negb andb]; [ | reflexivity ].
  destruct (currentTime video =? lastVideoTime m)%float;
    cbn [negb andb]; [ reflexivity | ].
  now destruct ((videoWidth video =? 0)%float || (videoHeight video =? 0)%float).
Qed.

(** The tracks that step 3 of [processFrame] examines: the live set after
    the matching step of the same call. *)
Definition candidates (generateID : nat -> string) (cfg : TrackerConfig)
    (video : Video) (now : Z) (m : TrackerModule) : list LocalTrack :=
  localTracks
    (matchFrame generateID cfg
       (filter (geometricFilter cfg)
          (map (normalise (videoWidth video) (videoHeight video))
             (detected video)))
       now (tracks m)).

(** *** Looking a track up by identifier *)

Lemma findTrack_cons (uid : string) (t : LocalTrack) (l : list LocalTrack) :
  findTrack uid (t :: l) =
  if String.eqb (id t) uid then Some t else findTrack uid l.
Proof. reflexivity. Qed.

Lemma findTrack_id (uid : string) (l : list LocalTrack) (t : LocalTrack) :
  findTrack uid l = Some t -> id t = uid /\ In t l.
Proof.
  intros H. apply find_some in H. destruct H as [I E].
  apply String.eqb_eq in E. auto.
Qed.

Lemma findTrack_absent (uid : string) (l : list LocalTrack) :
  ~ In uid (map id l) -> findTrack uid l = None.
Proof.
  induction l as [ | a l IH ]; [ reflexivity | ].
  cbn [map In]. intros N. rewrite findTrack_cons.
  destruct (String.eqb_spec (id a) uid) as [E | _]; [ tauto | ].
  apply IH. tauto.
Qed.

Lemma findTrack_present (uid : string) (l : list LocalTrack) :
  findTrack uid l = None -> ~ In uid (map id l).
Proof.
  induction l as [ | a l IH ]; [ intros _ [] | ].
  rewrite findTrack_cons. cbn [map In].
  destruct (String.eqb_spec (id a) uid) as [E | N]; [ discriminate | ].
  intros H [E | I]; [ congruence | ]. now apply IH.
Qed.

Lemma findTrack_updateAt (uid : string) (f : LocalTrack -> LocalTrack)
    (n : nat) (l : list LocalTrack) :
  (forall t, id (f t) = id t) ->
  match findTrack uid l with
  | None => findTrack uid (updateAt f n l) = None
  | Some t => findTrack uid (updateAt f n l) = Some t
              \/ findTrack uid (updateAt f n l) = Some (f t)
  end.
Proof.
  intros Hid. revert n. induction l as [ | a l IH ]; intros n.
  - destruct n; reflexivity.
  - destruct n as [ | n ]; cbn [updateAt]; rewrite !findTrack_cons.
    + rewrite Hid. destruct (String.eqb (id a) uid); [ now right | ].
      destruct (findTrack uid l); auto.
    + destruct (String.eqb (id a) uid); [ now left | ]. apply IH.
Qed.

Lemma findTrack_snoc (uid : string) (l : list LocalTrack) (x : LocalTrack) :
  findTrack uid (l ++ [x]) =
  match findTrack uid l with
  | Some t => Some t
  | None => if String.eqb (id x) uid then Some x else None
  end.
Proof.
  induction l as [ | a l IH ]; [ reflexivity | ].
  cbn [app]. rewrite !findTrack_cons.
  destruct (String.eqb (id a) uid); [ reflexivity | exact IH ].
Qed.

Lemma findTrack_clearMatched (uid : string) (l : list LocalTrack) :
  findTrack uid (map clearMatched l) =
  option_map clearMatched (findTrack uid l).
Proof.
  induction l as [ | a l IH ]; [ reflexivity | ].
  cbn [map]. rewrite !findTrack_cons. cbn [clearMatched id].
  destruct (String.eqb (id a) uid); [ reflexivity | exact IH ].
Qed.

Lemma map_id_filter_incl (q : LocalTrack -> bool) (l : list LocalTrack)
    (uid : string) :
  In uid (map id (filter q l)) -> In uid (map id l).
Proof.
  rewrite !in_map_iff. intros (t & E & I). apply filter_In in I.
  exists t. tauto.
Qed.

Lemma NoDup_map_id_filter (q : LocalTrack -> bool) (l : list LocalTrack) :
  NoDup (map id l) -> NoDup (map id (filter q l)).
Proof.
  induction l as [ | a l IH ]; [ auto | ].
  cbn [map filter]. intros N. inversion N as [ | ? ? Na Nl ]; subst.
  destruct (q a); [ | auto ].
  cbn [map]. constructor; [ | auto ].
  intros I. apply Na. eapply map_id_filter_incl; eauto.
Qed.

Lemma findTrack_filter (q : LocalTrack -> bool) (uid : string)
    (l : list LocalTrack) :
  NoDup (map id l) ->
  findTrack uid (filter q l) =
  match findTrack uid l with
  | Some t => if q t then Some t else None
  | None => None
  end.
Proof.
  induction l as [ | a l IH ]; [ reflexivity | ].
  cbn [map filter]. intros N. inversion N as [ | ? ? Na Nl ]; subst.
  rewrite findTrack_cons.
  destruct (String.eqb_spec (id a) uid) as [E | NE].
  - destruct (q a).
    + rewrite findTrack_cons. subst uid. now rewrite String.eqb_refl.
    + apply findTrack_absent. intros I. apply Na. subst uid.
      eapply map_id_filter_incl; eauto.
  - destruct (q a); [ | auto ].
    rewrite findTrack_cons.
    destruct (String.eqb_spec (id a) uid); [ contradiction | auto ].
Qed.

(** *** Updating one position *)

Lemma map_id_updateAt (f : LocalTrack -> LocalTrack) (n : nat)
    (l : list LocalTrack) :
  (forall t, id (f t) = id t) -> map id (updateAt f n l) = map id l.
Proof.
  intros Hid. revert n. induction l as [ | a l IH ]; intros [ | n ];
    cbn [updateAt map]; try reflexivity.
  - now rewrite Hid.
  - now rewrite IH.
Qed.

Lemma Forall_updateAt {A : Type} (P : A -> Prop) (f : A -> A) (n : nat)
    (l : list A) :
  (forall x, P x -> P (f x)) -> Forall P l -> Forall P (updateAt f n l).
Proof.
  intros Hf H. revert n. induction H as [ | a l Pa Pl IH ]; intros [ | n ];
    cbn [updateAt]; auto.
Qed.

Section Confirmation.
Variable generateID : nat -> string.
Variable cfg : TrackerConfig.

(** What one detection does to the tracker, case by case. *)
Lemma matchDetection_cases (now : Z) (st : TrackerState) (det : Detection) :
  (exists index,
     matchDetection generateID cfg now st det =
     {| localTracks := updateAt (updateTrack cfg det now) index
                         (localTracks st);
        idsDrawn := idsDrawn st |})
  \/ matchDetection generateID cfg now st det = st
  \/ matchDetection generateID cfg now st det =
     {| localTracks :=
          localTracks st ++ [newTrack (generateID (idsDrawn st)) det now];
        idsDrawn := S (idsDrawn st) |}.
Proof.
  unfold matchDetection.
  destruct (findBest (localTracks st) det) as [bestIoU bestMatchIndex].
  assert (C : createTrack generateID cfg now st det = st
              \/ createTrack generateID cfg now st det =
                 {| localTracks :=
                      localTracks st
                      ++ [newTrack (generateID (idsDrawn st)) det now];
                    idsDrawn := S (idsDrawn st) |}).
  { unfold createTrack.
    destruct (det_score det <? highScoreThreshold cfg)%float; auto. }
  destruct (iouThreshold cfg <? bestIoU)%float; [ | now right ].
  destruct bestMatchIndex as [ index | ]; [ left; eauto | now right ].
Qed.

(** The confirmation flag is set only at or above the frame count. *)
Definition confirmedAtCount (t : LocalTrack) : Prop :=
  isConfirmed t = true -> confirmationFrames cfg <= consecutiveFrames t.

Lemma confirmedAtCount_updateTrack (det : Detection) (now : Z)
    (t : LocalTrack) :
  confirmedAtCount t -> confirmedAtCount (updateTrack cfg det now t).
Proof.
  unfold confirmedAtCount, updateTrack. cbn [isConfirmed consecutiveFrames].
  intros H.
  destruct (Z.leb_spec (confirmationFrames cfg) (consecutiveFrames t + 1));
    [ auto | ].
  intros C. specialize (H C). lia.
Qed.

Lemma isConfirmed_updateTrack (det : Detection) (now : Z) (t : LocalTrack) :
  isConfirmed t = true -> isConfirmed (updateTrack cfg det now t) = true.
Proof.
  intros C. unfold updateTrack. cbn [isConfirmed]. rewrite C.
  now destruct (confirmationFrames cfg <=? consecutiveFrames t + 1).
Qed.

Lemma matchDetection_confirmedAtCount (now : Z) (st : TrackerState)
    (det : Detection) :
  Forall confirmedAtCount (localTracks st) ->
  Forall confirmedAtCount
    (localTracks (matchDetection generateID cfg now st det)).
Proof.
  intros H.
  destruct (matchDetection_cases now st det) as [[index E] | [E | E]];
    rewrite E; cbn [localTracks].
  - apply Forall_updateAt; [ | exact H ].
    intros t. apply confirmedAtCount_updateTrack.
  - exact H.
  - apply Forall_app. split; [ exact H | ].
    constructor; [ | constructor ]. intros C. discriminate C.
Qed.

Lemma trackDetections_confirmedAtCount (rawDetections : list Detection)
    (now : Z) (st : TrackerState) :
  Forall confirmedAtCount (localTracks st) ->
  Forall confirmedAtCount
    (localTracks (trackDetections generateID cfg rawDetections now st)).
Proof.
  intros H. unfold trackDetections, pruneTracks, matchFrame. cbn [localTracks].
  apply Forall_forall. intros t I. apply filter_In in I. destruct I as [I _].
  revert t I. apply Forall_forall.
  set (start := {| localTracks := map clearMatched (localTracks st);
                   idsDrawn := idsDrawn st |}).
  assert (S0 : Forall confirmedAtCount (localTracks start)).
  { cbn [start localTracks]. apply Forall_forall. intros t I.
    apply in_map_iff in I. destruct I as (u & <- & I).
    rewrite Forall_forall in H. exact (H u I). }
  clearbody start. revert start S0.
  induction (filter (geometricFilter cfg) rawDetections) as [ | d ds IH ];
    intros start S0; cbn [fold_left]; [ exact S0 | ].
  apply IH. now apply matchDetection_confirmedAtCount.
Qed.

Lemma processFrame_confirmedAtCount (video : Video) (now : Z)
    (m : TrackerModule) :
  Forall confirmedAtCount (localTracks (tracks m)) ->
  Forall confirmedAtCount
    (localTracks (tracks (processFrame generateID cfg video now m))).
Proof.
  intros H. rewrite processFrame_tracks.
  destruct (frameIsProcessed video m); [ | exact H ].
  now apply trackDetections_confirmedAtCount.
Qed.

Lemma runFrames_confirmedAtCount (frames : list (Video * Z))
    (m : TrackerModule) :
  Forall confirmedAtCount (localTracks (tracks m)) ->
  Forall confirmedAtCount
    (localTracks (tracks (runFrames generateID cfg frames m))).
Proof.
  revert m. induction frames as [ | fr frames IH ]; intros m H;
    [ exact H | ].
  cbn [runFrames fold_left]. apply IH.
  now apply processFrame_confirmedAtCount.
Qed.

End Confirmation.

(** *** Identities across frames *)

Section Identities.
Variable generateID : nat -> string.
Variable cfg : TrackerConfig.
Hypothesis generateID_inj :
  forall i j : nat, generateID i = generateID j -> i = j.

(** Identifiers in the live set are pairwise distinct and were all drawn
    from [generateID]. *)
Definition drawn (n : nat) (uid : string) : Prop :=
  exists k, (k < n)%nat /\ uid = generateID k.

Definition wellFormed (st : TrackerState) : Prop :=
  NoDup (map id (localTracks st))
  /\ Forall (fun t => drawn (idsDrawn st) (id t)) (localTracks st).

(** [st'] follows [st]: a track found under the same identifier keeps a
    set confirmation flag, and an identifier already drawn and no longer
    live does not come back. *)
Definition follows (st st' : TrackerState) : Prop :=
  (idsDrawn st <= idsDrawn st')%nat
  /\ forall uid,
       match findTrack uid (localTracks st) with
       | Some t =>
           forall t', findTrack uid (localTracks st') = Some t' ->
                      isConfirmed t = true -> isConfirmed t' = true
       | None =>
           drawn (idsDrawn st) uid ->
           findTrack uid (localTracks st') = None
       end.

Lemma follows_refl (st : TrackerState) : follows st st.
Proof.
  split; [ lia | ]. intros uid.
  destruct (findTrack uid (localTracks st)) eqn:E; [ | auto ].
  intros t' [= <-]. auto.
Qed.

Lemma drawn_mono (n m : nat) (uid : string) :
  (n <= m)%nat -> drawn n uid -> drawn m uid.
Proof. intros L (k & Hk & E). exists k. split; [ lia | exact E ]. Qed.

Lemma follows_trans (st st' st'' : TrackerState) :
  wellFormed st -> follows st st' -> follows st' st'' -> follows st st''.
Proof.
  intros [_ W] [L1 F1] [L2 F2]. split; [ lia | ].
  intros uid. specialize (F1 uid). specialize (F2 uid).
  destruct (findTrack uid (localTracks st)) as [ t | ] eqn:E.
  - intros t'' E'' C.
    destruct (findTrack uid (localTracks st')) as [ t' | ] eqn:E'.
    + apply (F2 t'' E''). now apply (F1 t').
    + rewrite F2 in E''; [ discriminate | ].
      apply findTrack_id in E. destruct E as [<- I].
      rewrite Forall_forall in W. eapply drawn_mono; [ exact L1 | auto ].
  - intros D. rewrite (F1 D) in F2. apply F2.
    eapply drawn_mono; eauto.
Qed.

Lemma clearMatched_step (st : TrackerState) :
  wellFormed st ->
  let st' := {| localTracks := map clearMatched (localTracks st);
                idsDrawn := idsDrawn st |} in
  wellFormed st' /\ follows st st'.
Proof.
  intros [N W]. cbn zeta. split; [ split | split ]; cbn [localTracks idsDrawn].
  - rewrite map_map. exact N.
  - apply Forall_forall. intros t I. apply in_map_iff in I.
    destruct I as (u & <- & I). rewrite Forall_forall in W. exact (W u I).
  - lia.
  - intros uid. rewrite findTrack_clearMatched.
    destruct (findTrack uid (localTracks st)); cbn [option_map]; [ | auto ].
    intros t' [= <-]. auto.
Qed.

Lemma matchDetection_step (now : Z) (st : TrackerState) (det : Detection) :
  wellFormed st ->
  wellFormed (matchDetection generateID cfg now st det)
  /\ follows st (matchDetection generateID cfg now st det).
Proof.
  intros [N W].
  destruct (matchDetection_cases generateID cfg now st det)
    as [[index E] | [E | E]]; rewrite E.
  - split; [ split | split ]; cbn [localTracks idsDrawn].
    + now rewrite map_id_updateAt.
    + apply Forall_updateAt; auto.
    + lia.
    + intros uid.
      pose proof (findTrack_updateAt uid (updateTrack cfg det now) index
                    (localTracks st) (fun t => eq_refl)) as U.
      destruct (findTrack uid (localTracks st)) as [ t | ]; [ | auto ].
      intros t' E' C. destruct U as [U | U]; rewrite U in E';
        injection E' as <-; [ exact C | ].
      now apply isConfirmed_updateTrack.
  - split; [ now split | apply follows_refl ].
  - set (fresh := newTrack (generateID (idsDrawn st)) det now).
    assert (F : ~ In (id fresh) (map id (localTracks st))).
    { intros I. apply in_map_iff in I. destruct I as (u & Eu & I).
      rewrite Forall_forall in W. destruct (W u I) as (k & Hk & Ek).
      cbn [fresh newTrack id] in Eu. rewrite Ek in Eu.
      apply generateID_inj in Eu. lia. }
    split; [ split | split ]; cbn [localTracks idsDrawn].
    + rewrite map_app. apply NoDup_app; [ exact N | | ].
      * cbn [map]. constructor; [ intros [] | constructor ].
      * cbn [map]. intros a Ia [<- | []]. exact (F Ia).
    + apply Forall_app. split.
      * eapply Forall_impl; [ | exact W ]. cbn beta. intros t D.
        eapply drawn_mono; [ | exact D ]. lia.
      * constructor; [ | constructor ].
        exists (idsDrawn st). split; [ lia | reflexivity ].
    + lia.
    + intros uid. rewrite findTrack_snoc.
      destruct (findTrack uid (localTracks st)) as [ t | ].
      * intros t' [= <-]. auto.
      * intros (k & Hk & Ek).
        destruct (String.eqb_spec (id fresh) uid) as [Eq | _];
          [ | reflexivity ].
        cbn [fresh newTrack id] in Eq. rewrite Ek in Eq.
        apply generateID_inj in Eq. lia.
Qed.

Lemma matchAll_step (now : Z) (detections : list Detection)
    (st : TrackerState) :
  wellFormed st ->
  wellFormed (fold_left (matchDetection generateID cfg now) detections st)
  /\ follows st
       (fold_left (matchDetection generateID cfg now) detections st).
Proof.
  revert st. induction detections as [ | d ds IH ]; intros st W;
    cbn [fold_left].
  - split; [ exact W | apply follows_refl ].
  - destruct (matchDetection_step now st d W) as [W1 F1].
    destruct (IH _ W1) as [W2 F2].
    split; [ exact W2 | ]. eapply follows_trans; eauto.
Qed.

Lemma prune_step (now : Z) (st : TrackerState) :
  wellFormed st ->
  let st' := {| localTracks := pruneTracks cfg now (localTracks st);
                idsDrawn := idsDrawn st |} in
  wellFormed st' /\ follows st st'.
Proof.
  intros [N W]. cbn zeta. unfold pruneTracks.
  split; [ split | split ]; cbn [localTracks idsDrawn].
  - now apply NoDup_map_id_filter.
  - apply Forall_forall. intros t I. apply filter_In in I.
    rewrite Forall_forall in W. apply W. tauto.
  - lia.
  - intros uid. rewrite (findTrack_filter _ uid _ N).
    destruct (findTrack uid (localTracks st)) as [ t | ]; [ | auto ].
    destruct (withinGrace cfg now t); [ | discriminate ].
    intros t' [= <-]. auto.
Qed.

Lemma trackDetections_step (rawDetections : list Detection) (now : Z)
    (st : TrackerState) :
  wellFormed st ->
  wellFormed (trackDetections generateID cfg rawDetections now st)
  /\ follows st (trackDetections generateID cfg rawDetections now st).
Proof.
  intros W. unfold trackDetections, matchFrame.
  destruct (clearMatched_step st W) as [W1 F1].
  destruct (matchAll_step now (filter (geometricFilter cfg) rawDetections)
              _ W1) as [W2 F2].
  destruct (prune_step now _ W2) as [W3 F3].
  split; [ exact W3 | ].
  eapply follows_trans; [ exact W | exact F1 | ].
  eapply follows_trans; [ exact W1 | exact F2 | exact F3 ].
Qed.

Lemma processFrame_step (video : Video) (now : Z) (m : TrackerModule) :
  wellFormed (tracks m) ->
  wellFormed (tracks (processFrame generateID cfg video now m))
  /\ follows (tracks m) (tracks (processFrame generateID cfg video now m)).
Proof.
  intros W. rewrite processFrame_tracks.
  destruct (frameIsProcessed video m).
  - now apply trackDetections_step.
  - split; [ exact W | apply follows_refl ].
Qed.

Lemma runFrames_step (frames : list (Video * Z)) (m : TrackerModule) :
  wellFormed (tracks m) ->
  wellFormed (tracks (runFrames generateID cfg frames m))
  /\ follows (tracks m) (tracks (runFrames generateID cfg frames m)).
Proof.
  revert m. induction frames as [ | fr frames IH ]; intros m W.
  - split; [ exact W | apply follows_refl ].
  - cbn [runFrames fold_left].
    destruct (processFrame_step (fst fr) (snd fr) m W) as [W1 F1].
    destruct (IH _ W1) as [W2 F2].
    split; [ exact W2 | ]. eapply follows_trans; eauto.
Qed.

Lemma wellFormed_initial : wellFormed initialTracker.
Proof. split; constructor. Qed.

(** Every published track carries an identifier drawn from [generateID]. *)
Lemma publishedTracks_drawn (frames : list (Video * Z)) :
  Forall (fun t => exists k, id t = generateID k)
    (publishedTracks (tracks (runFrames generateID cfg frames
                                initializedTracker))).
Proof.
  destruct (runFrames_step frames initializedTracker wellFormed_initial)
    as [[_ W] _].
  apply Forall_forall. intros t I. unfold publishedTracks in I.
  apply filter_In in I. destruct I as [I _].
  rewrite Forall_forall in W. destruct (W t I) as (k & _ & E). eauto.
Qed.

End Identities.

(** A track that appears under a new identifier while one detection is
    handled is the freshly created one. *)
Lemma matchDetection_new_identity (generateID : nat -> string)
    (cfg : TrackerConfig) (now : Z) (st : TrackerState) (det : Detection)
    (uid : string) (t : LocalTrack) :
  findTrack uid (localTracks st) = None ->
  findTrack uid (localTracks (matchDetection generateID cfg now st det))
  = Some t ->
  consecutiveFrames t = 1 /\ isConfirmed t = false /\ matched t = true.
Proof.
  intros E0 E1.
  destruct (matchDetection_cases generateID cfg now st det)
    as [[index E] | [E | E]]; rewrite E in E1; cbn [localTracks] in E1.
  - pose proof (findTrack_updateAt uid (updateTrack cfg det now) index
                  (localTracks st) (fun t => eq_refl)) as U.
    rewrite E0 in U. congruence.
  - congruence.
  - rewrite findTrack_snoc, E0 in E1.
    destruct (String.eqb _ uid); [ | discriminate ].
    injection E1 as <-. repeat split.
Qed.

(** C5.  Provided [generateID] never repeats an identifier, in every state
    [s1] reached from the initialised tracker by any calls of
    [processFrame]: a confirmed track has at least [confirmationFrames]
    consecutive frames; a track created by the next detection starts with
    [consecutiveFrames = 1] and [isConfirmed = false]; and a track
    confirmed in [s1] that is still live after any further calls
    [frames2] is still confirmed. *)
Theorem isConfirmed_latches (generateID : nat -> string)
    (cfg : TrackerConfig)
    (generateID_inj : forall i j : nat, generateID i = generateID j -> i = j)
    (frames1 frames2 : list (Video * Z)) :
  let s1 := runFrames generateID cfg frames1 initializedTracker in
  let s2 := runFrames generateID cfg frames2 s1 in
  Forall (fun t => isConfirmed t = true ->
                   confirmationFrames cfg <= consecutiveFrames t)
    (localTracks (tracks s1))
  /\ (forall now det uid t,
        findTrack uid (localTracks (tracks s1)) = None ->
        findTrack uid
          (localTracks (matchDetection generateID cfg now (tracks s1) det))
        = Some t ->
        consecutiveFrames t = 1 /\ isConfirmed t = false)
  /\ (forall uid t t',
        findTrack uid (localTracks (tracks s1)) = Some t ->
        isConfirmed t = true ->
        findTrack uid (localTracks (tracks s2)) = Some t' ->
        isConfirmed t' = true).
Proof.
  cbn zeta. split; [ | split ].
  - apply (runFrames_confirmedAtCount generateID cfg frames1
             initializedTracker).
    constructor.
  - intros now det uid t E0 E1.
    destruct (matchDetection_new_identity _ _ _ _ _ _ _ E0 E1) as (? & ? & _).
    auto.
  - intros uid t t' E C E'.
    destruct (runFrames_step generateID cfg generateID_inj frames1
                initializedTracker (wellFormed_initial generateID))
      as [W1 _].
    destruct (runFrames_step generateID cfg generateID_inj frames2 _ W1)
      as [_ [_ F]].
    specialize (F uid). rewrite E in F. exact (F t' E' C).
Qed.

(** An identifier source for the examples: ["T"], ["T1"], ["T11"], ... *)
Fixpoint tally (n : nat) : string :=
  match n with
  | O => EmptyString
  | S m => String "1" (tally m)
  end.

Definition tallyID (n : nat) : string := String "T" (tally n).

Lemma tallyID_inj (i j : nat) : tallyID i = tallyID j -> i = j.
Proof.
  unfold tallyID. intros [= E]. revert j E.
  induction i as [ | i IH ]; intros [ | j ]; cbn [tally]; intros E;
    try discriminate; [ reflexivity | ].
  injection E as E. f_equal. now apply IH.
Qed.

(** One person standing still in a 1280 x 720 video, and the same person
    seen by a second, slightly shifted detection of lower score. *)
Definition personPx : RawDetection := mkRaw 320 180 320 360 0.9.
Definition shiftedPx : RawDetection := mkRaw 384 180 320 360 0.4.
Definition person : Detection := normalise 1280 720 personPx.
Definition shifted : Detection := normalise 1280 720 shiftedPx.
Definition personBox : Box := det_bbox person.
Definition shiftedBox : Box := det_bbox shifted.

(** The frame shown at video time [time] (in seconds). *)
Definition frameWith (time : float) (found : list RawDetection) : Video :=
  {| currentTime := time; videoWidth := 1280; videoHeight := 720;
     detected := found |}.

(** Four frames, 125 ms apart, with the person in each: confirmed at the
    third frame, still confirmed at the fourth. *)
Lemma isConfirmed_latches_witness :
  let s1 := runFrames tallyID TRACKER_CONFIG
              [(frameWith 0 [personPx], 0);
               (frameWith 0.125 [personPx], 125);
               (frameWith 0.25 [personPx], 250)]
              initializedTracker in
  let s2 := runFrames tallyID TRACKER_CONFIG
              [(frameWith 0.375 [personPx], 375)] s1 in
  exists t t',
    findTrack "T" (localTracks (tracks s1)) = Some t
    /\ isConfirmed t = true
    /\ findTrack "T" (localTracks (tracks s2)) = Some t'
    /\ isConfirmed t' = true.
Proof.
  cbn zeta. eexists. eexists.
  split; [ vm_compute; reflexivity | ].
  split; [ reflexivity | ].
  split; [ vm_compute; reflexivity | ].
  destruct (isConfirmed_latches tallyID TRACKER_CONFIG tallyID_inj
              [(frameWith 0 [personPx], 0);
               (frameWith 0.125 [personPx], 125);
               (frameWith 0.25 [personPx], 250)]
              [(frameWith 0.375 [personPx], 375)]) as (_ & _ & L).
  eapply (L "T").
  - vm_compute. reflexivity.
  - reflexivity.
  - vm_compute. reflexivity.
Defined.

(** *** What the matching step leaves of a track *)

(** [c] is [t] after some detections of a call at time [now] have been
    handled: untouched, or matched with [lastSeen = now]. *)
Definition stepped (now : Z) (t c : LocalTrack) : Prop :=
  firstSeen c = firstSeen t
  /\ ((matched c = matched t /\ lastSeen c = lastSeen t)
      \/ (matched c = true /\ lastSeen c = now)).

Lemma stepped_refl (now : Z) (t : LocalTrack) : stepped now t t.
Proof. split; [ reflexivity | left; split; reflexivity ]. Qed.

Lemma stepped_trans (now : Z) (a b c : LocalTrack) :
  stepped now a b -> stepped now b c -> stepped now a c.
Proof.
  intros [F1 S1] [F2 S2]. split; [ congruence | ].
  destruct S2 as [[M2 L2] | S2]; [ | now right ].
  destruct S1 as [[M1 L1] | [M1 L1]]; [ left | right ]; split; congruence.
Qed.

Lemma matchDetection_stepped (generateID : nat -> string)
    (cfg : TrackerConfig) (now : Z) (st : TrackerState) (det : Detection)
    (uid : string) (t : LocalTrack) :
  findTrack uid (localTracks st) = Some t ->
  exists c,
    findTrack uid (localTracks (matchDetection generateID cfg now st det))
    = Some c
    /\ stepped now t c.
Proof.
  intros E.
  destruct (matchDetection_cases generateID cfg now st det)
    as [[index C] | [C | C]]; rewrite C; cbn [localTracks].
  - pose proof (findTrack_updateAt uid (updateTrack cfg det now) index
                  (localTracks st) (fun t => eq_refl)) as U.
    rewrite E in U. destruct U as [U | U]; rewrite U.
    + exists t. split; [ reflexivity | apply stepped_refl ].
    + exists (updateTrack cfg det now t). split; [ reflexivity | ].
      split; [ reflexivity | right; split; reflexivity ].
  - exists t. split; [ exact E | apply stepped_refl ].
  - rewrite findTrack_snoc, E. exists t.
    split; [ reflexivity | apply stepped_refl ].
Qed.

Lemma matchAll_stepped (generateID : nat -> string) (cfg : TrackerConfig)
    (now : Z) (detections : list Detection) (uid : string) :
  forall (st : TrackerState) (t : LocalTrack),
    findTrack uid (localTracks st) = Some t ->
    exists c,
      findTrack uid
        (localTracks
           (fold_left (matchDetection generateID cfg now) detections st))
      = Some c
      /\ stepped now t c.
Proof.
  induction detections as [ | d ds IH ]; intros st t E; cbn [fold_left].
  - exists t. split; [ exact E | apply stepped_refl ].
  - destruct (matchDetection_stepped generateID cfg now st d uid t E)
      as (c1 & E1 & S1).
    destruct (IH _ c1 E1) as (c & Ec & Sc).
    exists c. split; [ exact Ec | ]. eapply stepped_trans; eauto.
Qed.

(** Every track that is tracked when the call begins is examined by the
    prune step of the call, under its identifier: with its [lastSeen] as
    it was when no detection of the call was matched to it, with
    [lastSeen = now] when one was. *)
Lemma candidates_stepped (generateID : nat -> string) (cfg : TrackerConfig)
    (video : Video) (now : Z) (m : TrackerModule) (uid : string)
    (t : LocalTrack) :
  findTrack uid (localTracks (tracks m)) = Some t ->
  exists c,
    findTrack uid (candidates generateID cfg video now m) = Some c
    /\ ((matched c = false /\ lastSeen c = lastSeen t)
        \/ (matched c = true /\ lastSeen c = now)).
Proof.
  intros E. unfold candidates, matchFrame.
  destruct (matchAll_stepped generateID cfg now
              (filter (geometricFilter cfg)
                 (map (normalise (videoWidth video) (videoHeight video))
                    (detected video)))
              uid
              {| localTracks := map clearMatched (localTracks (tracks m));
                 idsDrawn := idsDrawn (tracks m) |}
              (clearMatched t)) as (c & Ec & _ & S).
  - cbn [localTracks]. now rewrite findTrack_clearMatched, E.
  - exists c. split; [ exact Ec | exact S ].
Qed.

Lemma candidates_wellFormed (generateID : nat -> string)
    (cfg : TrackerConfig)
    (generateID_inj : forall i j : nat, generateID i = generateID j -> i = j)
    (video : Video) (now : Z) (m : TrackerModule) :
  wellFormed generateID (tracks m) ->
  NoDup (map id (candidates generateID cfg video now m)).
Proof.
  intros W. unfold candidates, matchFrame.
  destruct (clearMatched_step generateID (tracks m) W) as [W1 _].
  destruct (matchAll_step generateID cfg generateID_inj now
              (filter (geometricFilter cfg)
                 (map (normalise (videoWidth video) (videoHeight video))
                    (detected video))) _ W1) as [[N _] _].
  exact N.
Qed.

(** C4 (as amended).  Provided [generateID] never repeats an identifier,
    take any state reached from the initialised tracker and a call of
    [processFrame] at time [now] that gets past its guards.  Every
    identity tracked before the call is examined by the prune step, with
    [lastSeen = now] if a detection of this call was matched to it and
    with its earlier [lastSeen] otherwise; an examined identity is in the
    live set after the call exactly when [now - lastSeen] is below the
    grace period, whatever its confirmation flag; every track left
    satisfies the bound.  Hence no identity still within the grace period
    is removed, and one at or beyond it is removed unless this call
    matched it again.  A call that stops at a guard leaves the live set
    as it was. *)
Theorem processFrame_live_iff_within_grace
    (generateID : nat -> string) (cfg : TrackerConfig)
    (generateID_inj : forall i j : nat, generateID i = generateID j -> i = j)
    (frames : list (Video * Z)) (video : Video) (now : Z) :
  let m := runFrames generateID cfg frames initializedTracker in
  let live := localTracks (tracks (processFrame generateID cfg video now m)) in
  let examined := candidates generateID cfg video now m in
  (frameIsProcessed video m = true ->
   (forall uid t,
      findTrack uid (localTracks (tracks m)) = Some t ->
      exists c,
        findTrack uid examined = Some c
        /\ ((matched c = false /\ lastSeen c = lastSeen t)
            \/ (matched c = true /\ lastSeen c = now)))
   /\ (forall uid c,
         findTrack uid examined = Some c ->
         (now - lastSeen c < gracePeriodMs cfg ->
          findTrack uid live = Some c)
         /\ (gracePeriodMs cfg <= now - lastSeen c ->
             findTrack uid live = None))
   /\ (forall uid c,
         findTrack uid live = Some c ->
         findTrack uid examined = Some c
         /\ now - lastSeen c < gracePeriodMs cfg)
   /\ Forall (fun t => now - lastSeen t < gracePeriodMs cfg) live
   /\ (forall uid t,
         findTrack uid (localTracks (tracks m)) = Some t ->
         0 < gracePeriodMs cfg ->
         now - lastSeen t < gracePeriodMs cfg ->
         exists c, findTrack uid live = Some c)
   /\ (forall uid t,
         findTrack uid (localTracks (tracks m)) = Some t ->
         gracePeriodMs cfg <= now - lastSeen t ->
         findTrack uid live = None
         \/ exists c,
              findTrack uid live = Some c
              /\ matched c = true /\ lastSeen c = now))
  /\ (frameIsProcessed video m = false -> live = localTracks (tracks m)).
Proof.
  cbn zeta. set (m := runFrames generateID cfg frames initializedTracker).
  assert (W : wellFormed generateID (tracks m)).
  { apply (runFrames_step generateID cfg generateID_inj frames
             initializedTracker (wellFormed_initial generateID)). }
  pose proof (candidates_wellFormed generateID cfg generateID_inj video now m W)
    as N.
  rewrite processFrame_tracks. split; intros P; rewrite P; [ | reflexivity ].
  assert (Live : localTracks
                   (trackDetections generateID cfg
                      (map (normalise (videoWidth video) (videoHeight video))
                         (detected video)) now (tracks m))
                 = pruneTracks cfg now (candidates generateID cfg video now m))
    by reflexivity.
  rewrite Live. clear Live.
  set (examined := candidates generateID cfg video now m) in *.
  assert (Kept : forall uid c,
             findTrack uid examined = Some c ->
             findTrack uid (pruneTracks cfg now examined)
             = if now - lastSeen c <? gracePeriodMs cfg then Some c else None).
  { intros uid c E. unfold pruneTracks.
    now rewrite (findTrack_filter _ uid _ N), E. }
  assert (Examined : forall uid t,
             findTrack uid (localTracks (tracks m)) = Some t ->
             exists c,
               findTrack uid examined = Some c
               /\ ((matched c = false /\ lastSeen c = lastSeen t)
                   \/ (matched c = true /\ lastSeen c = now)))
    by (intros uid t E; now apply candidates_stepped).
  split; [ exact Examined | ].
  split; [ | split; [ | split; [ | split ] ] ].
  - intros uid c E. rewrite (Kept uid c E).
    destruct (Z.ltb_spec (now - lastSeen c) (gracePeriodMs cfg));
      split; intros; auto; lia.
  - intros uid c E. unfold pruneTracks in E.
    rewrite (findTrack_filter _ uid _ N) in E.
    destruct (findTrack uid examined) as [ c' | ]; [ | discriminate ].
    unfold withinGrace in E.
    destruct (Z.ltb_spec (now - lastSeen c') (gracePeriodMs cfg));
      [ | discriminate ].
    injection E as <-. auto.
  - apply Forall_forall. intros t I. now apply pruneTracks_In in I.
  - intros uid t E G Near.
    destruct (Examined uid t E) as (c & Ec & S).
    exists c. rewrite (Kept uid c Ec).
    destruct (Z.ltb_spec (now - lastSeen c) (gracePeriodMs cfg));
      [ reflexivity | ].
    destruct S as [[_ L] | [_ L]]; rewrite L in *; lia.
  - intros uid t E Far.
    destruct (Examined uid t E) as (c & Ec & S).
    rewrite (Kept uid c Ec).
    destruct (Z.ltb_spec (now - lastSeen c) (gracePeriodMs cfg));
      [ | now left ].
    destruct S as [[_ L] | [M L]]; [ rewrite L in *; lia | ].
    right. exists c. auto.
Qed.

(** A second person, to the right of the first. *)
Definition otherPx : RawDetection := mkRaw 800 180 320 360 0.8.

(** Two persons are tracked from a frame at time 0, as ["T"] and
    ["T1"].  The call at time 2500 detects the first only: ["T"], last
    seen 2500 ms before the call, is matched and stays, with
    [lastSeen = 2500]; ["T1"] is not matched and is removed.  Had the
    call come at time 1999, ["T1"] would have stayed. *)
Lemma processFrame_live_iff_within_grace_witness :
  let m := runFrames tallyID TRACKER_CONFIG
             [(frameWith 0 [personPx; otherPx], 0)] initializedTracker in
  let late := processFrame tallyID TRACKER_CONFIG
                (frameWith 0.125 [personPx]) 2500 m in
  let early := processFrame tallyID TRACKER_CONFIG
                 (frameWith 0.125 [personPx]) 1999 m in
  findTrack "T" (localTracks (tracks late))
  = Some (mkTrack "T" personBox 0.9 0 2500 true 2 false)
  /\ findTrack "T1" (localTracks (tracks late)) = None
  /\ exists c, findTrack "T1" (localTracks (tracks early)) = Some c.
Proof.
  cbn zeta.
  destruct (processFrame_live_iff_within_grace tallyID TRACKER_CONFIG
              tallyID_inj [(frameWith 0 [personPx; otherPx], 0)]
              (frameWith 0.125 [personPx]) 2500) as (Late & _).
  destruct (Late eq_refl) as (_ & Kept & _).
  destruct (processFrame_live_iff_within_grace tallyID TRACKER_CONFIG
              tallyID_inj [(frameWith 0 [personPx; otherPx], 0)]
              (frameWith 0.125 [personPx]) 1999) as (Early & _).
  destruct (Early eq_refl) as (_ & _ & _ & _ & Near & _).
  split; [ | split ].
  - apply (Kept "T" (mkTrack "T" personBox 0.9 0 2500 true 2 false));
      reflexivity.
  - apply (Kept "T1"
             (mkTrack "T1" (det_bbox (normalise 1280 720 otherPx)) 0.8 0 0
                false 1 false)); [ reflexivity | ].
    cbn. discriminate.
  - apply (Near "T1"
             (mkTrack "T1" (det_bbox (normalise 1280 720 otherPx)) 0.8 0 0
                true 1 false)); reflexivity.
Defined.

(** C4, the claim as stated fails.  The person is tracked from a frame
    at time 0.  The video then stalls: the call at time 5000 finds the
    video time unchanged and returns at the guard.  The track, last seen
    5000 ms ago with a grace period of 2000 ms, is still in the live
    set. *)
Lemma stalled_video_keeps_stale_track :
  let m1 := processFrame tallyID TRACKER_CONFIG (frameWith 1 [personPx]) 0
              initializedTracker in
  let m2 := processFrame tallyID TRACKER_CONFIG (frameWith 1 []) 5000 m1 in
  exists t,
    In t (localTracks (tracks m2))
    /\ lastSeen t = 0
    /\ ~ (5000 - lastSeen t < gracePeriodMs TRACKER_CONFIG).
Proof.
  cbn zeta. eexists. split; [ left; reflexivity | ].
  split; [ reflexivity | ]. vm_compute. discriminate.
Qed.

(** C9.  Association is not one-to-one.  The person is tracked from a
    first frame; in the second frame two detections overlap that one
    track.  Both pass the geometric filter and both are matched to it:
    its [consecutiveFrames] goes from 1 to 3 within the one call, its
    box and score are those of the later detection, no second track is
    created, and the track is confirmed after two frames. *)
Theorem processFrame_double_match (generateID : nat -> string) :
  let s1 := processFrame generateID TRACKER_CONFIG
              (frameWith 0 [personPx]) 0 initializedTracker in
  let s2 := processFrame generateID TRACKER_CONFIG
              (frameWith 0.125 [personPx; shiftedPx]) 125 s1 in
  let cleared := {| localTracks := map clearMatched (localTracks (tracks s1));
                    idsDrawn := idsDrawn (tracks s1) |} in
  filter (geometricFilter TRACKER_CONFIG) [person; shifted]
  = [person; shifted]
  /\ localTracks (tracks s1)
     = [mkTrack (generateID 0%nat) personBox 0.9 0 0 true 1 false]
  /\ findBest (localTracks cleared) person
     = (calculateIoU personBox personBox, Some 0%nat)
  /\ findBest
       (localTracks
          (matchDetection generateID TRACKER_CONFIG 125 cleared person))
       shifted
     = (calculateIoU personBox shiftedBox, Some 0%nat)
  /\ localTracks (tracks s2)
     = [mkTrack (generateID 0%nat) shiftedBox 0.4 0 125 true 3 true].
Proof.
  cbn zeta. repeat split.
Qed.

(** The choice of the best track does not look at the [matched] flag. *)
Lemma findBest_ignores_matched (tracks : list LocalTrack) (det : Detection) :
  findBest (map clearMatched tracks) det = findBest tracks det.
Proof.
  unfold findBest. generalize 0%nat, 0%float, (@None nat).
  induction tracks as [ | t tracks IH ]; intros index best m;
    [ reflexivity | ].
  cbn [map findBestFrom clearMatched bbox].
  destruct (best <? calculateIoU (bbox t) (det_bbox det))%float; apply IH.
Qed.

End TrackerFacts.

Module AggregatorFacts.
Import Db Aggregator.

(** *** The pure helpers at the values of the unit tests *)

Example computeMode_empty : computeMode [] = "unknown".
Proof. reflexivity. Qed.

Example computeMode_most_frequent :
  computeMode ["30s"; "20s"; "30s"; "40s"; "30s"] = "30s".
Proof. reflexivity. Qed.

Example computeMode_tie_first_seen :
  computeMode ["male"; "female"; "male"; "female"] = "male".
Proof. reflexivity. Qed.

Example buildFashionFrequencyMap_terms :
  buildFashionFrequencyMap ["casual jacket"; "casual glasses"; "Formal,suit"]
  = [("casual", 2); ("jacket", 1); ("glasses", 1); ("formal", 1);
     ("suit", 1)].
Proof. reflexivity. Qed.

(** *** Hour floors *)

Lemma HOUR_MS_pos : 0 < HOUR_MS.
Proof. reflexivity. Qed.


Lemma getHourFloor_aligned (rt : Runtime) (t : Z) :
  (getHourFloor rt t + timezoneOffsetMs rt) mod HOUR_MS = 0.
Proof.
  unfold getHourFloor.
  set (l := t + timezoneOffsetMs rt).
  replace (l - l mod HOUR_MS - timezoneOffsetMs rt + timezoneOffsetMs rt)
    with (l - l mod HOUR_MS) by lia.
  rewrite Zminus_mod, Z.mod_mod by discriminate.
  rewrite Z.sub_diag. reflexivity.
Qed.

(** Two hour floors of the same runtime are a whole number of hours
    apart. *)
Lemma getHourFloor_whole_hours (rt : Runtime) (t1 t2 : Z) :
  getHourFloor rt t1 <= getHourFloor rt t2 ->
  exists n : nat,
    getHourFloor rt t2 = getHourFloor rt t1 + Z.of_nat n * HOUR_MS.
Proof.
  intros L.
  pose proof (getHourFloor_aligned rt t1) as A1.
  pose proof (getHourFloor_aligned rt t2) as A2.
  set (f1 := getHourFloor rt t1) in *. set (f2 := getHourFloor rt t2) in *.
  set (o := timezoneOffsetMs rt) in *.
  exists (Z.to_nat ((f2 - f1) / HOUR_MS)).
  assert (M : (f2 - f1) mod HOUR_MS = 0).
  { replace (f2 - f1) with ((f2 + o) - (f1 + o)) by lia.
    rewrite Zminus_mod, A1, A2. reflexivity. }
  pose proof (Z.div_mod (f2 - f1) HOUR_MS ltac:(discriminate)) as D.
  rewrite M in D.
  assert (0 <= (f2 - f1) / HOUR_MS)
    by (apply Z.div_pos; [ lia | reflexivity ]).
  rewrite Z2Nat.id by assumption. lia.
Qed.

(** *** The catch-up loop *)

(** The database after [aggregateHourlyData] has run for each of [hours]
    in turn. *)
Definition aggregatedOver (rt : Runtime) (hours : list Z) (db : Database)
    : Database :=
  fold_left (fun d h => snd (aggregateHourlyData rt h d)) hours db.

(** The hours [start], [start + 1h], ..., [n] of them. *)
Definition hoursFrom (start : Z) (n : nat) : list Z :=
  map (fun k => start + Z.of_nat k * HOUR_MS) (seq 0 n).

Lemma hoursFrom_succ (start : Z) (n : nat) :
  hoursFrom start (S n) = start :: hoursFrom (start + HOUR_MS) n.
Proof.
  unfold hoursFrom. cbn [seq map]. f_equal; [ lia | ].
  rewrite <- seq_shift, map_map. apply map_ext. intros k. lia.
Qed.

(** With enough fuel the loop ends, having aggregated consecutive hours
    from [hour] on, all of them before [currentHour], up to the first one
    that is not. *)
Lemma aggregateMissedHours_spec (rt : Runtime) (currentHour : Z)
    (fuel : nat) :
  forall (hour : Z) (db : Database),
    currentHour - hour <= Z.of_nat fuel * HOUR_MS ->
    exists n : nat,
      aggregateMissedHours fuel rt hour currentHour db
      = Some (hoursFrom hour n, aggregatedOver rt (hoursFrom hour n) db)
      /\ Forall (fun h => hour <= h < currentHour) (hoursFrom hour n)
      /\ currentHour <= Z.max hour (hour + Z.of_nat n * HOUR_MS)
      /\ (hour < currentHour -> (0 < n)%nat).
Proof.
  pose proof HOUR_MS_pos as HP.
  induction fuel as [ | fuel IH ]; intros hour db Hfuel.
  - exists 0%nat. cbn [aggregateMissedHours].
    destruct (Z.ltb_spec hour currentHour) as [L | G]; [ lia | ].
    repeat split; [ constructor | lia | lia ].
  - cbn [aggregateMissedHours].
    destruct (Z.ltb_spec hour currentHour) as [L | G].
    + destruct (IH (hour + HOUR_MS) (snd (aggregateHourlyData rt hour db)))
        as (n & E & F & B & _); [ lia | ].
      exists (S n). rewrite E, hoursFrom_succ. repeat split.
      * constructor; [ lia | ].
        eapply Forall_impl; [ | exact F ]. cbn beta. lia.
      * lia.
      * lia.
    + exists 0%nat. repeat split; [ constructor | lia | lia ].
Qed.

Lemma hoursFrom_In (start : Z) (n k : nat) :
  (k < n)%nat -> In (start + Z.of_nat k * HOUR_MS) (hoursFrom start n).
Proof.
  intros L. unfold hoursFrom. apply in_map_iff. exists k.
  split; [ reflexivity | ]. apply in_seq. lia.
Qed.

(** When the two marks are a whole number of hours apart, that number is
    the number of hours the loop aggregates. *)
Lemma hoursFrom_count (start currentHour : Z) (m n : nat) :
  currentHour = start + Z.of_nat n * HOUR_MS ->
  (0 < n)%nat ->
  Forall (fun h => start <= h < currentHour) (hoursFrom start m) ->
  currentHour <= Z.max start (start + Z.of_nat m * HOUR_MS) ->
  m = n.
Proof.
  pose proof HOUR_MS_pos as HP. intros E Pn F B.
  assert (Lm : (m <= n)%nat).
  { destruct m as [ | m ]; [ lia | ].
    rewrite Forall_forall in F.
    specialize (F _ (hoursFrom_In start (S m) m ltac:(lia))). nia. }
  assert (Ln : (n <= m)%nat) by nia.
  lia.
Qed.

Lemma catch_up_fuel (lastProcessed currentHour : Z) :
  lastProcessed < currentHour ->
  currentHour - lastProcessed
  <= Z.of_nat (Z.to_nat ((currentHour - lastProcessed) / HOUR_MS + 1))
     * HOUR_MS.
Proof.
  intros L. pose proof HOUR_MS_pos as HP.
  assert (0 <= (currentHour - lastProcessed) / HOUR_MS)
    by (apply Z.div_pos; lia).
  rewrite Z2Nat.id by lia.
  pose proof (Z.div_mod (currentHour - lastProcessed) HOUR_MS
                ltac:(discriminate)).
  pose proof (Z.mod_pos_bound (currentHour - lastProcessed) HOUR_MS HP).
  lia.
Qed.

(** C7.  [checkAndTriggerAggregation] with no stored mark stores the
    current hour floor and aggregates nothing.  With a stored mark below
    the current hour floor it aggregates the hours [mark], [mark + 1h],
    ... one after the other, each of them below the current hour floor,
    stopping at the first that is not, and then stores the current hour
    floor; when the two marks are [n] whole hours apart these are exactly
    the [n] hours from the old mark on, and at two hours apart they are
    the hours [N] and [N + 1h]. *)
Theorem checkAndTriggerAggregation_catches_up (rt : Runtime) (now : Z)
    (st : Storage) :
  let currentHour := getHourFloor rt now in
  let stored hours :=
    {| database := aggregatedOver rt hours (database st);
       lastProcessedHour := Some currentHour |} in
  (lastProcessedHour st = None ->
   checkAndTriggerAggregation rt now st = Some ([], stored []))
  /\ (forall lastProcessed,
        lastProcessedHour st = Some lastProcessed ->
        lastProcessed < currentHour ->
        exists n : nat,
          (0 < n)%nat
          /\ checkAndTriggerAggregation rt now st
             = Some (hoursFrom lastProcessed n,
                     stored (hoursFrom lastProcessed n))
          /\ Forall (fun h => lastProcessed <= h < currentHour)
               (hoursFrom lastProcessed n)
          /\ currentHour <= lastProcessed + Z.of_nat n * HOUR_MS)
  /\ (forall lastProcessed (n : nat),
        lastProcessedHour st = Some lastProcessed ->
        (0 < n)%nat ->
        currentHour = lastProcessed + Z.of_nat n * HOUR_MS ->
        checkAndTriggerAggregation rt now st
        = Some (hoursFrom lastProcessed n,
                stored (hoursFrom lastProcessed n)))
  /\ (forall N,
        lastProcessedHour st = Some N ->
        currentHour = N + 2 * HOUR_MS ->
        checkAndTriggerAggregation rt now st
        = Some ([N; N + HOUR_MS], stored [N; N + HOUR_MS])).
Proof.
  cbn zeta. pose proof HOUR_MS_pos as HP.
  assert (General : forall lastProcessed,
             lastProcessedHour st = Some lastProcessed ->
             lastProcessed < getHourFloor rt now ->
             exists n : nat,
               (0 < n)%nat
               /\ checkAndTriggerAggregation rt now st
                  = Some (hoursFrom lastProcessed n,
                          {| database :=
                               aggregatedOver rt (hoursFrom lastProcessed n)
                                 (database st);
                             lastProcessedHour :=
                               Some (getHourFloor rt now) |})
               /\ Forall (fun h => lastProcessed <= h < getHourFloor rt now)
                    (hoursFrom lastProcessed n)
               /\ getHourFloor rt now
                  <= Z.max lastProcessed
                       (lastProcessed + Z.of_nat n * HOUR_MS)).
  { intros lastProcessed E L.
    destruct (aggregateMissedHours_spec rt (getHourFloor rt now) _
                lastProcessed (database st)
                (catch_up_fuel lastProcessed _ L)) as (n & R & F & B & P).
    exists n. unfold checkAndTriggerAggregation. rewrite E.
    destruct (Z.ltb_spec lastProcessed (getHourFloor rt now)); [ | lia ].
    rewrite R. auto. }
  assert (Whole : forall lastProcessed (n : nat),
             lastProcessedHour st = Some lastProcessed ->
             (0 < n)%nat ->
             getHourFloor rt now = lastProcessed + Z.of_nat n * HOUR_MS ->
             checkAndTriggerAggregation rt now st
             = Some (hoursFrom lastProcessed n,
                     {| database :=
                          aggregatedOver rt (hoursFrom lastProcessed n)
                            (database st);
                        lastProcessedHour := Some (getHourFloor rt now) |})).
  { intros lastProcessed n E Pn C.
    destruct (General lastProcessed E ltac:(nia)) as (m & _ & R & F & B).
    now rewrite (hoursFrom_count lastProcessed _ m n C Pn F B) in R. }
  split; [ | split; [ | split ] ].
  - intros E. unfold checkAndTriggerAggregation. now rewrite E.
  - intros lastProcessed E L.
    destruct (General lastProcessed E L) as (n & P & R & F & B).
    exists n. repeat split; auto. lia.
  - exact Whole.
  - intros N E C. rewrite (Whole N 2%nat E ltac:(lia) C).
    replace (hoursFrom N 2) with [N; N + HOUR_MS]; [ reflexivity | ].
    unfold hoursFrom. cbn [seq map]. repeat f_equal; lia.
Qed.

(** A runtime for the examples: UTC, payloads of the form [age|sex|...]
    left unparsed. *)
Definition utcRuntime : Runtime :=
  {| JSON_parse := fun _ => None;
     JSON_stringify := fun _ => "{}";
     timezoneOffsetMs := 0 |}.

(** The mark is at hour 0 and the check runs at 02:05: hours 0 and 1 are
    aggregated and the mark moves to hour 2. *)
Lemma checkAndTriggerAggregation_catches_up_witness :
  checkAndTriggerAggregation utcRuntime (2 * HOUR_MS + 300000)
    {| database := emptyDatabase; lastProcessedHour := Some 0 |}
  = Some ([0; HOUR_MS],
          {| database := emptyDatabase;
             lastProcessedHour := Some (2 * HOUR_MS) |}).
Proof.
  destruct (checkAndTriggerAggregation_catches_up utcRuntime
              (2 * HOUR_MS + 300000)
              {| database := emptyDatabase; lastProcessedHour := Some 0 |})
    as (_ & _ & _ & Two).
  exact (Two 0 eq_refl eq_refl).
Defined.

(** *** What the two entry points write *)

Lemma bulkSave_app (l1 l2 : list SummarizedSession) (db : Database) :
  bulkSaveSummarizedSessions (l1 ++ l2) db
  = bulkSaveSummarizedSessions l2 (bulkSaveSummarizedSessions l1 db).
Proof.
  unfold bulkSaveSummarizedSessions. cbn [sessions summarized_sessions].
  now rewrite fold_left_app.
Qed.

Lemma bulkSave_nil (db : Database) : bulkSaveSummarizedSessions [] db = db.
Proof. now destruct db. Qed.

Lemma putSummary_In (row x : SummarizedSession)
    (tbl : list SummarizedSession) :
  In x (putSummary row tbl) -> x = row \/ In x tbl.
Proof.
  induction tbl as [ | s tbl IH ]; cbn [putSummary].
  - intros [<- | []]. now left.
  - destruct (String.eqb (ss_sessionId s) (ss_sessionId row)).
    + intros [<- | I]; [ now left | right; now right ].
    + intros [<- | I]; [ right; now left | ].
      destruct (IH I); [ now left | right; now right ].
Qed.

Lemma bulkSave_In (written : list SummarizedSession) (db : Database)
    (x : SummarizedSession) :
  In x (summarized_sessions (bulkSaveSummarizedSessions written db)) ->
  In x (summarized_sessions db) \/ In x written.
Proof.
  unfold bulkSaveSummarizedSessions. cbn [summarized_sessions].
  generalize (summarized_sessions db) as tbl.
  induction written as [ | w written IH ]; intros tbl; cbn [fold_left].
  - now left.
  - intros I. destruct (IH _ I) as [I' | I']; [ | right; now right ].
    destruct (putSummary_In _ _ _ I') as [-> | I'']; [ right | ]; now left.
Qed.

Lemma aggregateHourlyData_writes (rt : Runtime) (hour : Z) (db : Database) :
  snd (aggregateHourlyData rt hour db)
  = bulkSaveSummarizedSessions
      (map (buildSummarizedSession rt)
         (filter hasEvents (getSessionsByHour hour db))) db.
Proof.
  unfold aggregateHourlyData.
  destruct (getSessionsByHour hour db) as [ | s found ];
    [ now rewrite bulkSave_nil | ].
  destruct (filter hasEvents (s :: found));
    [ now rewrite bulkSave_nil | reflexivity ].
Qed.

Lemma aggregateChunks_writes (rt : Runtime) (fuel : nat) :
  forall (remaining : list UserSession) (total : Z) (db : Database),
    (List.length remaining <= fuel)%nat ->
    aggregateChunks fuel rt remaining total db
    = Some (total + Z.of_nat (List.length remaining),
            bulkSaveSummarizedSessions
              (map (buildSummarizedSession rt) remaining) db).
Proof.
  induction fuel as [ | fuel IH ]; intros remaining total db L.
  - destruct remaining; [ | cbn in L; lia ].
    cbn. now rewrite bulkSave_nil, Z.add_0_r.
  - destruct remaining as [ | s remaining ].
    + cbn. now rewrite bulkSave_nil, Z.add_0_r.
    + cbn [aggregateChunks]. set (all := s :: remaining) in *.
      rewrite IH.
      * rewrite <- bulkSave_app, <- map_app, firstn_skipn.
        f_equal. f_equal.
        rewrite length_map.
        rewrite <- (firstn_skipn CHUNK_SIZE all) at 3.
        rewrite length_app. lia.
      * rewrite length_skipn. subst all. cbn [List.length] in *.
        unfold CHUNK_SIZE. lia.
Qed.

Lemma aggregateAllData_writes (rt : Runtime) (db : Database) :
  aggregateAllData rt db
  = Some (Z.of_nat (List.length (filter hasEvents (sessions db))),
          bulkSaveSummarizedSessions
            (map (buildSummarizedSession rt)
               (filter hasEvents (sessions db))) db).
Proof.
  unfold aggregateAllData, getAllSessions.
  destruct (filter hasEvents (sessions db)) as [ | s valid ] eqn:E.
  - cbn. now rewrite bulkSave_nil.
  - now rewrite aggregateChunks_writes.
Qed.

Lemma hasEvents_iff (s : UserSession) : hasEvents s = true <-> events s <> [].
Proof.
  unfold hasEvents. destruct (events s); cbn; split; intros H;
    congruence || reflexivity || discriminate.
Qed.

(** A summary built from a stored session that has at least one event. *)
Definition fromSessionWithEvents (rt : Runtime) (db : Database)
    (row : SummarizedSession) : Prop :=
  exists s, In s (sessions db) /\ events s <> []
            /\ row = buildSummarizedSession rt s.

Lemma summaries_fromSessionWithEvents (rt : Runtime) (db : Database)
    (chosen : list UserSession) :
  incl chosen (sessions db) ->
  Forall (fromSessionWithEvents rt db)
    (map (buildSummarizedSession rt) (filter hasEvents chosen)).
Proof.
  intros Hin. apply Forall_forall. intros row I.
  apply in_map_iff in I. destruct I as (s & <- & I).
  apply filter_In in I. destruct I as [I E].
  exists s. split; [ auto | ]. split; [ now apply hasEvents_iff | reflexivity ].
Qed.

Lemma unique_key (tbl : list UserSession) (a b : UserSession) :
  NoDup (map sessionId tbl) -> In a tbl -> In b tbl ->
  sessionId a = sessionId b -> a = b.
Proof.
  induction tbl as [ | x tbl IH ]; [ intros _ [] | ].
  cbn [map]. intros N Ia Ib E. inversion N as [ | ? ? Nx Nt ]; subst.
  destruct Ia as [-> | Ia], Ib as [-> | Ib]; auto.
  - exfalso. apply Nx. rewrite E. now apply in_map.
  - exfalso. apply Nx. rewrite <- E. now apply in_map.
Qed.

(** C10.  Every record that [aggregateHourlyData] or [aggregateAllData]
    writes is built from a stored session with at least one event: the
    records handed to the bulk write are the summaries of the sessions
    left by the filter, every row of the summary table afterwards was
    there before or is such a summary, and with [sessionId] a key of
    the session table none of the written records carries the identifier
    of a session without events. *)
Theorem eventless_sessions_never_summarized (rt : Runtime) (db : Database) :
  (forall hour,
     exists written,
       snd (aggregateHourlyData rt hour db)
       = bulkSaveSummarizedSessions written db
       /\ Forall (fromSessionWithEvents rt db) written)
  /\ (exists written total,
        aggregateAllData rt db
        = Some (total, bulkSaveSummarizedSessions written db)
        /\ Forall (fromSessionWithEvents rt db) written)
  /\ (forall written row,
        Forall (fromSessionWithEvents rt db) written ->
        In row (summarized_sessions (bulkSaveSummarizedSessions written db)) ->
        In row (summarized_sessions db) \/ fromSessionWithEvents rt db row)
  /\ (forall row s,
        fromSessionWithEvents rt db row ->
        NoDup (map sessionId (sessions db)) ->
        In s (sessions db) -> events s = [] ->
        ss_sessionId row <> sessionId s).
Proof.
  split; [ | split; [ | split ] ].
  - intros hour. eexists. split; [ apply aggregateHourlyData_writes | ].
    apply summaries_fromSessionWithEvents.
    intros s I. unfold getSessionsByHour in I. apply filter_In in I. tauto.
  - eexists. eexists. split; [ apply aggregateAllData_writes | ].
    apply summaries_fromSessionWithEvents. apply incl_refl.
  - intros written row F I.
    destruct (bulkSave_In _ _ _ I) as [I' | I']; [ now left | right ].
    rewrite Forall_forall in F. auto.
  - intros row s (u & Iu & Eu & ->) N Is Es K.
    cbn [buildSummarizedSession ss_sessionId] in K.
    rewrite (unique_key _ _ _ N Iu Is K) in Eu. contradiction.
Qed.

(** Two sessions in hour 0, one with an event and one without. *)
Definition visit : UserSession :=
  {| sessionId := "s-1"; firstSeen := 1000; lastSeen := 46000;
     duration := 45;
     events := [ {| timestamp := 2000; targetUid := "T";
                    prompt := "Describe persons"; result := "{}" |} ] |}.

Definition glimpse : UserSession :=
  {| sessionId := "s-2"; firstSeen := 5000; lastSeen := 5000;
     duration := 0; events := [] |}.

(** Both entry points on that database write the one summary of the
    visit and nothing for the glimpse. *)
Lemma eventless_sessions_never_summarized_witness :
  let db := {| sessions := [visit; glimpse]; summarized_sessions := [] |} in
  summarized_sessions (snd (aggregateHourlyData utcRuntime 0 db))
  = [buildSummarizedSession utcRuntime visit]
  /\ option_map (fun r => summarized_sessions (snd r))
       (aggregateAllData utcRuntime db)
     = Some [buildSummarizedSession utcRuntime visit]
  /\ ss_sessionId (buildSummarizedSession utcRuntime visit)
     <> sessionId glimpse.
Proof.
  cbn zeta. split; [ reflexivity | ]. split; [ reflexivity | ].
  destruct (eventless_sessions_never_summarized utcRuntime
              {| sessions := [visit; glimpse]; summarized_sessions := [] |})
    as (_ & _ & _ & Distinct).
  apply Distinct.
  - exists visit. split; [ now left | ]. split; [ discriminate | reflexivity ].
  - repeat constructor; cbn; intuition discriminate.
  - right. now left.
  - reflexivity.
Defined.

End AggregatorFacts.

Module DbFacts.
Import Db.

(** *** Rows by key *)

Lemma getRow_key (sid : string) (tbl : list UserSession) (row : UserSession) :
  getRow sid tbl = Some row -> sessionId row = sid.
Proof.
  intros H. apply find_some in H. destruct H as [_ E].
  now apply String.eqb_eq in E.
Qed.

Lemma getRow_putRow_same (row : UserSession) (tbl : list UserSession) :
  getRow (sessionId row) (putRow row tbl) = Some row.
Proof.
  unfold getRow. induction tbl as [ | s tbl IH ]; cbn [putRow find].
  - now rewrite String.eqb_refl.
  - destruct (String.eqb (sessionId s) (sessionId row)) eqn:E; cbn [find].
    + now rewrite String.eqb_refl.
    + rewrite E. exact IH.
Qed.

Lemma getRow_putRow_other (sid : string) (row : UserSession)
    (tbl : list UserSession) :
  sessionId row <> sid -> getRow sid (putRow row tbl) = getRow sid tbl.
Proof.
  intros N. unfold getRow.
  induction tbl as [ | s tbl IH ]; cbn [putRow find].
  - destruct (String.eqb_spec (sessionId row) sid); [ contradiction | ].
    reflexivity.
  - destruct (String.eqb_spec (sessionId s) (sessionId row)) as [E | NE];
      cbn [find].
    + destruct (String.eqb_spec (sessionId row) sid); [ contradiction | ].
      destruct (String.eqb_spec (sessionId s) sid); [ congruence | ].
      reflexivity.
    + destruct (String.eqb (sessionId s) sid); [ reflexivity | exact IH ].
Qed.

Lemma getRow_deleteRow_other (sid other : string) (tbl : list UserSession) :
  other <> sid -> getRow sid (deleteRow other tbl) = getRow sid tbl.
Proof.
  intros N. unfold getRow, deleteRow.
  induction tbl as [ | s tbl IH ]; [ reflexivity | ]. cbn [filter find].
  destruct (String.eqb_spec (sessionId s) other) as [E | NE]; cbn [negb find].
  - destruct (String.eqb_spec (sessionId s) sid); [ congruence | exact IH ].
  - destruct (String.eqb (sessionId s) sid); [ reflexivity | exact IH ].
Qed.

(** The session a call is about. *)
Definition callSession (c : DbCall) : string :=
  match c with
  | StartSession sid => sid
  | EndSession sid => sid
  | DeleteSession sid => sid
  | AddAnalysisLog sid _ _ _ => sid
  end.

Lemma applyCall_other (now : Z) (db : Database) (c : DbCall) (sid : string) :
  callSession c <> sid ->
  getRow sid (sessions (applyCall now db c)) = getRow sid (sessions db).
Proof.
  intros N. destruct c as [ s | s | s | s u t r ]; cbn [callSession] in N;
    cbn [applyCall].
  - unfold startSession. cbn [withSessions sessions].
    now apply getRow_putRow_other.
  - unfold endSession, updateSessionHeartbeat.
    destruct (getRow s (sessions db)) as [ data | ] eqn:E; [ | reflexivity ].
    cbn [withSessions sessions]. apply getRow_putRow_other.
    cbn [sessionId]. now rewrite (getRow_key _ _ _ E).
  - unfold deleteSession. cbn [withSessions sessions].
    now apply getRow_deleteRow_other.
  - unfold addAnalysisLog.
    destruct (getRow s (sessions db)) as [ data | ] eqn:E; [ | reflexivity ].
    cbn [withSessions sessions]. apply getRow_putRow_other.
    cbn [sessionId]. now rewrite (getRow_key _ _ _ E).
Qed.

Lemma applyCalls_other (now : Z) (calls : list DbCall) (db : Database)
    (sid : string) :
  Forall (fun c => callSession c <> sid) calls ->
  getRow sid (sessions (applyCalls now calls db)) = getRow sid (sessions db).
Proof.
  unfold applyCalls. intros F. revert db.
  induction F as [ | c calls Hc _ IH ]; intros db; cbn [fold_left];
    [ reflexivity | ].
  rewrite IH. now apply applyCall_other.
Qed.

(** The row that [updateSessionHeartbeat] writes at clock reading [now]. *)
Definition heartbeat (now : Z) (row : UserSession) : UserSession :=
  {| sessionId := sessionId row;
     firstSeen := firstSeen row;
     lastSeen := now;
     duration := durationSeconds (firstSeen row) now;
     events := events row |}.

Lemma endSession_row (sid : string) (now : Z) (db : Database)
    (row : UserSession) :
  getRow sid (sessions db) = Some row ->
  getRow sid (sessions (endSession sid now db)) = Some (heartbeat now row).
Proof.
  intros E. unfold endSession, updateSessionHeartbeat. rewrite E.
  cbn [withSessions sessions].
  rewrite <- (getRow_key _ _ _ E) at 1.
  apply (getRow_putRow_same (heartbeat now row)).
Qed.

End DbFacts.

Module SessionsFacts.
Import Sessions.

(** *** Closing a session *)

Lemma closing_cases (currentTrackIds : list string) (now : Z) (uid : string)
    (sd : SessionData) :
  match closing currentTrackIds now uid sd with
  | StaysOpen =>
      In uid currentTrackIds \/ now - lastSeen sd <= SESSION_TIMEOUT
  | Finalized =>
      ~ In uid currentTrackIds /\ SESSION_TIMEOUT < now - lastSeen sd
      /\ MIN_SESSION_DURATION <= now - startTime sd
  | Deleted =>
      ~ In uid currentTrackIds /\ SESSION_TIMEOUT < now - lastSeen sd
      /\ now - startTime sd < MIN_SESSION_DURATION
  end.
Proof.
  unfold closing.
  destruct (existsb (String.eqb uid) currentTrackIds) eqn:E.
  - left. apply existsb_exists in E. destruct E as (x & I & Ex).
    apply String.eqb_eq in Ex. now subst.
  - assert (N : ~ In uid currentTrackIds).
    { intros I. assert (T : existsb (String.eqb uid) currentTrackIds = true).
      { apply existsb_exists. exists uid. split; [ exact I | ].
        apply String.eqb_refl. }
      congruence. }
    destruct (Z.ltb_spec SESSION_TIMEOUT (now - lastSeen sd)); [ | now right ].
    destruct (Z.leb_spec MIN_SESSION_DURATION (now - startTime sd)); auto.
Qed.

(** The age test of [cleanupStaleSessions] read on its own terms: among
    the sessions it closes, the one deleted is the one whose age
    [now - startTime] is below the minimum. *)
Lemma closing_by_age (currentTrackIds : list string) (now : Z) (uid : string)
    (sd : SessionData) :
  closing currentTrackIds now uid sd <> StaysOpen ->
  (closing currentTrackIds now uid sd = Deleted
   <-> now - startTime sd < MIN_SESSION_DURATION).
Proof.
  intros Open. pose proof (closing_cases currentTrackIds now uid sd) as C.
  destruct (closing currentTrackIds now uid sd); [ contradiction | | ];
    split; intros H; try discriminate; try reflexivity; lia.
Qed.

(** A session whose [lastSeen] is not before its [startTime] is never
    deleted by the sweep: once the grace timeout of 5000 ms has passed
    the age is above the minimum of 1000 ms, however short the time the
    person was seen. *)
Lemma closing_never_deletes (currentTrackIds : list string) (now : Z)
    (uid : string) (sd : SessionData) :
  startTime sd <= lastSeen sd ->
  closing currentTrackIds now uid sd <> Deleted.
Proof.
  intros Order E. pose proof (closing_cases currentTrackIds now uid sd) as C.
  rewrite E in C. unfold SESSION_TIMEOUT, MIN_SESSION_DURATION in C. lia.
Qed.

(** A runtime for the examples. *)
Definition demoRuntime : Runtime :=
  {| generateLongID := fun n => ("session-" ++ TrackerFacts.tally n)%string;
     JSON_stringify := fun _ => "{}";
     nano := {| Nano.describePersons := fun _ => "Describe persons";
                Nano.stripFences := fun text => text;
                Nano.JSON_parse := fun _ => None |};
     aggregator := AggregatorFacts.utcRuntime |}.

(** A confirmed track as published by the tracker in the frame in which
    it was matched. *)
Definition visitor : Tracker.LocalTrack :=
  Tracker.mkTrack "T" TrackerFacts.personBox 0.9 0 0 true 3 true.

Definition seenAt (t : Z) : CycleInput :=
  {| currentTracks := [visitor]; now := t; videoReady := true;
     engine := Nano.PromptingFails; resolvedAt := t + 2700 |}.

Definition goneAt (t : Z) : CycleInput :=
  {| currentTracks := []; now := t; videoReady := true;
     engine := Nano.PromptingFails; resolvedAt := t |}.

(** C1, at the failing input.  A person is present in one cycle only, at
    time 0, so the session has [startTime = lastSeen = 0] and a presence
    of 0 ms, below the minimum of 1000 ms.  At the first cycle after the
    grace timeout, at time 5001, the sweep ends the session (a heartbeat
    is written, the row stays with a duration of 5.001 s) where the claim
    has it deleted. *)
Theorem short_session_is_finalized :
  let w1 := runCycles demoRuntime [seenAt 0] initialWorld in
  let closed := analysisCycle demoRuntime (goneAt 5001) w1 in
  activeSessions w1
  = [("T", {| sessionId := "session-"; startTime := 0; lastSeen := 0 |})]
  /\ closing [] 5001 "T"
       {| sessionId := "session-"; startTime := 0; lastSeen := 0 |}
     = Finalized
  /\ dbCalls (snd closed) = [Db.EndSession "session-"]
  /\ activeSessions (fst closed) = []
  /\ Db.sessions (Aggregator.database (storage (fst closed)))
     = [ {| Db.sessionId := "session-"; Db.firstSeen := 0;
            Db.lastSeen := 5001;
            Db.duration := Db.durationSeconds 0 5001;
            Db.events := [] |} ].
Proof.
  cbn zeta. repeat split.
Qed.

(** *** What finalizing records *)

Definition sessionIds (m : SessionMap) : list string :=
  map (fun kv => sessionId (snd kv)) m.

Lemma cleanupStaleSessions_calls (currentTrackIds : list string) (now : Z)
    (m : SessionMap) :
  fst (cleanupStaleSessions currentTrackIds now m)
  = fst (sweep currentTrackIds now m).
Proof.
  unfold cleanupStaleSessions.
  now destruct (sweep currentTrackIds now m).
Qed.

Lemma sweep_cons (currentTrackIds : list string) (now : Z) (uid : string)
    (sd : SessionData) (rest : SessionMap) :
  fst (sweep currentTrackIds now ((uid, sd) :: rest))
  = match closing currentTrackIds now uid sd with
    | StaysOpen => fst (sweep currentTrackIds now rest)
    | Finalized =>
        Db.EndSession (sessionId sd) :: fst (sweep currentTrackIds now rest)
    | Deleted =>
        Db.DeleteSession (sessionId sd)
        :: fst (sweep currentTrackIds now rest)
    end.
Proof.
  cbn [sweep]. destruct (sweep currentTrackIds now rest).
  now destruct (closing currentTrackIds now uid sd).
Qed.

Lemma sweep_calls_sessions (currentTrackIds : list string) (now : Z)
    (m : SessionMap) :
  Forall (fun c => In (DbFacts.callSession c) (sessionIds m))
    (fst (sweep currentTrackIds now m)).
Proof.
  induction m as [ | [uid sd] rest IH ]; [ constructor | ].
  rewrite sweep_cons.
  assert (Rest : Forall (fun c => In (DbFacts.callSession c)
                                    (sessionIds ((uid, sd) :: rest)))
                   (fst (sweep currentTrackIds now rest))).
  { eapply Forall_impl; [ | exact IH ]. cbn. auto. }
  destruct (closing currentTrackIds now uid sd); [ exact Rest | | ];
    (constructor; [ now left | exact Rest ]).
Qed.

Lemma sweep_finalizes (currentTrackIds : list string) (now : Z)
    (uid : string) (sd : SessionData) (row : Db.UserSession)
    (m : SessionMap) :
  forall db : Db.Database,
    NoDup (sessionIds m) ->
    In (uid, sd) m ->
    closing currentTrackIds now uid sd = Finalized ->
    Db.getRow (sessionId sd) (Db.sessions db) = Some row ->
    Db.getRow (sessionId sd)
      (Db.sessions (Db.applyCalls now (fst (sweep currentTrackIds now m)) db))
    = Some (DbFacts.heartbeat now row).
Proof.
  induction m as [ | [u0 sd0] rest IH ]; intros db N I C G; [ destruct I | ].
  cbn [sessionIds map snd] in N. inversion N as [ | ? ? Nhead Nrest ]; subst.
  rewrite sweep_cons.
  pose proof (sweep_calls_sessions currentTrackIds now rest) as Calls.
  destruct I as [[= -> ->] | I].
  - rewrite C. unfold Db.applyCalls. cbn [fold_left Db.applyCall].
    fold (Db.applyCalls now (fst (sweep currentTrackIds now rest))
            (Db.endSession (sessionId sd) now db)).
    rewrite DbFacts.applyCalls_other.
    + now apply DbFacts.endSession_row.
    + eapply Forall_impl; [ | exact Calls ]. cbn beta.
      intros c Ic E. apply Nhead. fold (sessionIds rest). now rewrite <- E.
  - assert (Other : sessionId sd0 <> sessionId sd).
    { intros E. apply Nhead. rewrite E.
      apply (in_map (fun kv => sessionId (snd kv)) rest (uid, sd) I). }
    destruct (closing currentTrackIds now u0 sd0).
    + now apply IH.
    + unfold Db.applyCalls. cbn [fold_left].
      apply IH; auto.
      now rewrite DbFacts.applyCall_other.
    + unfold Db.applyCalls. cbn [fold_left].
      apply IH; auto.
      now rewrite DbFacts.applyCall_other.
Qed.

(** C3 (as amended).  When the sweep at clock reading [now] finalizes a
    session, the stored row keeps its [firstSeen] and its events, its
    [lastSeen] becomes [now], the time of closing, and its duration is
    [(lastSeen - firstSeen) / 1000] for these stored values: the span
    from [firstSeen] to the closing.  The session is closed only when
    more than [SESSION_TIMEOUT] has passed since its [lastSeen] mark in
    the session map (set at the start of the last cycle that found the
    track confirmed and matched), so the stored span is more than
    5000 ms longer than the span from the stored [firstSeen] to that
    mark. *)
Theorem finalized_duration_runs_to_closing (currentTrackIds : list string)
    (now : Z) (m : SessionMap) (db : Db.Database) (uid : string)
    (sd : SessionData) (row : Db.UserSession) :
  NoDup (sessionIds m) ->
  In (uid, sd) m ->
  closing currentTrackIds now uid sd = Finalized ->
  Db.getRow (sessionId sd) (Db.sessions db) = Some row ->
  exists row',
    Db.getRow (sessionId sd)
      (Db.sessions
         (Db.applyCalls now
            (fst (cleanupStaleSessions currentTrackIds now m)) db))
    = Some row'
    /\ Db.firstSeen row' = Db.firstSeen row
    /\ Db.events row' = Db.events row
    /\ Db.lastSeen row' = now
    /\ Db.duration row'
       = (inject_Z (Db.lastSeen row' - Db.firstSeen row') / 1000)%Q
    /\ (lastSeen sd - Db.firstSeen row) + SESSION_TIMEOUT
       < Db.lastSeen row' - Db.firstSeen row'.
Proof.
  intros N I C G. exists (DbFacts.heartbeat now row).
  rewrite cleanupStaleSessions_calls.
  split; [ now apply sweep_finalizes with (uid := uid) | ].
  cbn [DbFacts.heartbeat Db.firstSeen Db.events Db.lastSeen Db.duration].
  pose proof (closing_cases currentTrackIds now uid sd) as K.
  rewrite C in K. destruct K as (_ & Late & _).
  split; [ reflexivity | ]. split; [ reflexivity | ].
  split; [ reflexivity | ]. split; [ reflexivity | lia ].
Qed.

(** The sweep at time 8001 on a session opened at time 0 and last
    refreshed by the loop at time 3000: the stored span is 8001 ms. *)
Lemma finalized_duration_runs_to_closing_witness :
  let sd := {| sessionId := "session-"; startTime := 0; lastSeen := 3000 |} in
  let db := Db.startSession "session-" 0 Db.emptyDatabase in
  exists row',
    Db.getRow "session-"
      (Db.sessions
         (Db.applyCalls 8001
            (fst (cleanupStaleSessions [] 8001 [("T", sd)])) db))
    = Some row'
    /\ Db.lastSeen row' = 8001
    /\ Db.duration row'
       = (inject_Z (Db.lastSeen row' - Db.firstSeen row') / 1000)%Q
    /\ (3000 - 0) + SESSION_TIMEOUT < Db.lastSeen row' - Db.firstSeen row'.
Proof.
  cbn zeta.
  destruct (finalized_duration_runs_to_closing [] 8001
              [("T", {| sessionId := "session-"; startTime := 0;
                        lastSeen := 3000 |})]
              (Db.startSession "session-" 0 Db.emptyDatabase) "T"
              {| sessionId := "session-"; startTime := 0; lastSeen := 3000 |}
              {| Db.sessionId := "session-"; Db.firstSeen := 0;
                 Db.lastSeen := 0; Db.duration := 0; Db.events := [] |})
    as (row' & G & _ & _ & L & D & Span).
  - repeat constructor. intros [].
  - now left.
  - reflexivity.
  - reflexivity.
  - exists row'. auto.
Defined.

(** C3, the claim as stated fails.  A person is seen in the cycles at
    times 0 and 3000 and is in no frame afterwards; the cycle at time
    8001 finalizes the session.  The stored duration is 8.001 s, the span
    to the closing, not the 3 s from the first to the last cycle that
    saw the person. *)
Lemma finalized_duration_is_not_presence :
  let w2 := runCycles demoRuntime [seenAt 0; seenAt 3000] initialWorld in
  let closed := analysisCycle demoRuntime (goneAt 8001) w2 in
  activeSessions w2
  = [("T", {| sessionId := "session-"; startTime := 0; lastSeen := 3000 |})]
  /\ dbCalls (snd closed) = [Db.EndSession "session-"]
  /\ exists row,
       Db.getRow "session-"
         (Db.sessions (Aggregator.database (storage (fst closed))))
       = Some row
       /\ Db.firstSeen row = 0
       /\ Db.duration row == 8001 # 1000
       /\ ~ Db.duration row == Db.durationSeconds 0 3000.
Proof.
  cbn zeta. split; [ reflexivity | ]. split; [ reflexivity | ].
  eexists. split; [ reflexivity | ]. split; [ reflexivity | ].
  split; vm_compute; discriminate || reflexivity.
Qed.

(** *** Keys of the session map *)

Lemma mapGet_mapSet_other (key other : string) (value : SessionData)
    (m : SessionMap) :
  other <> key -> mapGet key (mapSet other value m) = mapGet key m.
Proof.
  intros N. unfold mapGet.
  induction m as [ | [k v] m IH ]; cbn [mapSet find fst].
  - destruct (String.eqb_spec other key); [ contradiction | reflexivity ].
  - destruct (String.eqb_spec k other) as [E | NE]; cbn [find fst].
    + destruct (String.eqb_spec k key); [ congruence | reflexivity ].
    + destruct (String.eqb k key); [ reflexivity | exact IH ].
Qed.

Lemma mapGet_mapDelete_absent (key other : string) (m : SessionMap) :
  mapGet key m = None -> mapGet key (mapDelete other m) = None.
Proof.
  unfold mapGet, mapDelete.
  induction m as [ | [k v] m IH ]; [ reflexivity | ]. cbn [filter find fst].
  destruct (String.eqb k key) eqn:E; [ discriminate | ]. intros H.
  destruct (negb (String.eqb k other)); cbn [find fst];
    [ rewrite E | ]; auto.
Qed.

Lemma cleanupStaleSessions_absent (currentTrackIds : list string) (now : Z)
    (key : string) (m : SessionMap) :
  mapGet key m = None ->
  mapGet key (snd (cleanupStaleSessions currentTrackIds now m)) = None.
Proof.
  unfold cleanupStaleSessions.
  destruct (sweep currentTrackIds now m) as [calls toRemove]. cbn [snd].
  revert m. induction toRemove as [ | u toRemove IH ]; intros m H;
    cbn [fold_left]; [ exact H | ].
  apply IH. now apply mapGet_mapDelete_absent.
Qed.

Lemma manageSessions_absent (generateLongID : nat -> string) (now : Z)
    (key : string) (validTracks : list Tracker.LocalTrack) :
  forall (m : SessionMap) (n : nat),
    Forall (fun t => Tracker.id t <> key) validTracks ->
    mapGet key m = None ->
    mapGet key
      (snd (fst (manageSessions generateLongID validTracks now m n)))
    = None.
Proof.
  induction validTracks as [ | t rest IH ]; intros m n F H; [ exact H | ].
  inversion F as [ | ? ? Ft Frest ]; subst. cbn [manageSessions].
  destruct (mapGet (Tracker.id t) m) as [ sd | ].
  - apply IH; [ exact Frest | ]. now rewrite mapGet_mapSet_other.
  - destruct (manageSessions generateLongID rest now _ (S n))
      as [[calls m'] n'] eqn:E.
    cbn [fst snd].
    specialize (IH (mapSet (Tracker.id t)
                      {| sessionId := generateLongID n; startTime := now;
                         lastSeen := now |} m) (S n) Frest).
    rewrite E in IH. cbn [fst snd] in IH. apply IH.
    now rewrite mapGet_mapSet_other.
Qed.

Lemma sessionPhase_absent (rt : Runtime) (inp : CycleInput) (w : World)
    (key : string) :
  Forall (fun t => Tracker.id t <> key) (currentTracks inp) ->
  mapGet key (activeSessions w) = None ->
  mapGet key (activeSessions (snd (sessionPhase rt inp w))) = None.
Proof.
  intros F H. unfold sessionPhase.
  pose proof (cleanupStaleSessions_absent
                (map Tracker.id (filter hasId (currentTracks inp)))
                (now inp) key (activeSessions w) H) as H1.
  destruct (cleanupStaleSessions _ (now inp) (activeSessions w))
    as [calls1 m1]. cbn [snd] in H1.
  assert (Fv : Forall (fun t => Tracker.id t <> key)
                 (filter isValidTrack (currentTracks inp))).
  { apply Forall_forall. intros t I. apply filter_In in I.
    rewrite Forall_forall in F. apply F. tauto. }
  pose proof (manageSessions_absent (generateLongID rt) (now inp) key _
                m1 (longIds w) Fv H1) as H2.
  destruct (manageSessions (generateLongID rt) _ (now inp) m1 (longIds w))
    as [[calls2 m2] n2]. exact H2.
Qed.

(** *** The calls of the session phase *)

Definition isLogCall (c : Db.DbCall) : bool :=
  match c with
  | Db.AddAnalysisLog _ _ _ _ => true
  | _ => false
  end.

Lemma sweep_no_log (currentTrackIds : list string) (now : Z)
    (m : SessionMap) :
  Forall (fun c => isLogCall c = false) (fst (sweep currentTrackIds now m)).
Proof.
  induction m as [ | [uid sd] rest IH ]; [ constructor | ].
  rewrite sweep_cons.
  destruct (closing currentTrackIds now uid sd); auto.
Qed.

Lemma manageSessions_no_log (generateLongID : nat -> string) (now : Z)
    (validTracks : list Tracker.LocalTrack) :
  forall (m : SessionMap) (n : nat),
    Forall (fun c => isLogCall c = false)
      (fst (fst (manageSessions generateLongID validTracks now m n))).
Proof.
  induction validTracks as [ | t rest IH ]; intros m n; [ constructor | ].
  cbn [manageSessions].
  destruct (mapGet (Tracker.id t) m) as [ sd | ]; [ apply IH | ].
  specialize (IH (mapSet (Tracker.id t)
                    {| sessionId := generateLongID n; startTime := now;
                       lastSeen := now |} m) (S n)).
  destruct (manageSessions generateLongID rest now _ (S n))
    as [[calls m'] n']. cbn [fst] in *. auto.
Qed.

Lemma sessionPhase_no_log (rt : Runtime) (inp : CycleInput) (w : World) :
  Forall (fun c => isLogCall c = false) (fst (sessionPhase rt inp w)).
Proof.
  unfold sessionPhase.
  pose proof (sweep_no_log (map Tracker.id (filter hasId (currentTracks inp)))
                (now inp) (activeSessions w)) as S1.
  rewrite <- cleanupStaleSessions_calls in S1.
  destruct (cleanupStaleSessions _ (now inp) (activeSessions w))
    as [calls1 m1]. cbn [fst] in S1.
  pose proof (manageSessions_no_log (generateLongID rt) (now inp)
                (filter isValidTrack (currentTracks inp)) m1 (longIds w))
    as S2.
  destruct (manageSessions (generateLongID rt) _ (now inp) m1 (longIds w))
    as [[calls2 m2] n2]. cbn [fst] in *.
  apply Forall_app. auto.
Qed.

(** *** A failed call *)

(** The call throws (before or inside its own [try]) or its output does
    not parse. *)
Definition inferenceFails (rt : Runtime) (e : Nano.EngineBehaviour) : Prop :=
  match e with
  | Nano.Responds fullText =>
      Nano.JSON_parse (nano rt) (Nano.stripFences (nano rt) fullText) = None
  | _ => True
  end.

Lemma sessionPhase_isAnalyzing (rt : Runtime) (inp : CycleInput) (w : World) :
  isAnalyzing (snd (sessionPhase rt inp w)) = isAnalyzing w.
Proof.
  unfold sessionPhase.
  destruct (cleanupStaleSessions _ (now inp) (activeSessions w))
    as [calls1 m1].
  now destruct (manageSessions (generateLongID rt) _ (now inp) m1 (longIds w))
    as [[calls2 m2] n2].
Qed.

Lemma sessionFor_rawResult (m : SessionMap) (cleanResult : string) :
  mapGet "raw" m = None -> sessionFor m (Nano.rawResult cleanResult) = None.
Proof.
  intros H. unfold sessionFor. cbn [Nano.rawResult Nano.uid]. now rewrite H.
Qed.

(** A failed call in one cycle, from any state of a running loop without
    a session keyed ["raw"]. *)
Lemma failed_call_changes_nothing (rt : Runtime) (inp : CycleInput)
    (w : World) :
  isAnalyzing w = true ->
  callsEngine inp = true ->
  inferenceFails rt (engine inp) ->
  mapGet "raw" (activeSessions w) = None ->
  Forall (fun t => Tracker.id t <> "raw") (currentTracks inp) ->
  fst (analysisCycle rt inp w) = snd (sessionPhase rt inp w)
  /\ snd (analysisCycle rt inp w)
     = {| dbCalls := fst (sessionPhase rt inp w);
          inferenceCalls := 1;
          scheduledNext := true |}.
Proof.
  intros Run Calls Fails NoRaw Names.
  pose proof (sessionPhase_absent rt inp w "raw" Names NoRaw) as Raw1.
  pose proof (sessionPhase_isAnalyzing rt inp w) as Flag.
  unfold analysisCycle. rewrite Run. cbn [negb].
  destruct (sessionPhase rt inp w) as [calls w1]. cbn [fst snd] in *.
  rewrite Run in Flag. rewrite Calls, Flag.
  destruct (engine inp) as [ | | | fullText ];
    cbn [Nano.analyzeFrameWithNanoStreaming].
  - split; reflexivity.
  - split; reflexivity.
  - cbn [Nano.results logResults Nano.prompt]. rewrite app_nil_r.
    destruct w1; cbn in *; subst; split; reflexivity.
  - cbn [inferenceFails] in Fails. rewrite Fails.
    cbn [Nano.results logResults Nano.prompt].
    rewrite (sessionFor_rawResult _ _ Raw1), app_nil_r.
    destruct w1; cbn in *; subst; split; reflexivity.
Qed.

(** The sessions of a loop started from the initial state are keyed by
    the names of the tracks it has seen: if none of them is ["raw"], no
    session is. *)
Lemma analysisCycle_absent (rt : Runtime) (inp : CycleInput) (w : World)
    (key : string) :
  Forall (fun t => Tracker.id t <> key) (currentTracks inp) ->
  mapGet key (activeSessions w) = None ->
  mapGet key (activeSessions (fst (analysisCycle rt inp w))) = None.
Proof.
  intros F H. pose proof (sessionPhase_absent rt inp w key F H) as H1.
  unfold analysisCycle. destruct (isAnalyzing w); cbn [negb]; [ | exact H ].
  destruct (sessionPhase rt inp w) as [calls w1]. cbn [snd] in H1.
  destruct (callsEngine inp); [ | exact H1 ].
  destruct (Nano.analyzeFrameWithNanoStreaming _ _ _) as [ response | ];
    [ | exact H1 ].
  destruct (Nano.results response) as [ items | ]; [ | exact H1 ].
  now destruct (logResults rt _ items _ _ _).
Qed.

Lemma runCycles_absent (rt : Runtime) (key : string)
    (inputs : list CycleInput) :
  forall w : World,
    Forall (fun inp => Forall (fun t => Tracker.id t <> key)
                         (currentTracks inp)) inputs ->
    mapGet key (activeSessions w) = None ->
    mapGet key (activeSessions (runCycles rt inputs w)) = None.
Proof.
  induction inputs as [ | inp inputs IH ]; intros w F H; [ exact H | ].
  inversion F as [ | ? ? Fi Frest ]; subst.
  cbn [runCycles fold_left]. apply IH; [ exact Frest | ].
  now apply analysisCycle_absent.
Qed.

Lemma analysisCycle_isAnalyzing (rt : Runtime) (inp : CycleInput)
    (w : World) :
  isAnalyzing (fst (analysisCycle rt inp w)) = isAnalyzing w.
Proof.
  pose proof (sessionPhase_isAnalyzing rt inp w) as Flag.
  unfold analysisCycle.
  destruct (isAnalyzing w) eqn:A; cbn [negb]; [ | exact A ].
  destruct (sessionPhase rt inp w) as [calls w1]. cbn [snd] in Flag.
  destruct (callsEngine inp); [ | exact Flag ].
  destruct (Nano.analyzeFrameWithNanoStreaming _ _ _) as [ response | ];
    [ | exact Flag ].
  destruct (Nano.results response) as [ items | ]; [ | exact Flag ].
  now destruct (logResults rt _ items _ _ _).
Qed.

Lemma runCycles_isAnalyzing (rt : Runtime) (inputs : list CycleInput) :
  forall w : World, isAnalyzing (runCycles rt inputs w) = isAnalyzing w.
Proof.
  induction inputs as [ | inp inputs IH ]; intros w; [ reflexivity | ].
  cbn [runCycles fold_left].
  etransitivity; [ apply IH | apply analysisCycle_isAnalyzing ].
Qed.

(** No track in the cycle's input is named ["raw"]: track identifiers are
    the first eight characters of a UUID, in upper case. *)
Definition tracksNotRaw (inp : CycleInput) : Prop :=
  Forall (fun t => Tracker.id t <> "raw") (currentTracks inp).

(** C6.  In a loop run from its initial state through any cycles, on
    tracks none of which is named ["raw"], take a cycle that reaches the
    call on the engine.  If the call throws or its output does not parse
    as JSON, the cycle ends in the state it was in when the call was
    issued (the session map, the database and the aggregation mark are
    as the session phase left them), the calls it made on the database
    are those of the session phase and none of them appends a log entry,
    it called the engine once, and it re-armed the timer for the next
    cycle. *)
Theorem inference_failure_is_contained (rt : Runtime)
    (inputs : list CycleInput) (inp : CycleInput) :
  Forall tracksNotRaw (inp :: inputs) ->
  callsEngine inp = true ->
  inferenceFails rt (engine inp) ->
  let w := runCycles rt inputs initialWorld in
  let atCall := sessionPhase rt inp w in
  let done := analysisCycle rt inp w in
  fst done = snd atCall
  /\ activeSessions (fst done) = activeSessions (snd atCall)
  /\ storage (fst done) = storage (snd atCall)
  /\ dbCalls (snd done) = fst atCall
  /\ Forall (fun c => isLogCall c = false) (dbCalls (snd done))
  /\ inferenceCalls (snd done) = 1%nat
  /\ scheduledNext (snd done) = true.
Proof.
  intros Names Calls Fails. cbn zeta.
  inversion Names as [ | ? ? Now Before ]; subst.
  set (w := runCycles rt inputs initialWorld).
  assert (Run : isAnalyzing w = true)
    by (unfold w; now rewrite runCycles_isAnalyzing).
  assert (NoRaw : mapGet "raw" (activeSessions w) = None)
    by (unfold w; now apply runCycles_absent).
  destruct (failed_call_changes_nothing rt inp w Run Calls Fails NoRaw Now)
    as [W R].
  rewrite W, R. cbn [dbCalls inferenceCalls scheduledNext].
  repeat split; auto. apply sessionPhase_no_log.
Qed.

Definition unparsedAt (t : Z) : CycleInput :=
  {| currentTracks := [visitor]; now := t; videoReady := true;
     engine := Nano.Responds "I see one person."; resolvedAt := t + 2700 |}.

(** A cycle at time 3000 whose model output is prose: the session opened
    at time 0 is still open, nothing is written, the loop goes on. *)
Lemma inference_failure_is_contained_witness :
  let w1 := runCycles demoRuntime [seenAt 0] initialWorld in
  let done := analysisCycle demoRuntime (unparsedAt 3000) w1 in
  activeSessions (fst done)
  = [("T", {| sessionId := "session-"; startTime := 0; lastSeen := 3000 |})]
  /\ dbCalls (snd done) = []
  /\ Forall (fun c => isLogCall c = false) (dbCalls (snd done))
  /\ scheduledNext (snd done) = true.
Proof.
  cbn zeta.
  destruct (inference_failure_is_contained demoRuntime [seenAt 0]
              (unparsedAt 3000))
    as (_ & M & _ & C & L & _ & S).
  - repeat constructor; discriminate.
  - reflexivity.
  - reflexivity.
  - rewrite M, C. repeat split; auto.
Defined.

End SessionsFacts.

Module LoopFacts.
Import Loop.

(** Before [onDestroy]: the loop is off and nothing is pending, or it is
    on and exactly one of a timer, a call in flight and a write is
    pending.  After it: no run of [loop] reaches the call, and at most
    the one call that was in flight is still outstanding. *)
Definition serialized (s : LoopState) : Prop :=
  if trackerDisposed s then (awaitingInference s <= 1)%nat
  else if isAnalyzing s then
    (pendingTimers s + awaitingInference s + awaitingWrite s = 1)%nat
  else
    (pendingTimers s + awaitingInference s + awaitingWrite s = 0)%nat.

Lemma serialized_initial : serialized initialLoop.
Proof. reflexivity. Qed.

Lemma serialized_bound (s : LoopState) :
  serialized s -> (awaitingInference s <= 1)%nat.
Proof.
  unfold serialized.
  destruct (trackerDisposed s), (isAnalyzing s); lia.
Qed.

Lemma step_serialized (s s' : LoopState) (e : Event) :
  serialized s -> step s e = Some s' -> serialized s'.
Proof.
  unfold serialized.
  destruct s as [analyzing disposed timers calls writes].
  destruct e as [ valid | valid | logs | more | cancelled ];
    cbn [step isAnalyzing trackerDisposed pendingTimers awaitingInference
         awaitingWrite].
  - destruct analyzing; intros I [= <-]; [ exact I | ].
    unfold enterLoop, finishLoop. cbn.
    destruct valid, disposed; cbn in *; lia.
  - destruct timers as [ | timers ]; [ discriminate | ].
    intros I [= <-]. unfold enterLoop, finishLoop.
    destruct analyzing, valid, disposed; cbn in *; lia.
  - destruct calls as [ | calls ]; [ discriminate | ].
    destruct logs; intros I [= <-]; unfold finishLoop;
      destruct analyzing, disposed; cbn in *; lia.
  - destruct writes as [ | writes ]; [ discriminate | ].
    destruct more; intros I [= <-]; unfold finishLoop;
      destruct analyzing, disposed; cbn in *; lia.
  - intros I [= <-]. cbn. destruct disposed, analyzing; lia.
Qed.

Lemma run_serialized (events : list Event) :
  forall s s', serialized s -> run events s = Some s' -> serialized s'.
Proof.
  induction events as [ | e events IH ]; intros s s' I R; cbn [run] in R.
  - now injection R as <-.
  - destruct (step s e) as [ s1 | ] eqn:E; [ | discriminate ].
    eapply IH; [ | exact R ]. eapply step_serialized; eauto.
Qed.

(** A callback that issues a call on the engine does so from a state
    with none in flight. *)
Lemma step_issues_from_idle (s s' : LoopState) (e : Event) :
  serialized s -> step s e = Some s' ->
  (awaitingInference s < awaitingInference s')%nat ->
  awaitingInference s = 0%nat /\ awaitingInference s' = 1%nat.
Proof.
  intros I E L. pose proof (step_serialized s s' e I E) as I'.
  apply serialized_bound in I'. lia.
Qed.

(** C8.  In every state reached from the start of the page by any
    sequence of callbacks, at most one call on the engine is in flight;
    a callback that issues a call finds none in flight; while the page
    is alive and the loop is on, exactly one of a timer, a call and a
    write is pending, so the next cycle is armed only after the call has
    settled; and [startAnalysisLoop] on a running loop changes nothing. *)
Theorem at_most_one_call_in_flight (events : list Event) (s : LoopState) :
  run events initialLoop = Some s ->
  (awaitingInference s <= 1)%nat
  /\ (forall e s', step s e = Some s' ->
        (awaitingInference s < awaitingInference s')%nat ->
        awaitingInference s = 0%nat)
  /\ (trackerDisposed s = false -> isAnalyzing s = true ->
      (pendingTimers s + awaitingInference s + awaitingWrite s = 1)%nat)
  /\ (forall validTracks,
        isAnalyzing s = true ->
        step s (StartAnalysisLoop validTracks) = Some s).
Proof.
  intros R. pose proof (run_serialized events _ _ serialized_initial R) as I.
  split; [ now apply serialized_bound | ].
  split; [ intros e s' E L; now apply (step_issues_from_idle s s' e) | ].
  split.
  - intros D A. unfold serialized in I. now rewrite D, A in I.
  - intros valid A. cbn [step]. now rewrite A.
Qed.

(** The loop is started, calls the engine, is started again while the
    call is in flight, logs one result, and re-arms its timer. *)
Lemma at_most_one_call_in_flight_witness :
  run [StartAnalysisLoop true; StartAnalysisLoop true; InferenceSettles true;
       WriteSettles false; TimerFires true] initialLoop
  = Some {| isAnalyzing := true; trackerDisposed := false;
            pendingTimers := 0; awaitingInference := 1;
            awaitingWrite := 0 |}
  /\ (awaitingInference
        {| isAnalyzing := true; trackerDisposed := false;
           pendingTimers := 0; awaitingInference := 1;
           awaitingWrite := 0 |} <= 1)%nat.
Proof.
  split; [ reflexivity | ].
  apply (at_most_one_call_in_flight
           [StartAnalysisLoop true; StartAnalysisLoop true;
            InferenceSettles true; WriteSettles false; TimerFires true]).
  reflexivity.
Defined.

End LoopFacts.

(* ================================================================== *)
(** * Part III: further properties of the code                         *)
(* ================================================================== *)

Module TrackerMore.
Import Tracker TrackerFacts.

(** *** The best match *)

Definition iouWith (det : Detection) (t : LocalTrack) : float :=
  calculateIoU (bbox t) (det_bbox det).

Lemma findBestFrom_spec (det : Detection) (tracks : list LocalTrack) :
  forall (k : nat) (b : float) (m : option nat),
    Prim2SF b <> S754_nan ->
    let r := findBestFrom tracks det k b m in
    Prim2SF (fst r) <> S754_nan
    /\ FloatFacts.le (Prim2SF b) (Prim2SF (fst r))
    /\ Forall (fun u => (fst r <? iouWith det u)%float = false) tracks
    /\ (r = (b, m)
        \/ exists i t,
             snd r = Some (k + i)%nat
             /\ nth_error tracks i = Some t
             /\ fst r = iouWith det t
             /\ (b <? fst r)%float = true
             /\ forall j u, (j < i)%nat -> nth_error tracks j = Some u ->
                            (fst r <=? iouWith det u)%float = false).
Proof.
  induction tracks as [ | t0 tracks IH ]; intros k b m Nb; cbn zeta.
  - cbn [findBestFrom fst].
    split; [ exact Nb | ]. split; [ now apply FloatFacts.le_refl | ].
    split; [ constructor | now left ].
  - cbn [findBestFrom]. fold (iouWith det t0).
    destruct (b <? iouWith det t0)%float eqn:E.
    + destruct (FloatFacts.ltb_not_nan _ _ E) as [_ Nx].
      destruct (IH (S k) (iouWith det t0) (Some k) Nx)
        as (Nr & Up & All & Which).
      cbn zeta in Nr, Up, All, Which.
      set (r := findBestFrom tracks det (S k) (iouWith det t0) (Some k)) in *.
      split; [ exact Nr | ].
      split; [ eapply FloatFacts.le_trans;
               [ apply FloatFacts.ltb_le, E | exact Up ] | ].
      split; [ constructor; [ now apply FloatFacts.le_ltb_false | exact All ] | ].
      right. destruct Which as [Er | (i & t & Ei & Et & Eb & Lb & Early)].
      * exists 0%nat, t0. rewrite Er. cbn [fst snd nth_error].
        rewrite Nat.add_0_r. repeat split; auto.
        intros j u Hj. lia.
      * exists (S i), t.
        replace (k + S i)%nat with (S k + i)%nat by lia.
        cbn [nth_error]. repeat split; auto.
        -- eapply FloatFacts.ltb_trans; eauto.
        -- intros [ | j ] u Hj Hu; cbn [nth_error] in Hu.
           ++ injection Hu as <-. now apply FloatFacts.ltb_leb_false.
           ++ apply (Early j u); [ lia | exact Hu ].
    + destruct (IH (S k) b m Nb) as (Nr & Up & All & Which).
      cbn zeta in Nr, Up, All, Which.
      set (r := findBestFrom tracks det (S k) b m) in *.
      split; [ exact Nr | ]. split; [ exact Up | ].
      split; [ constructor;
               [ now apply (FloatFacts.ltb_false_le b) | exact All ] | ].
      destruct Which as [Er | (i & t & Ei & Et & Eb & Lb & Early)];
        [ now left | right ].
      exists (S i), t.
      replace (k + S i)%nat with (S k + i)%nat by lia.
      cbn [nth_error]. repeat split; auto.
      intros [ | j ] u Hj Hu; cbn [nth_error] in Hu.
      * injection Hu as <-. now apply (FloatFacts.ltb_false_ltb b).
      * apply (Early j u); [ lia | exact Hu ].
Qed.

(** X1.  [findBest] returns a best IoU that no track exceeds (its running
    maximum starts at 0 and a NaN never replaces it).  When it returns an
    index, the track there is the first to attain that maximum: its IoU
    is the best, is above 0, and every earlier track is strictly below it
    or has no IoU (NaN); when it returns none, the best is 0 and no track
    has an IoU above 0. *)
Theorem findBest_first_maximum (tracks : list LocalTrack) (det : Detection) :
  Forall (fun u => (fst (findBest tracks det) <? iouWith det u)%float = false)
    tracks
  /\ match snd (findBest tracks det) with
     | Some i =>
         exists t,
           nth_error tracks i = Some t
           /\ fst (findBest tracks det) = iouWith det t
           /\ (0 <? iouWith det t)%float = true
           /\ forall j u, (j < i)%nat -> nth_error tracks j = Some u ->
                          (iouWith det t <=? iouWith det u)%float = false
     | None =>
         fst (findBest tracks det) = 0%float
         /\ Forall (fun u => (0 <? iouWith det u)%float = false) tracks
     end.
Proof.
  unfold findBest.
  destruct (findBestFrom_spec det tracks 0%nat 0%float None)
    as (_ & _ & All & Which); [ discriminate | ].
  cbn zeta in All, Which. split; [ exact All | ].
  destruct Which as [Er | (i & t & Ei & Et & Eb & Lb & Early)].
  - rewrite Er in *. cbn [fst snd] in *. auto.
  - rewrite Ei. cbn [Nat.add]. exists t. rewrite <- Eb. auto.
Qed.

(** *** The score gate *)

Lemma matchDetection_low_score (generateID : nat -> string)
    (cfg : TrackerConfig) (now : Z) (st : TrackerState) (det : Detection) :
  (det_score det <? highScoreThreshold cfg)%float = true ->
  idsDrawn (matchDetection generateID cfg now st det) = idsDrawn st
  /\ map id (localTracks (matchDetection generateID cfg now st det))
     = map id (localTracks st).
Proof.
  intros Low.
  unfold matchDetection, createTrack. rewrite Low.
  destruct (findBest (localTracks st) det) as [bestIoU bestMatchIndex].
  destruct (iouThreshold cfg <? bestIoU)%float; [ | auto ].
  destruct bestMatchIndex as [ index | ]; [ | auto ].
  cbn [idsDrawn localTracks]. split; [ reflexivity | ].
  now apply map_id_updateAt.
Qed.

Lemma matchAll_low_score (generateID : nat -> string) (cfg : TrackerConfig)
    (now : Z) (detections : list Detection) :
  forall st : TrackerState,
    Forall (fun d => (det_score d <? highScoreThreshold cfg)%float = true)
      detections ->
    idsDrawn (fold_left (matchDetection generateID cfg now) detections st)
    = idsDrawn st
    /\ map id (localTracks
                 (fold_left (matchDetection generateID cfg now) detections st))
       = map id (localTracks st).
Proof.
  induction detections as [ | d ds IH ]; intros st F; [ split; reflexivity | ].
  inversion F as [ | ? ? Fd Fds ]; subst. cbn [fold_left].
  destruct (matchDetection_low_score generateID cfg now st d Fd) as [E1 E2].
  destruct (IH (matchDetection generateID cfg now st d) Fds) as [E3 E4].
  split; congruence.
Qed.

(** X2.  A call of [processFrame] in which every detection scores below
    [highScoreThreshold] creates no identity, whatever the boxes are: no
    identifier is drawn and every identifier in the live set afterwards
    was in it before. *)
Theorem low_scores_create_no_identity (generateID : nat -> string)
    (cfg : TrackerConfig) (video : Video) (now : Z) (m : TrackerModule) :
  Forall (fun d => (categoryScore d <? highScoreThreshold cfg)%float = true)
    (detected video) ->
  let m' := processFrame generateID cfg video now m in
  idsDrawn (tracks m') = idsDrawn (tracks m)
  /\ incl (map id (localTracks (tracks m')))
       (map id (localTracks (tracks m))).
Proof.
  intros Low. cbn zeta. rewrite processFrame_tracks.
  destruct (frameIsProcessed video m); [ | split; [ reflexivity | apply incl_refl ] ].
  unfold trackDetections, matchFrame. cbn [idsDrawn localTracks].
  set (dets := filter (geometricFilter cfg) _).
  assert (F : Forall (fun d => (det_score d <? highScoreThreshold cfg)%float
                               = true) dets).
  { apply Forall_forall. intros d I. unfold dets in I.
    apply filter_In in I. destruct I as [I _].
    apply in_map_iff in I. destruct I as (r & <- & I).
    rewrite Forall_forall in Low. exact (Low r I). }
  destruct (matchAll_low_score generateID cfg now dets
              {| localTracks := map clearMatched (localTracks (tracks m));
                 idsDrawn := idsDrawn (tracks m) |} F) as [E1 E2].
  cbn [idsDrawn localTracks] in E1, E2. split; [ exact E1 | ].
  intros uid I. unfold pruneTracks in I.
  apply map_id_filter_incl in I. rewrite E2, map_map in I. exact I.
Qed.

Lemma low_scores_create_no_identity_witness :
  let m' := processFrame tallyID TRACKER_CONFIG
              (frameWith 0 [shiftedPx]) 0 initializedTracker in
  idsDrawn (tracks m') = 0%nat
  /\ incl (map id (localTracks (tracks m'))) [].
Proof.
  apply (low_scores_create_no_identity tallyID TRACKER_CONFIG
           (frameWith 0 [shiftedPx]) 0 initializedTracker).
  repeat constructor.
Defined.

(** *** Identifiers in the live set *)

(** X3.  Provided [generateID] never repeats an identifier, after any
    calls of [processFrame] from the initialised tracker no two live
    tracks carry the same identifier, every live identifier is one of
    those drawn so far, and the published tracks have pairwise distinct
    identifiers too. *)
Theorem live_identifiers_are_distinct (generateID : nat -> string)
    (cfg : TrackerConfig)
    (generateID_inj : forall i j : nat, generateID i = generateID j -> i = j)
    (frames : list (Video * Z)) :
  let st := tracks (runFrames generateID cfg frames initializedTracker) in
  NoDup (map id (localTracks st))
  /\ Forall (fun t => exists k, (k < idsDrawn st)%nat /\ id t = generateID k)
       (localTracks st)
  /\ NoDup (map id (publishedTracks st)).
Proof.
  cbn zeta.
  destruct (runFrames_step generateID cfg generateID_inj frames
              initializedTracker (wellFormed_initial generateID))
    as [[N W] _].
  split; [ exact N | ]. split; [ exact W | ].
  unfold publishedTracks. now apply NoDup_map_id_filter.
Qed.

Lemma live_identifiers_are_distinct_witness :
  NoDup (map id
           (localTracks
              (tracks (runFrames tallyID TRACKER_CONFIG
                         [(frameWith 0 [personPx], 0)] initializedTracker)))).
Proof.
  apply (live_identifiers_are_distinct tallyID TRACKER_CONFIG tallyID_inj
           [(frameWith 0 [personPx], 0)]).
Defined.

(** *** The matched flag *)

Definition matchedNow (now : Z) (t : LocalTrack) : Prop :=
  matched t = true -> lastSeen t = now.

Lemma matchDetection_matchedNow (generateID : nat -> string)
    (cfg : TrackerConfig) (now : Z) (st : TrackerState) (det : Detection) :
  Forall (matchedNow now) (localTracks st) ->
  Forall (matchedNow now)
    (localTracks (matchDetection generateID cfg now st det)).
Proof.
  intros H.
  destruct (matchDetection_cases generateID cfg now st det)
    as [[index E] | [E | E]]; rewrite E; cbn [localTracks].
  - apply Forall_forall. intros t I.
    assert (G : Forall (fun t => matchedNow now t
                                 \/ lastSeen t = now) (localTracks st))
      by (eapply Forall_impl; [ | exact H ]; cbn beta; auto).
    assert (G' : Forall (fun t => matchedNow now t \/ lastSeen t = now)
                   (updateAt (updateTrack cfg det now) index (localTracks st))).
    { apply Forall_updateAt; [ | exact G ]. intros x _. now right. }
    rewrite Forall_forall in G'. destruct (G' t I) as [M | L]; [ exact M | ].
    intros _. exact L.
  - exact H.
  - apply Forall_app. split; [ exact H | ].
    constructor; [ | constructor ]. intros _. reflexivity.
Qed.

(** X4.  After a call of [processFrame] at time [now] that gets past its
    guards, [matched] is set only on tracks associated with a detection
    in this very call: every live track with [matched = true] has
    [lastSeen = now]. *)
Theorem matched_means_seen_now (generateID : nat -> string)
    (cfg : TrackerConfig) (video : Video) (now : Z) (m : TrackerModule) :
  frameIsProcessed video m = true ->
  Forall (fun t => matched t = true -> lastSeen t = now)
    (localTracks (tracks (processFrame generateID cfg video now m))).
Proof.
  intros P. rewrite processFrame_tracks, P.
  unfold trackDetections, matchFrame, pruneTracks. cbn [localTracks].
  apply Forall_forall. intros t I. apply filter_In in I. destruct I as [I _].
  revert t I. apply (proj1 (Forall_forall (matchedNow now) _)).
  set (start := {| localTracks := map clearMatched (localTracks (tracks m));
                   idsDrawn := idsDrawn (tracks m) |}).
  assert (S0 : Forall (matchedNow now) (localTracks start)).
  { cbn [start localTracks]. apply Forall_forall. intros t I.
    apply in_map_iff in I. destruct I as (u & <- & _). intros M.
    discriminate M. }
  clearbody start. revert start S0.
  induction (filter (geometricFilter cfg) _) as [ | d ds IH ];
    intros start S0; cbn [fold_left]; [ exact S0 | ].
  apply IH. now apply matchDetection_matchedNow.
Qed.

Lemma matched_means_seen_now_witness :
  Forall (fun t => matched t = true -> lastSeen t = 125)
    (localTracks
       (tracks (processFrame tallyID TRACKER_CONFIG
                  (frameWith 0.125 [personPx]) 125 initializedTracker))).
Proof.
  apply (matched_means_seen_now tallyID TRACKER_CONFIG
           (frameWith 0.125 [personPx]) 125 initializedTracker).
  reflexivity.
Defined.

(** *** What a live identity keeps *)

Definition keeps (t t' : LocalTrack) : Prop :=
  firstSeen t' = firstSeen t
  /\ consecutiveFrames t <= consecutiveFrames t'.

Definition carries (st st' : TrackerState) : Prop :=
  forall uid t t',
    findTrack uid (localTracks st) = Some t ->
    findTrack uid (localTracks st') = Some t' ->
    keeps t t'.

Lemma keeps_refl (t : LocalTrack) : keeps t t.
Proof. split; [ reflexivity | lia ]. Qed.

Lemma carries_refl (st : TrackerState) : carries st st.
Proof. intros uid t t' E E'. rewrite E in E'. injection E' as <-. apply keeps_refl. Qed.

Section Carrying.
Variable generateID : nat -> string.
Variable cfg : TrackerConfig.
Hypothesis generateID_inj :
  forall i j : nat, generateID i = generateID j -> i = j.

Lemma carries_trans (st st' st'' : TrackerState) :
  wellFormed generateID st ->
  follows generateID st st' -> follows generateID st' st'' ->
  carries st st' -> carries st' st'' -> carries st st''.
Proof.
  intros [_ W] [L1 _] [_ F2] C1 C2 uid t t'' E E''.
  destruct (findTrack uid (localTracks st')) as [ t' | ] eqn:E'.
  - destruct (C1 uid t t' E E') as [A1 B1].
    destruct (C2 uid t' t'' E' E'') as [A2 B2].
    split; [ congruence | lia ].
  - specialize (F2 uid). rewrite E' in F2. rewrite F2 in E''; [ discriminate | ].
    apply findTrack_id in E. destruct E as [<- I].
    rewrite Forall_forall in W. destruct (W t I) as (k & Hk & Ek).
    exists k. split; [ lia | exact Ek ].
Qed.

Lemma matchDetection_carries (now : Z) (st : TrackerState) (det : Detection) :
  carries st (matchDetection generateID cfg now st det).
Proof.
  intros uid t t' E E'.
  destruct (matchDetection_cases generateID cfg now st det)
    as [[index C] | [C | C]]; rewrite C in E'; cbn [localTracks] in E'.
  - pose proof (findTrack_updateAt uid (updateTrack cfg det now) index
                  (localTracks st) (fun t => eq_refl)) as U.
    rewrite E in U. destruct U as [U | U]; rewrite U in E';
      injection E' as <-; [ apply keeps_refl | ].
    split; cbn [updateTrack firstSeen consecutiveFrames]; [ reflexivity | lia ].
  - rewrite E in E'. injection E' as <-. apply keeps_refl.
  - rewrite findTrack_snoc, E in E'. injection E' as <-. apply keeps_refl.
Qed.

Lemma matchAll_carries (now : Z) (detections : list Detection) :
  forall st : TrackerState,
    wellFormed generateID st ->
    carries st (fold_left (matchDetection generateID cfg now) detections st).
Proof.
  induction detections as [ | d ds IH ]; intros st W; cbn [fold_left];
    [ apply carries_refl | ].
  destruct (matchDetection_step generateID cfg generateID_inj now st d W)
    as [W1 F1].
  destruct (matchAll_step generateID cfg generateID_inj now ds _ W1)
    as [_ F2].
  eapply carries_trans; eauto. apply matchDetection_carries.
Qed.

Lemma trackDetections_carries (detections : list Detection) (now : Z)
    (st : TrackerState) :
  wellFormed generateID st ->
  carries st (trackDetections generateID cfg detections now st).
Proof.
  intros W. unfold trackDetections, matchFrame.
  destruct (clearMatched_step generateID st W) as [W1 F1].
  destruct (matchAll_step generateID cfg generateID_inj now
              (filter (geometricFilter cfg) detections) _ W1) as [W2 F2].
  destruct (prune_step generateID cfg now _ W2) as [W3 F3].
  assert (C1 : carries st {| localTracks := map clearMatched (localTracks st);
                             idsDrawn := idsDrawn st |}).
  { intros uid t t' E E'. cbn [localTracks] in E'.
    rewrite findTrack_clearMatched, E in E'. injection E' as <-.
    split; cbn [clearMatched firstSeen consecutiveFrames];
      [ reflexivity | lia ]. }
  pose proof (matchAll_carries now (filter (geometricFilter cfg) detections)
                _ W1) as C2.
  set (mid := fold_left _ _ _) in *.
  assert (C3 : carries mid {| localTracks := pruneTracks cfg now (localTracks mid);
                              idsDrawn := idsDrawn mid |}).
  { intros uid t t' E E'. cbn [localTracks] in E'. unfold pruneTracks in E'.
    destruct W2 as [N _]. rewrite (findTrack_filter _ uid _ N), E in E'.
    destruct (withinGrace cfg now t); [ | discriminate ].
    injection E' as <-. apply keeps_refl. }
  eapply carries_trans; [ exact W | exact F1 | | exact C1 | ].
  - eapply follows_trans; [ exact W1 | exact F2 | exact F3 ].
  - eapply carries_trans; [ exact W1 | exact F2 | exact F3 | exact C2 | exact C3 ].
Qed.

Lemma runFrames_carries (frames : list (Video * Z)) :
  forall m : TrackerModule,
    wellFormed generateID (tracks m) ->
    carries (tracks m) (tracks (runFrames generateID cfg frames m)).
Proof.
  induction frames as [ | fr frames IH ]; intros m W;
    [ apply carries_refl | ].
  cbn [runFrames fold_left].
  destruct (processFrame_step generateID cfg generateID_inj (fst fr) (snd fr)
              m W) as [W1 F1].
  destruct (runFrames_step generateID cfg generateID_inj frames _ W1)
    as [_ F2].
  eapply carries_trans; [ exact W | exact F1 | exact F2 | | apply IH; exact W1 ].
  rewrite processFrame_tracks.
  destruct (frameIsProcessed (fst fr) m); [ | apply carries_refl ].
  now apply trackDetections_carries.
Qed.

End Carrying.

(** X5.  Provided [generateID] never repeats an identifier: between any
    two states of a run of [processFrame] calls, a track found under the
    same identifier has the same [firstSeen] and a [consecutiveFrames]
    count that has not gone down. *)
Theorem identity_keeps_firstSeen_and_count (generateID : nat -> string)
    (cfg : TrackerConfig)
    (generateID_inj : forall i j : nat, generateID i = generateID j -> i = j)
    (frames1 frames2 : list (Video * Z)) (uid : string) (t t' : LocalTrack) :
  let s1 := runFrames generateID cfg frames1 initializedTracker in
  let s2 := runFrames generateID cfg frames2 s1 in
  findTrack uid (localTracks (tracks s1)) = Some t ->
  findTrack uid (localTracks (tracks s2)) = Some t' ->
  firstSeen t' = firstSeen t
  /\ consecutiveFrames t <= consecutiveFrames t'.
Proof.
  cbn zeta. intros E E'.
  destruct (runFrames_step generateID cfg generateID_inj frames1
              initializedTracker (wellFormed_initial generateID)) as [W1 _].
  exact (runFrames_carries generateID cfg generateID_inj frames2 _ W1
           uid t t' E E').
Qed.

Lemma identity_keeps_firstSeen_and_count_witness :
  let t := mkTrack "T" personBox 0.9 0 0 true 1 false in
  let t' := mkTrack "T" personBox 0.9 0 125 true 2 false in
  findTrack "T"
    (localTracks
       (tracks (runFrames tallyID TRACKER_CONFIG
                  [(frameWith 0 [personPx], 0)] initializedTracker)))
  = Some t
  /\ firstSeen t' = firstSeen t
  /\ consecutiveFrames t <= consecutiveFrames t'.
Proof.
  cbn zeta. split; [ reflexivity | ].
  apply (identity_keeps_firstSeen_and_count tallyID TRACKER_CONFIG
           tallyID_inj [(frameWith 0 [personPx], 0)]
           [(frameWith 0.125 [personPx], 125)] "T"
           (mkTrack "T" personBox 0.9 0 0 true 1 false)
           (mkTrack "T" personBox 0.9 0 125 true 2 false));
    reflexivity.
Defined.

(** *** Disposal *)

(** X6.  After [disposeTracker] the tracker holds no track, and calls of
    [processFrame] change nothing until the detector is initialised
    again: the module stays as disposal left it and nothing is
    published. *)
Theorem disposed_tracker_stays_empty (generateID : nat -> string)
    (cfg : TrackerConfig) (frames : list (Video * Z)) (m : TrackerModule) :
  runFrames generateID cfg frames (disposeTracker m) = disposeTracker m
  /\ publishedTracks
       (tracks (runFrames generateID cfg frames (disposeTracker m))) = [].
Proof.
  assert (E : runFrames generateID cfg frames (disposeTracker m)
              = disposeTracker m).
  { induction frames as [ | fr frames IH ]; [ reflexivity | ].
    cbn [runFrames fold_left]. exact IH. }
  rewrite E. split; reflexivity.
Qed.

End TrackerMore.

Module DbMore.
Import Db DbFacts.

(** A history of calls on the database layer, each with the clock reading
    at which it runs. *)
Definition applyHistory (history : list (Z * DbCall)) (db : Database)
    : Database :=
  fold_left (fun d tc => applyCall (fst tc) d (snd tc)) history db.

(** *** Keys *)

Lemma putRow_keys (row : UserSession) (tbl : list UserSession) :
  map sessionId (putRow row tbl) = map sessionId tbl
  \/ (~ In (sessionId row) (map sessionId tbl)
      /\ map sessionId (putRow row tbl)
         = (map sessionId tbl ++ [sessionId row])%list).
Proof.
  induction tbl as [ | s tbl IH ]; cbn [putRow map].
  - right. split; [ intros [] | reflexivity ].
  - destruct (String.eqb_spec (sessionId s) (sessionId row)) as [E | N].
    + left. cbn [map]. now rewrite E.
    + cbn [map]. destruct IH as [IH | [Absent IH]].
      * left. now rewrite IH.
      * right. split; [ | cbn [app]; now rewrite IH ].
        intros [I | I]; [ contradiction | exact (Absent I) ].
Qed.

Lemma putRow_unique (row : UserSession) (tbl : list UserSession) :
  NoDup (map sessionId tbl) -> NoDup (map sessionId (putRow row tbl)).
Proof.
  intros N. destruct (putRow_keys row tbl) as [E | [Absent E]]; rewrite E;
    [ exact N | ].
  apply NoDup_app; [ exact N | repeat constructor; intros [] | ].
  intros a Ia [<- | []]. exact (Absent Ia).
Qed.

Lemma deleteRow_unique (sid : string) (tbl : list UserSession) :
  NoDup (map sessionId tbl) -> NoDup (map sessionId (deleteRow sid tbl)).
Proof.
  unfold deleteRow. induction tbl as [ | s tbl IH ]; [ auto | ].
  cbn [map filter]. intros N. inversion N as [ | ? ? Ns Nt ]; subst.
  destruct (negb (String.eqb (sessionId s) sid)); [ | auto ].
  cbn [map]. constructor; [ | auto ].
  intros I. apply Ns. apply in_map_iff in I. destruct I as (u & E & I).
  apply filter_In in I. apply in_map_iff. exists u. tauto.
Qed.

Lemma applyCall_unique (now : Z) (db : Database) (c : DbCall) :
  NoDup (map sessionId (sessions db)) ->
  NoDup (map sessionId (sessions (applyCall now db c))).
Proof.
  intros N. destruct c as [ s | s | s | s u t r ]; cbn [applyCall].
  - now apply putRow_unique.
  - unfold endSession, updateSessionHeartbeat.
    destruct (getRow s (sessions db)); [ now apply putRow_unique | exact N ].
  - now apply deleteRow_unique.
  - unfold addAnalysisLog.
    destruct (getRow s (sessions db)); [ now apply putRow_unique | exact N ].
Qed.

(** X7.  [sessionId] stays a key of the session table: whatever calls
    are made on the database layer, at whatever times, a table without
    two rows of the same [sessionId] still has none afterwards. *)
Theorem sessionId_stays_a_key (history : list (Z * DbCall)) (db : Database) :
  NoDup (map sessionId (sessions db)) ->
  NoDup (map sessionId (sessions (applyHistory history db))).
Proof.
  unfold applyHistory. revert db.
  induction history as [ | [t c] history IH ]; intros db N; [ exact N | ].
  cbn [fold_left fst snd]. apply IH. now apply applyCall_unique.
Qed.

Lemma sessionId_stays_a_key_witness :
  NoDup (map sessionId
           (sessions
              (applyHistory
                 [(0, StartSession "a"); (5, StartSession "b");
                  (9, StartSession "a"); (12, DeleteSession "b")]
                 emptyDatabase))).
Proof.
  apply (sessionId_stays_a_key
           [(0, StartSession "a"); (5, StartSession "b");
            (9, StartSession "a"); (12, DeleteSession "b")] emptyDatabase).
  constructor.
Defined.

(** *** The stored duration *)





(** *** Logging appends *)

Lemma addAnalysisLog_row (sid uid text res : string) (now : Z)
    (db : Database) (row : UserSession) :
  getRow sid (sessions db) = Some row ->
  getRow sid (sessions (addAnalysisLog sid uid text res now db))
  = Some {| sessionId := sessionId row; firstSeen := firstSeen row;
            lastSeen := now;
            duration := durationSeconds (firstSeen row) now;
            events :=
              events row
              ++ [{| timestamp := now; targetUid := uid; prompt := text;
                     result := res |}] |}.
Proof.
  intros E. unfold addAnalysisLog. rewrite E. cbn [withSessions sessions].
  rewrite <- (getRow_key _ _ _ E) at 1.
  apply (getRow_putRow_same
           {| sessionId := sessionId row; firstSeen := firstSeen row;
              lastSeen := now;
              duration := durationSeconds (firstSeen row) now;
              events := events row ++ [mkEvent now uid text res] |}).
Qed.

(** The events that a history logs to session [sid], in order. *)
Fixpoint loggedFor (sid : string) (history : list (Z * DbCall))
    : list AnalysisEvent :=
  match history with
  | [] => []
  | (t, AddAnalysisLog s uid text res) :: rest =>
      if String.eqb s sid
      then {| timestamp := t; targetUid := uid; prompt := text;
              result := res |} :: loggedFor sid rest
      else loggedFor sid rest
  | _ :: rest => loggedFor sid rest
  end.

(** Heartbeats and log entries only. *)
Definition keepsRows (tc : Z * DbCall) : Prop :=
  match snd tc with
  | EndSession _ => True
  | AddAnalysisLog _ _ _ _ => True
  | _ => False
  end.

(** X9.  The event list of a stored session is append-only under
    heartbeats and log entries: after any such calls the session is still
    stored with its [firstSeen] unchanged, and its events are the earlier
    ones followed by exactly the entries logged to it, in the order of
    the calls and stamped with their times. *)
Theorem events_are_append_only (history : list (Z * DbCall)) :
  forall (db : Database) (sid : string) (row : UserSession),
    Forall keepsRows history ->
    getRow sid (sessions db) = Some row ->
    exists row',
      getRow sid (sessions (applyHistory history db)) = Some row'
      /\ firstSeen row' = firstSeen row
      /\ events row' = (events row ++ loggedFor sid history)%list.
Proof.
  unfold applyHistory.
  induction history as [ | [t c] history IH ]; intros db sid row F E.
  - exists row. cbn [fold_left loggedFor]. rewrite app_nil_r. auto.
  - inversion F as [ | ? ? Fc Frest ]; subst. cbn [fold_left fst snd].
    destruct c as [ s | s | s | s u x r ]; cbn [keepsRows snd] in Fc;
      try contradiction.
    + cbn [loggedFor].
      destruct (String.eqb_spec s sid) as [-> | N].
      * destruct (IH (applyCall t db (EndSession sid)) sid (heartbeat t row)
                    Frest (endSession_row sid t db row E))
          as (row' & G & A & B).
        exists row'. auto.
      * apply IH; [ exact Frest | ].
        now rewrite applyCall_other.
    + cbn [loggedFor].
      destruct (String.eqb_spec s sid) as [-> | N].
      * destruct (IH (applyCall t db (AddAnalysisLog sid u x r)) sid _
                    Frest (addAnalysisLog_row sid u x r t db row E))
          as (row' & G & A & B).
        exists row'. split; [ exact G | ]. split; [ exact A | ].
        rewrite B. cbn [events]. now rewrite <- app_assoc.
      * apply IH; [ exact Frest | ].
        now rewrite applyCall_other.
Qed.

Lemma events_are_append_only_witness :
  exists row',
    getRow "a"
      (sessions
         (applyHistory
            [(7, AddAnalysisLog "a" "T" "p" "{}"); (8, EndSession "a");
             (9, AddAnalysisLog "b" "T1" "p" "{}")]
            (startSession "a" 0 emptyDatabase)))
    = Some row'
    /\ firstSeen row' = 0
    /\ events row' = [mkEvent 7 "T" "p" "{}"].
Proof.
  apply (events_are_append_only
           [(7, AddAnalysisLog "a" "T" "p" "{}"); (8, EndSession "a");
            (9, AddAnalysisLog "b" "T1" "p" "{}")]
           (startSession "a" 0 emptyDatabase) "a"
           {| sessionId := "a"; firstSeen := 0; lastSeen := 0;
              duration := 0; events := [] |}).
  - repeat constructor.
  - reflexivity.
Defined.

(** *** Writing, reading and deleting a session *)

Lemma getRow_deleteRow_same (sid : string) (tbl : list UserSession) :
  getRow sid (deleteRow sid tbl) = None.
Proof.
  unfold getRow, deleteRow. induction tbl as [ | s tbl IH ]; [ reflexivity | ].
  cbn [filter]. destruct (String.eqb (sessionId s) sid) eqn:E; cbn [negb];
    [ exact IH | ].
  cbn [find]. now rewrite E.
Qed.

Lemma deleteRow_absent (sid : string) (tbl : list UserSession) :
  getRow sid tbl = None -> deleteRow sid tbl = tbl.
Proof.
  unfold getRow, deleteRow. induction tbl as [ | s tbl IH ]; [ reflexivity | ].
  cbn [find filter]. destruct (String.eqb (sessionId s) sid); [ discriminate | ].
  cbn [negb]. intros H. now rewrite IH.
Qed.

(** X10.  [startSession] followed by a lookup of the same identifier
    gives a fresh row (no events, duration 0, both times the time of the
    call), also when the identifier was stored before; [deleteSession]
    followed by a lookup gives nothing; and neither changes what a
    lookup of another identifier gives. *)
Theorem start_lookup_delete (sid other : string) (now : Z) (db : Database) :
  getRow sid (sessions (startSession sid now db))
  = Some {| sessionId := sid; firstSeen := now; lastSeen := now;
            duration := 0; events := [] |}
  /\ getRow sid (sessions (deleteSession sid db)) = None
  /\ getRow sid (sessions (deleteSession sid (startSession sid now db)))
     = None
  /\ (other <> sid ->
      getRow other (sessions (startSession sid now db))
      = getRow other (sessions db)
      /\ getRow other (sessions (deleteSession sid db))
         = getRow other (sessions db)).
Proof.
  split; [ | split; [ | split ] ].
  - unfold startSession. cbn [withSessions sessions].
    apply (getRow_putRow_same
             {| sessionId := sid; firstSeen := now; lastSeen := now;
                duration := 0; events := [] |}).
  - apply getRow_deleteRow_same.
  - apply getRow_deleteRow_same.
  - intros N. split.
    + apply (applyCall_other now db (StartSession sid)). cbn. congruence.
    + apply (applyCall_other now db (DeleteSession sid)). cbn. congruence.
Qed.

(** X11.  Calls about a session that is not stored change nothing: a
    heartbeat, the end of a session, a log entry and a deletion for an
    unknown [sessionId] all leave the session table as it was (the log
    entry is dropped, no row is created). *)
Theorem unknown_session_is_ignored (sid uid text res : string) (now : Z)
    (db : Database) :
  getRow sid (sessions db) = None ->
  updateSessionHeartbeat sid now db = db
  /\ endSession sid now db = db
  /\ addAnalysisLog sid uid text res now db = db
  /\ sessions (deleteSession sid db) = sessions db.
Proof.
  intros E. unfold endSession, updateSessionHeartbeat, addAnalysisLog.
  rewrite E. repeat split.
  cbn [deleteSession withSessions sessions]. now apply deleteRow_absent.
Qed.

Lemma unknown_session_is_ignored_witness :
  addAnalysisLog "gone" "T" "p" "{}" 5 (startSession "a" 0 emptyDatabase)
  = startSession "a" 0 emptyDatabase.
Proof.
  apply (unknown_session_is_ignored "gone" "T" "p" "{}" 5
           (startSession "a" 0 emptyDatabase)).
  reflexivity.
Defined.

(** *** The latest hour with summaries *)





End DbMore.

Module AggregatorMore.
Import Db Aggregator AggregatorFacts.

(** *** Counting *)

(** The number of occurrences of [v] in [l]. *)
Fixpoint occ (v : string) (l : list string) : Z :=
  match l with
  | [] => 0
  | x :: rest => (if String.eqb x v then 1 else 0) + occ v rest
  end.

Lemma occ_app (v : string) (l1 l2 : list string) :
  occ v (l1 ++ l2) = occ v l1 + occ v l2.
Proof.
  induction l1 as [ | x l1 IH ]; cbn [app occ]; [ reflexivity | ].
  rewrite IH. lia.
Qed.

Lemma occ_nonneg (v : string) (l : list string) : 0 <= occ v l.
Proof.
  induction l as [ | x l IH ]; cbn [occ]; [ lia | ].
  destruct (String.eqb x v); lia.
Qed.

Lemma occ_pos_In (v : string) (l : list string) : 0 < occ v l <-> In v l.
Proof.
  induction l as [ | x l IH ]; cbn [occ In]; [ split; [ lia | tauto ] | ].
  pose proof (occ_nonneg v l).
  destruct (String.eqb_spec x v) as [E | N]; split; intros H'.
  - now left.
  - lia.
  - right. apply IH. lia.
  - destruct H' as [E | I]; [ contradiction | ]. apply IH in I. lia.
Qed.

Lemma getCount_setCount (key other : string) (count : Z)
    (counts : list (string * Z)) :
  getCount other (setCount key count counts)
  = if String.eqb key other then Some count else getCount other counts.
Proof.
  unfold getCount.
  induction counts as [ | [k c] counts IH ]; cbn [setCount find fst].
  - destruct (String.eqb key other); reflexivity.
  - destruct (String.eqb_spec k key) as [E | N]; cbn [find fst].
    + subst k. destruct (String.eqb key other); reflexivity.
    + destruct (String.eqb_spec k other) as [E' | N'].
      * subst k. destruct (String.eqb_spec key other); [ congruence | ].
        reflexivity.
      * exact IH.
Qed.

(** *** The mode *)

(** The state of the loop of [computeMode] after the values [seen]: the
    map holds the counts, no count is above [maxCount], and [mode] was
    set at the first point where a running count reached [maxCount]. *)
Definition modeState (seen : list string) (counts : list (string * Z))
    (maxCount : Z) (mode : string) : Prop :=
  (forall v, orElse (getCount v counts) 0 = occ v seen)
  /\ (forall v, occ v seen <= maxCount)
  /\ ((seen = [] /\ maxCount = 0)
      \/ (occ mode seen = maxCount
          /\ exists before after,
               seen = (before ++ mode :: after)%list
               /\ occ mode before + 1 = maxCount
               /\ forall v, occ v before < maxCount)).

Lemma computeModeLoop_spec (values : list string) :
  forall seen counts maxCount mode,
    modeState seen counts maxCount mode ->
    (seen ++ values)%list <> [] ->
    let r := computeModeLoop values counts maxCount mode in
    let all := (seen ++ values)%list in
    (forall v, occ v all <= occ r all)
    /\ exists before after,
         all = (before ++ r :: after)%list
         /\ occ r before + 1 = occ r all
         /\ forall v, occ v before < occ r all.
Proof.
  induction values as [ | x values IH ];
    intros seen counts maxCount mode (Hc & Hmax & Hmode) Hne; cbn zeta.
  - cbn [computeModeLoop]. rewrite app_nil_r in *.
    destruct Hmode as [[E _] | (Em & before & after & Es & Eb & Lb)];
      [ contradiction | ].
    rewrite Em. split; [ exact Hmax | ].
    exists before, after. auto.
  - cbn [computeModeLoop]. rewrite (Hc x).
    replace (seen ++ x :: values)%list with ((seen ++ [x]) ++ values)%list
      by (rewrite <- app_assoc; reflexivity).
    assert (Occ : forall v, occ v (seen ++ [x])
                            = occ v seen + (if String.eqb x v then 1 else 0)).
    { intros v. rewrite occ_app. cbn [occ]. lia. }
    assert (Counts : forall v,
               orElse (getCount v (setCount x (occ x seen + 1) counts)) 0
               = occ v (seen ++ [x])).
    { intros v. rewrite getCount_setCount, Occ.
      destruct (String.eqb_spec x v) as [<- | N]; cbn [orElse];
        [ lia | rewrite Hc; lia ]. }
    assert (Ne : ((seen ++ [x]) ++ values)%list <> [])
      by (destruct seen; discriminate).
    destruct (Z.ltb_spec maxCount (occ x seen + 1)) as [Up | Keep].
    + apply IH; [ | exact Ne ]. split; [ exact Counts | ]. split.
      * intros v. rewrite Occ. specialize (Hmax v).
        destruct (String.eqb_spec x v) as [<- | N]; lia.
      * right. split.
        -- rewrite Occ, String.eqb_refl. reflexivity.
        -- exists seen, []. repeat split.
           intros v. specialize (Hmax v). lia.
    + apply IH; [ | exact Ne ]. split; [ exact Counts | ]. split.
      * intros v. rewrite Occ. specialize (Hmax v).
        destruct (String.eqb_spec x v) as [<- | N]; lia.
      * right.
        destruct Hmode as [[E Z0] | (Em & before & after & Es & Eb & Lb)].
        -- subst seen. cbn [occ] in Keep. lia.
        -- assert (N : x <> mode) by (intros ->; lia).
           split.
           ++ rewrite Occ.
              destruct (String.eqb_spec x mode); [ contradiction | lia ].
           ++ exists before, (after ++ [x])%list. repeat split; auto.
              rewrite Es, <- app_assoc. reflexivity.
Qed.

(** X13.  [computeMode] of an empty list is ["unknown"].  Of a non-empty
    list it is a most frequent value of the list, and among the most
    frequent values the one whose running count reaches the highest
    count first: at the occurrence that brings it there, no value has
    yet been seen that many times. *)
Theorem computeMode_is_first_to_the_top (values : list string) :
  (values = [] -> computeMode values = "unknown")
  /\ (values <> [] ->
      let r := computeMode values in
      In r values
      /\ (forall v, occ v values <= occ r values)
      /\ exists before after,
           values = (before ++ r :: after)%list
           /\ occ r before + 1 = occ r values
           /\ forall v, occ v before < occ r values).
Proof.
  split; [ intros ->; reflexivity | ].
  intros Ne. cbn zeta.
  destruct values as [ | v0 values ]; [ contradiction | ].
  unfold computeMode.
  destruct (computeModeLoop_spec (v0 :: values) [] [] 0 v0) as [Max First].
  - split; [ reflexivity | ]. split; [ intros v; cbn; lia | ].
    left. auto.
  - discriminate.
  - cbn zeta in Max, First. cbn [app] in Max, First.
    split; [ | split; [ exact Max | exact First ] ].
    destruct First as (before & after & E & _). rewrite E at 2.
    apply in_or_app. right. now left.
Qed.

Lemma computeMode_is_first_to_the_top_witness :
  In (computeMode ["a"; "b"; "b"; "a"]) ["a"; "b"; "b"; "a"]
  /\ computeMode ["a"; "b"; "b"; "a"] = "b".
Proof.
  destruct (computeMode_is_first_to_the_top ["a"; "b"; "b"; "a"])
    as [_ Mode].
  destruct (Mode ltac:(discriminate)) as (I & _).
  split; [ exact I | reflexivity ].
Defined.

(** *** Terms *)

Fixpoint allChars (p : ascii -> bool) (text : string) : bool :=
  match text with
  | EmptyString => true
  | String c rest => p c && allChars p rest
  end.

Definition isUpperAscii (c : ascii) : bool :=
  let n := nat_of_ascii c in (65 <=? n)%nat && (n <=? 90)%nat.

(** A term as the frequency map counts it: not empty, without a
    separator, without an upper-case ASCII letter. *)
Definition isTerm (term : string) : Prop :=
  term <> EmptyString
  /\ allChars (fun c => negb (isSeparator c)) term = true
  /\ allChars (fun c => negb (isUpperAscii c)) term = true.

Lemma allChars_append (p : ascii -> bool) (a b : string) :
  allChars p (a ++ b) = allChars p a && allChars p b.
Proof.
  induction a as [ | c a IH ]; cbn [append allChars]; [ reflexivity | ].
  rewrite IH. now rewrite andb_assoc.
Qed.

Lemma toLowerCaseAscii_not_upper (c : ascii) :
  isUpperAscii (toLowerCaseAscii c) = false.
Proof.
  destruct c as [[] [] [] [] [] [] [] []]; reflexivity.
Qed.

Lemma toLowerCaseAscii_not_separator (c : ascii) :
  isSeparator c = false -> isSeparator (toLowerCaseAscii c) = false.
Proof.
  destruct c as [[] [] [] [] [] [] [] []]; intros H;
    try reflexivity; discriminate H.
Qed.

Lemma flushTerm_Forall (P : string -> Prop) (term : string)
    (terms : list string) :
  (term <> EmptyString -> P term) -> Forall P terms ->
  Forall P (flushTerm term terms).
Proof.
  intros Pt F. destruct term; cbn [flushTerm]; [ exact F | ].
  constructor; [ apply Pt; discriminate | exact F ].
Qed.

Lemma splitTerms_isTerm (raw : string) :
  forall term,
    allChars (fun c => negb (isSeparator c)) term = true ->
    allChars (fun c => negb (isUpperAscii c)) term = true ->
    Forall isTerm (splitTerms raw term).
Proof.
  induction raw as [ | c raw IH ]; intros term Hs Hu; cbn [splitTerms].
  - apply flushTerm_Forall; [ | constructor ]. intros N. now split.
  - destruct (isSeparator c) eqn:E.
    + apply flushTerm_Forall; [ intros N; now split | ].
      now apply IH.
    + apply IH; rewrite allChars_append, ?Hs, ?Hu; cbn [allChars andb].
      * now rewrite toLowerCaseAscii_not_separator.
      * now rewrite toLowerCaseAscii_not_upper.
Qed.

Lemma splitTerms_separators (raw : string) :
  allChars isSeparator raw = true -> splitTerms raw EmptyString = [].
Proof.
  induction raw as [ | c raw IH ]; [ reflexivity | ]. cbn [allChars splitTerms].
  intros H. apply andb_true_iff in H. destruct H as [Hc Hr].
  rewrite Hc. cbn [flushTerm]. now apply IH.
Qed.

(** X14.  Every term that [buildFashionFrequencyMap] cuts out of a value
    is non-empty, holds no separator (comma, slash, blank, tab or line
    break) and no upper-case ASCII letter; a value made of separators
    only, or an empty one, gives no term. *)
Theorem terms_are_clean (raw : string) :
  Forall isTerm (splitTerms raw EmptyString)
  /\ (allChars isSeparator raw = true -> splitTerms raw EmptyString = []).
Proof.
  split; [ now apply splitTerms_isTerm | apply splitTerms_separators ].
Qed.

(** *** The frequency map *)







(** *** Summaries *)

Definition parses (rt : Runtime) (event : AnalysisEvent) : bool :=
  match parseEventResult rt event with
  | Some _ => true
  | None => false
  end.

Definition withEvents (evs : list AnalysisEvent) (s : UserSession)
    : UserSession :=
  {| sessionId := sessionId s; firstSeen := firstSeen s;
     lastSeen := lastSeen s; duration := duration s; events := evs |}.

Lemma successes_filter (rt : Runtime) (evs : list AnalysisEvent) :
  successes (map (parseEventResult rt) (filter (parses rt) evs))
  = successes (map (parseEventResult rt) evs).
Proof.
  induction evs as [ | e evs IH ]; [ reflexivity | ].
  cbn [filter map]. unfold parses at 1.
  destruct (parseEventResult rt e) as [ p | ] eqn:E; cbn [map successes].
  - rewrite E. cbn [successes]. now rewrite IH.
  - exact IH.
Qed.

(** X16.  Events whose payload does not parse have no effect on the
    summary of a session: the summary is that of the session with those
    events removed.  When no event parses (in particular when there is
    none) the two modes are ["unknown"] and the frequency map is
    empty. *)
Theorem unparsed_events_are_skipped (rt : Runtime) (s : UserSession) :
  buildSummarizedSession rt s
  = buildSummarizedSession rt (withEvents (filter (parses rt) (events s)) s)
  /\ (filter (parses rt) (events s) = [] ->
      gender (buildSummarizedSession rt s) = "unknown"
      /\ age_group (buildSummarizedSession rt s) = "unknown"
      /\ fashion_style (buildSummarizedSession rt s) = JSON_stringify rt []).
Proof.
  assert (E : buildSummarizedSession rt s
              = buildSummarizedSession rt
                  (withEvents (filter (parses rt) (events s)) s)).
  { unfold buildSummarizedSession.
    cbn [withEvents events sessionId firstSeen lastSeen].
    now rewrite successes_filter. }
  split; [ exact E | ].
  intros N. rewrite E, N. repeat split.
Qed.

(** X17.  The duration of a summary is the span from [firstSeen] to
    [lastSeen] in seconds rounded to the nearest integer, halves upwards:
    in milliseconds the span lies from 500 below the duration
    (inclusive) to 500 above it (exclusive). *)
Theorem summary_duration_is_rounded (rt : Runtime) (s : UserSession) :
  let d := ss_duration (buildSummarizedSession rt s) in
  1000 * d - 500 <= lastSeen s - firstSeen s < 1000 * d + 500.
Proof.
  cbn zeta. cbn [buildSummarizedSession ss_duration]. unfold Math_round.
  set (span := lastSeen s - firstSeen s).
  set (q := (inject_Z span / 1000 + (1 # 2))%Q).
  pose proof (Qfloor_le q) as Lo. pose proof (Qlt_floor q) as Hi.
  set (d := Qfloor q) in *.
  assert (Q1 : (inject_Z (1000 * d - 500) <= inject_Z span)%Q).
  { unfold Z.sub. rewrite inject_Z_plus, inject_Z_mult.
    change (inject_Z 1000) with 1000%Q. change (inject_Z (- (500))) with (-500)%Q.
    unfold q in Lo.
    assert (L : (inject_Z d - (1 # 2) <= inject_Z span / 1000)%Q) by lra.
    apply (Qmult_le_compat_r _ _ 1000) in L; [ | lra ].
    assert (M : (inject_Z span / 1000 * 1000 == inject_Z span)%Q) by (field).
    rewrite M in L. lra. }
  assert (Q2 : (inject_Z span < inject_Z (1000 * d + 500))%Q).
  { rewrite inject_Z_plus, inject_Z_mult.
    change (inject_Z 1000) with 1000%Q. change (inject_Z 500) with 500%Q.
    unfold q in Hi. rewrite inject_Z_plus in Hi.
    change (inject_Z 1) with 1%Q in Hi.
    assert (L : (inject_Z span / 1000 < inject_Z d + (1 # 2))%Q) by lra.
    apply (Qmult_lt_compat_r _ _ 1000) in L; [ | lra ].
    assert (M : (inject_Z span / 1000 * 1000 == inject_Z span)%Q) by (field).
    rewrite M in L. lra. }
  rewrite <- Zle_Qle in Q1. rewrite <- Zlt_Qlt in Q2. lia.
Qed.

(** *** Hour floors *)


(** *** Checking again *)

(** X19.  A check moves the stored mark forward or leaves it, and a
    second check within the same hour, or with a clock that has gone
    back, does nothing: it aggregates no hour and leaves the storage as
    the first check left it. *)
Theorem second_check_does_nothing (rt : Runtime) (now now' : Z)
    (st st1 : Storage) (hours : list Z) :
  checkAndTriggerAggregation rt now st = Some (hours, st1) ->
  (exists mark,
     lastProcessedHour st1 = Some mark
     /\ getHourFloor rt now <= mark
     /\ forall old, lastProcessedHour st = Some old -> old <= mark)
  /\ (getHourFloor rt now' <= getHourFloor rt now ->
      checkAndTriggerAggregation rt now' st1 = Some ([], st1)).
Proof.
  intros E.
  assert (M : exists mark,
             lastProcessedHour st1 = Some mark
             /\ getHourFloor rt now <= mark
             /\ forall old, lastProcessedHour st = Some old -> old <= mark).
  { unfold checkAndTriggerAggregation in E.
    destruct (lastProcessedHour st) as [ old | ] eqn:L.
    - destruct (Z.ltb_spec old (getHourFloor rt now)) as [Lt | Ge].
      + destruct (aggregateMissedHours _ rt old _ _) as [[hs db'] | ];
          [ | discriminate ].
        injection E as _ <-. exists (getHourFloor rt now).
        cbn [lastProcessedHour]. repeat split; [ lia | ].
        intros ? [= <-]. lia.
      + injection E as _ <-. exists old. rewrite L.
        repeat split; [ lia | ]. intros ? [= <-]. lia.
    - injection E as _ <-. exists (getHourFloor rt now).
      cbn [lastProcessedHour]. repeat split; [ lia | discriminate ]. }
  split; [ exact M | ].
  destruct M as (mark & L & G & _). intros Back.
  unfold checkAndTriggerAggregation. rewrite L.
  destruct (Z.ltb_spec mark (getHourFloor rt now')); [ lia | reflexivity ].
Qed.

Lemma second_check_does_nothing_witness :
  checkAndTriggerAggregation utcRuntime (2 * HOUR_MS + 900000)
    {| database := emptyDatabase; lastProcessedHour := Some (2 * HOUR_MS) |}
  = Some ([], {| database := emptyDatabase;
                 lastProcessedHour := Some (2 * HOUR_MS) |}).
Proof.
  destruct (second_check_does_nothing utcRuntime (2 * HOUR_MS + 300000)
              (2 * HOUR_MS + 900000)
              {| database := emptyDatabase; lastProcessedHour := Some 0 |}
              {| database := emptyDatabase;
                 lastProcessedHour := Some (2 * HOUR_MS) |}
              [0; HOUR_MS] eq_refl) as [_ Again].
  apply Again. vm_compute. discriminate.
Defined.

(** *** Hours and sessions *)

(** X20.  The hourly windows of a catch-up neither skip nor repeat a
    session: a stored session whose [firstSeen] lies between the old
    mark and [n] hours after it is returned by [getSessionsByHour] for
    exactly one of the [n] hours that the loop aggregates. *)
Theorem each_session_falls_in_one_hour (db : Database) (mark : Z) (n : nat)
    (s : UserSession) :
  In s (sessions db) ->
  mark <= firstSeen s < mark + Z.of_nat n * HOUR_MS ->
  exists h,
    In h (hoursFrom mark n)
    /\ In s (getSessionsByHour h db)
    /\ forall h', In h' (hoursFrom mark n) ->
                  In s (getSessionsByHour h' db) -> h' = h.
Proof.
  intros I [Lo Hi]. pose proof HOUR_MS_pos as HP.
  set (q := (firstSeen s - mark) / HOUR_MS).
  pose proof (Z.div_mod (firstSeen s - mark) HOUR_MS ltac:(discriminate)) as D.
  pose proof (Z.mod_pos_bound (firstSeen s - mark) HOUR_MS HP) as B.
  fold q in D.
  assert (Q0 : 0 <= q) by (apply Z.div_pos; lia).
  assert (Qn : q < Z.of_nat n) by nia.
  assert (W : forall h, In s (getSessionsByHour h db)
                        <-> h <= firstSeen s < h + HOUR_MS).
  { intros h. unfold getSessionsByHour.
    rewrite filter_In, andb_true_iff, Z.leb_le, Z.ltb_lt. tauto. }
  exists (mark + Z.of_nat (Z.to_nat q) * HOUR_MS). split; [ | split ].
  - apply hoursFrom_In. lia.
  - apply W. rewrite Z2Nat.id by lia. lia.
  - intros h' Ih' Is'. apply W in Is'.
    unfold hoursFrom in Ih'. apply in_map_iff in Ih'.
    destruct Ih' as (k & <- & _). rewrite Z2Nat.id by lia.
    assert (Z.of_nat k = q) by nia. congruence.
Qed.

Lemma each_session_falls_in_one_hour_witness :
  exists h,
    In h (hoursFrom 0 2)
    /\ In visit (getSessionsByHour h
                   {| sessions := [visit; glimpse]; summarized_sessions := [] |})
    /\ forall h', In h' (hoursFrom 0 2) ->
                  In visit
                    (getSessionsByHour h'
                       {| sessions := [visit; glimpse];
                          summarized_sessions := [] |}) -> h' = h.
Proof.
  apply (each_session_falls_in_one_hour
           {| sessions := [visit; glimpse]; summarized_sessions := [] |}
           0 2 visit).
  - now left.
  - vm_compute. split; [ discriminate | reflexivity ].
Defined.

(** *** Summaries after aggregation *)

Definition getSummary (sid : string) (tbl : list SummarizedSession)
    : option SummarizedSession :=
  find (fun r => String.eqb (ss_sessionId r) sid) tbl.

Lemma getSummary_putSummary_same (row : SummarizedSession)
    (tbl : list SummarizedSession) :
  getSummary (ss_sessionId row) (putSummary row tbl) = Some row.
Proof.
  unfold getSummary. induction tbl as [ | r tbl IH ]; cbn [putSummary find].
  - now rewrite String.eqb_refl.
  - destruct (String.eqb (ss_sessionId r) (ss_sessionId row)) eqn:E;
      cbn [find].
    + now rewrite String.eqb_refl.
    + rewrite E. exact IH.
Qed.

Lemma getSummary_putSummary_other (sid : string) (row : SummarizedSession)
    (tbl : list SummarizedSession) :
  ss_sessionId row <> sid ->
  getSummary sid (putSummary row tbl) = getSummary sid tbl.
Proof.
  intros N. unfold getSummary.
  induction tbl as [ | r tbl IH ]; cbn [putSummary find].
  - destruct (String.eqb_spec (ss_sessionId row) sid); [ contradiction | ].
    reflexivity.
  - destruct (String.eqb_spec (ss_sessionId r) (ss_sessionId row)) as [E | NE];
      cbn [find].
    + destruct (String.eqb_spec (ss_sessionId row) sid); [ contradiction | ].
      destruct (String.eqb_spec (ss_sessionId r) sid); [ congruence | ].
      reflexivity.
    + destruct (String.eqb (ss_sessionId r) sid); [ reflexivity | exact IH ].
Qed.

Lemma bulkSave_lookup (written : list SummarizedSession) :
  forall (tbl : list SummarizedSession) (sid : string),
    NoDup (map ss_sessionId written) ->
    getSummary sid (fold_left (fun t row => putSummary row t) written tbl)
    = match getSummary sid written with
      | Some row => Some row
      | None => getSummary sid tbl
      end.
Proof.
  induction written as [ | w written IH ]; intros tbl sid N; [ reflexivity | ].
  cbn [map] in N. inversion N as [ | ? ? Nw Nrest ]; subst.
  cbn [fold_left]. rewrite (IH _ sid Nrest).
  unfold getSummary at 3. cbn [find].
  fold (getSummary sid written).
  destruct (String.eqb_spec (ss_sessionId w) sid) as [E | NE].
  - subst sid.
    destruct (getSummary (ss_sessionId w) written) as [ r | ] eqn:G.
    + exfalso. apply Nw. apply find_some in G. destruct G as [I K].
      apply String.eqb_eq in K. rewrite <- K. now apply in_map.
    + apply getSummary_putSummary_same.
  - destruct (getSummary sid written); [ reflexivity | ].
    now apply getSummary_putSummary_other.
Qed.

Lemma getSummary_built (rt : Runtime) (chosen : list UserSession)
    (s : UserSession) :
  NoDup (map sessionId chosen) -> In s chosen ->
  getSummary (sessionId s) (map (buildSummarizedSession rt) chosen)
  = Some (buildSummarizedSession rt s).
Proof.
  unfold getSummary.
  induction chosen as [ | c chosen IH ]; intros N I; [ destruct I | ].
  cbn [map] in N. inversion N as [ | ? ? Nc Nrest ]; subst.
  cbn [map find buildSummarizedSession ss_sessionId].
  destruct I as [-> | I].
  - now rewrite String.eqb_refl.
  - destruct (String.eqb_spec (sessionId c) (sessionId s)) as [E | _].
    + exfalso. apply Nc. rewrite E. now apply in_map.
    + now apply IH.
Qed.

Lemma NoDup_map_filter {A B : Type} (f : A -> B) (q : A -> bool)
    (l : list A) :
  NoDup (map f l) -> NoDup (map f (filter q l)).
Proof.
  induction l as [ | a l IH ]; [ auto | ].
  cbn [map filter]. intros N. inversion N as [ | ? ? Na Nl ]; subst.
  destruct (q a); [ | auto ]. cbn [map]. constructor; [ | auto ].
  intros I. apply Na. apply in_map_iff in I. destruct I as (x & E & Ix).
  apply filter_In in Ix. apply in_map_iff. exists x. tauto.
Qed.

(** X21.  With [sessionId] a key of the session table: after
    [aggregateHourlyData] for an hour, every stored session of that hour
    that has events has its summary stored under its identifier; after
    [aggregateAllData] so has every stored session with events.  Both
    leave the session table as it was, and the number each returns is
    the number of sessions it summarized. *)
Theorem aggregation_stores_each_summary (rt : Runtime) (db : Database)
    (hour : Z) :
  NoDup (map sessionId (sessions db)) ->
  let hourly := aggregateHourlyData rt hour db in
  (forall s, In s (getSessionsByHour hour db) -> events s <> [] ->
     getSummary (sessionId s) (summarized_sessions (snd hourly))
     = Some (buildSummarizedSession rt s))
  /\ sessions (snd hourly) = sessions db
  /\ fst hourly
     = Z.of_nat (List.length (filter hasEvents (getSessionsByHour hour db)))
  /\ exists total db',
       aggregateAllData rt db = Some (total, db')
       /\ sessions db' = sessions db
       /\ total = Z.of_nat (List.length (filter hasEvents (sessions db)))
       /\ forall s, In s (sessions db) -> events s <> [] ->
            getSummary (sessionId s) (summarized_sessions db')
            = Some (buildSummarizedSession rt s).
Proof.
  intros N. cbn zeta.
  assert (Stored : forall chosen s,
             NoDup (map sessionId chosen) -> In s chosen ->
             events s <> [] ->
             getSummary (sessionId s)
               (summarized_sessions
                  (bulkSaveSummarizedSessions
                     (map (buildSummarizedSession rt)
                        (filter hasEvents chosen)) db))
             = Some (buildSummarizedSession rt s)).
  { intros chosen s Nc I E. cbn [bulkSaveSummarizedSessions summarized_sessions].
    assert (Nf : NoDup (map sessionId (filter hasEvents chosen)))
      by now apply NoDup_map_filter.
    rewrite bulkSave_lookup.
    - rewrite (getSummary_built rt _ s Nf); [ reflexivity | ].
      apply filter_In. split; [ exact I | now apply hasEvents_iff ].
    - rewrite map_map. exact Nf. }
  assert (Nh : NoDup (map sessionId (getSessionsByHour hour db)))
    by (unfold getSessionsByHour; now apply NoDup_map_filter).
  split; [ | split; [ | split ] ].
  - intros s I E. rewrite aggregateHourlyData_writes. now apply Stored.
  - rewrite aggregateHourlyData_writes. reflexivity.
  - unfold aggregateHourlyData.
    destruct (getSessionsByHour hour db) as [ | s0 found ]; [ reflexivity | ].
    destruct (filter hasEvents (s0 :: found)) as [ | v valid ];
      [ reflexivity | ].
    cbn [fst]. now rewrite length_map.
  - eexists. eexists. split; [ apply aggregateAllData_writes | ].
    split; [ reflexivity | ]. split; [ reflexivity | ].
    intros s I E. now apply Stored.
Qed.

Lemma aggregation_stores_each_summary_witness :
  getSummary "s-1"
    (summarized_sessions
       (snd (aggregateHourlyData utcRuntime 0
               {| sessions := [visit; glimpse]; summarized_sessions := [] |})))
  = Some (buildSummarizedSession utcRuntime visit).
Proof.
  destruct (aggregation_stores_each_summary utcRuntime
              {| sessions := [visit; glimpse]; summarized_sessions := [] |} 0)
    as (Hourly & _).
  - repeat constructor; cbn; intuition discriminate.
  - apply (Hourly visit); [ now left | discriminate ].
Defined.

End AggregatorMore.

Module SessionsMore.
Import Sessions SessionsFacts.

(** *** The session map *)

Lemma mapGet_In (key : string) (sd : SessionData) (m : SessionMap) :
  mapGet key m = Some sd -> In (key, sd) m.
Proof.
  unfold mapGet. intros G.
  destruct (find (fun kv => String.eqb (fst kv) key) m) as [ [k v] | ] eqn:F;
    [ | discriminate ].
  apply find_some in F. destruct F as [I E]. cbn in E, G.
  apply String.eqb_eq in E. injection G as <-. now subst k.
Qed.

Lemma mapGet_None_keys (key : string) (m : SessionMap) :
  mapGet key m = None -> ~ In key (map fst m).
Proof.
  unfold mapGet. intros G I. apply in_map_iff in I.
  destruct I as ([k v] & E & I). cbn in E. subst k.
  destruct (find (fun kv => String.eqb (fst kv) key) m) eqn:F;
    [ discriminate | ].
  pose proof (find_none _ _ F _ I) as N. cbn in N.
  now rewrite String.eqb_refl in N.
Qed.

Lemma mapGet_unique (key : string) (sd : SessionData) (m : SessionMap) :
  NoDup (map fst m) -> In (key, sd) m -> mapGet key m = Some sd.
Proof.
  unfold mapGet. induction m as [ | [k v] m IH ]; intros N I; [ destruct I | ].
  cbn [map fst] in N. inversion N as [ | ? ? Nk Nm ]; subst.
  cbn [find fst]. destruct (String.eqb_spec k key) as [E | NE].
  - destruct I as [I | I]; [ now injection I as _ <- | ].
    exfalso. apply Nk. subst k. apply in_map_iff. now exists (key, sd).
  - destruct I as [I | I]; [ congruence | now apply IH ].
Qed.

Lemma mapSet_absent (key : string) (value : SessionData) (m : SessionMap) :
  mapGet key m = None -> mapSet key value m = (m ++ [(key, value)])%list.
Proof.
  unfold mapGet. induction m as [ | [k v] m IH ]; intros G; [ reflexivity | ].
  cbn [find fst] in G. cbn [mapSet app].
  destruct (String.eqb k key); [ discriminate | ]. now rewrite IH.
Qed.

(** Writing an entry over the one that [mapGet] finds keeps the keys, and
    keeps the session identifiers when the new entry has the old one. *)
Lemma mapSet_present (key : string) (old value : SessionData)
    (m : SessionMap) :
  mapGet key m = Some old ->
  map fst (mapSet key value m) = map fst m
  /\ (sessionId value = sessionId old ->
      sessionIds (mapSet key value m) = sessionIds m).
Proof.
  unfold mapGet, sessionIds.
  induction m as [ | [k v] m IH ]; intros G; [ discriminate | ].
  cbn [find fst] in G. cbn [mapSet].
  destruct (String.eqb k key) eqn:E.
  - injection G as <-. cbn [map fst snd]. split; [ reflexivity | ].
    now intros ->.
  - destruct (IH G) as [K S]. cbn [map fst snd]. split.
    + now rewrite K.
    + intros Same. now rewrite (S Same).
Qed.

Lemma mapGet_mapSet_same (key : string) (value : SessionData)
    (m : SessionMap) :
  mapGet key (mapSet key value m) = Some value.
Proof.
  unfold mapGet. induction m as [ | [k v] m IH ]; cbn [mapSet find fst].
  - now rewrite String.eqb_refl.
  - destruct (String.eqb k key) eqn:E; cbn [find fst]; rewrite E;
      [ reflexivity | exact IH ].
Qed.

Lemma mapGet_mapDelete_other (key other : string) (m : SessionMap) :
  other <> key -> mapGet key (mapDelete other m) = mapGet key m.
Proof.
  intros N. unfold mapGet, mapDelete.
  induction m as [ | [k v] m IH ]; [ reflexivity | ]. cbn [filter find fst].
  destruct (String.eqb_spec k other) as [E | NE]; cbn [negb find fst].
  - destruct (String.eqb_spec k key); [ congruence | exact IH ].
  - destruct (String.eqb k key); [ reflexivity | exact IH ].
Qed.

(** *** What the sweep removes *)

Definition staysOpen (currentTrackIds : list string) (now : Z)
    (kv : string * SessionData) : bool :=
  match closing currentTrackIds now (fst kv) (snd kv) with
  | StaysOpen => true
  | _ => false
  end.

Lemma sweep_toRemove (currentTrackIds : list string) (now : Z)
    (m : SessionMap) :
  snd (sweep currentTrackIds now m)
  = map fst (filter (fun kv => negb (staysOpen currentTrackIds now kv)) m)
  /\ map DbFacts.callSession (fst (sweep currentTrackIds now m))
     = sessionIds
         (filter (fun kv => negb (staysOpen currentTrackIds now kv)) m).
Proof.
  unfold sessionIds. induction m as [ | [uid sd] m [IH1 IH2] ];
    [ split; reflexivity | ].
  cbn [sweep filter].
  assert (S : staysOpen currentTrackIds now (uid, sd)
              = match closing currentTrackIds now uid sd with
                | StaysOpen => true
                | _ => false
                end) by reflexivity.
  rewrite S. clear S.
  destruct (sweep currentTrackIds now m) as [calls toRemove].
  cbn [fst snd] in IH1, IH2.
  destruct (closing currentTrackIds now uid sd); cbn [negb fst snd map];
    cbn [DbFacts.callSession]; rewrite ?IH1, ?IH2; split; reflexivity.
Qed.

Lemma filter_filter {A : Type} (p q : A -> bool) (l : list A) :
  filter p (filter q l) = filter (fun x => q x && p x) l.
Proof.
  induction l as [ | a l IH ]; [ reflexivity | ]. cbn [filter].
  destruct (q a); cbn [filter andb]; [ | exact IH ].
  destruct (p a); now rewrite IH.
Qed.

Lemma fold_mapDelete (toRemove : list string) :
  forall m : SessionMap,
    fold_left (fun acc uid => mapDelete uid acc) toRemove m
    = filter (fun kv => negb (existsb (String.eqb (fst kv)) toRemove)) m.
Proof.
  induction toRemove as [ | u toRemove IH ]; intros m; cbn [fold_left].
  - cbn [existsb negb]. induction m as [ | a m IHm ]; [ reflexivity | ].
    cbn [filter]. now rewrite <- IHm.
  - rewrite IH. unfold mapDelete. rewrite filter_filter.
    apply filter_ext. intros kv. cbn [existsb].
    now rewrite negb_orb.
Qed.

Lemma cleanupStaleSessions_map (currentTrackIds : list string) (now : Z)
    (m : SessionMap) :
  snd (cleanupStaleSessions currentTrackIds now m)
  = filter
      (fun kv =>
         negb (existsb (String.eqb (fst kv))
                 (snd (sweep currentTrackIds now m)))) m.
Proof.
  unfold cleanupStaleSessions.
  destruct (sweep currentTrackIds now m) as [calls toRemove]. cbn [snd].
  apply fold_mapDelete.
Qed.

Lemma same_key_same_entry (m : SessionMap) (a b : string * SessionData) :
  NoDup (map fst m) -> In a m -> In b m -> fst a = fst b -> a = b.
Proof.
  intros N Ia Ib E. destruct a as [k va], b as [k' vb]. cbn in E. subst k'.
  pose proof (mapGet_unique _ _ _ N Ia) as Ga.
  pose proof (mapGet_unique _ _ _ N Ib) as Gb. congruence.
Qed.

(** X22.  In a map with one entry per key, [cleanupStaleSessions] keeps,
    in their order and unchanged, exactly the entries whose track is still
    published or whose [lastSeen] is at most [SESSION_TIMEOUT] old; for
    each of the others, and for no other session, it issues one call on
    the database. *)
Theorem cleanup_removes_exactly_the_closed (currentTrackIds : list string)
    (now : Z) (m : SessionMap) :
  NoDup (map fst m) ->
  let out := cleanupStaleSessions currentTrackIds now m in
  snd out = filter (staysOpen currentTrackIds now) m
  /\ map DbFacts.callSession (fst out)
     = sessionIds
         (filter (fun kv => negb (staysOpen currentTrackIds now kv)) m)
  /\ forall uid sd,
       In (uid, sd) m ->
       (In (uid, sd) (snd out)
        <-> In uid currentTrackIds
            \/ now - lastSeen sd <= SESSION_TIMEOUT).
Proof.
  intros N. cbn zeta.
  assert (Kept : snd (cleanupStaleSessions currentTrackIds now m)
                 = filter (staysOpen currentTrackIds now) m).
  { rewrite cleanupStaleSessions_map.
    rewrite (proj1 (sweep_toRemove currentTrackIds now m)).
    apply filter_ext_in. intros kv I.
    destruct (staysOpen currentTrackIds now kv) eqn:S.
    - apply negb_true_iff.
      destruct (existsb _ _) eqn:X; [ | reflexivity ].
      apply existsb_exists in X. destruct X as (u & Iu & E).
      apply String.eqb_eq in E. apply in_map_iff in Iu.
      destruct Iu as (kv' & Ek & If). apply filter_In in If.
      destruct If as [I' S'].
      assert (kv = kv')
        by (apply (same_key_same_entry m); auto; congruence).
      subst kv'. rewrite S in S'. discriminate.
    - apply negb_false_iff. apply existsb_exists. exists (fst kv).
      split; [ | apply String.eqb_refl ].
      apply in_map. apply filter_In. now rewrite S. }
  split; [ exact Kept | split ].
  - rewrite cleanupStaleSessions_calls. apply sweep_toRemove.
  - intros uid sd I. rewrite Kept, filter_In. unfold staysOpen. cbn [fst snd].
    pose proof (closing_cases currentTrackIds now uid sd) as C.
    destruct (closing currentTrackIds now uid sd).
    + tauto.
    + split; [ intros [_ D]; discriminate | ]. intros [P | P]; [ tauto | lia ].
    + split; [ intros [_ D]; discriminate | ]. intros [P | P]; [ tauto | lia ].
Qed.

Lemma cleanup_removes_exactly_the_closed_witness :
  snd (cleanupStaleSessions ["B"] 9000
         [("A", {| sessionId := "s-A"; startTime := 0; lastSeen := 3000 |});
          ("B", {| sessionId := "s-B"; startTime := 0; lastSeen := 3000 |});
          ("C", {| sessionId := "s-C"; startTime := 0; lastSeen := 8000 |})])
  = filter (staysOpen ["B"] 9000)
      [("A", {| sessionId := "s-A"; startTime := 0; lastSeen := 3000 |});
       ("B", {| sessionId := "s-B"; startTime := 0; lastSeen := 3000 |});
       ("C", {| sessionId := "s-C"; startTime := 0; lastSeen := 8000 |})].
Proof.
  apply (cleanup_removes_exactly_the_closed ["B"] 9000).
  repeat constructor; cbn; intuition discriminate.
Defined.

(** *** The shape of a cycle *)

Definition trackIds (inp : CycleInput) : list string :=
  map Tracker.id (filter hasId (currentTracks inp)).

Definition validTracks (inp : CycleInput) : list Tracker.LocalTrack :=
  filter isValidTrack (currentTracks inp).

Lemma sessionPhase_parts (rt : Runtime) (inp : CycleInput) (w : World) :
  let swept :=
    cleanupStaleSessions (trackIds inp) (now inp) (activeSessions w) in
  let managed :=
    manageSessions (generateLongID rt) (validTracks inp) (now inp)
      (snd swept) (longIds w) in
  fst (sessionPhase rt inp w) = (fst swept ++ fst (fst managed))%list
  /\ activeSessions (snd (sessionPhase rt inp w)) = snd (fst managed)
  /\ longIds (snd (sessionPhase rt inp w)) = snd managed
  /\ storage (snd (sessionPhase rt inp w))
     = withDatabase
         (Db.applyCalls (now inp) (fst swept ++ fst (fst managed))%list)
         (storage w).
Proof.
  cbn zeta. unfold sessionPhase, trackIds, validTracks.
  destruct (cleanupStaleSessions _ (now inp) (activeSessions w))
    as [calls1 m1]. cbn [fst snd].
  destruct (manageSessions (generateLongID rt) _ (now inp) m1 (longIds w))
    as [[calls2 m2] n2]. cbn [fst snd activeSessions longIds storage].
  repeat split.
Qed.

(** What a cycle leaves of the world: the map and the counter are those
    of the session phase, or untouched when the loop has been stopped. *)
Lemma analysisCycle_sessions (rt : Runtime) (inp : CycleInput) (w : World) :
  let after := if isAnalyzing w then snd (sessionPhase rt inp w) else w in
  activeSessions (fst (analysisCycle rt inp w)) = activeSessions after
  /\ longIds (fst (analysisCycle rt inp w)) = longIds after.
Proof.
  cbn zeta. unfold analysisCycle.
  destruct (isAnalyzing w); cbn [negb]; [ | split; reflexivity ].
  destruct (sessionPhase rt inp w) as [calls w1]. cbn [snd].
  destruct (callsEngine inp); [ | split; reflexivity ].
  destruct (Nano.analyzeFrameWithNanoStreaming _ _ _) as [ response | ];
    [ | split; reflexivity ].
  destruct (Nano.results response) as [ items | ]; [ | split; reflexivity ].
  destruct (logResults rt _ items _ _ _). split; reflexivity.
Qed.

Lemma manageSessions_cons (gen : nat -> string) (t : Tracker.LocalTrack)
    (rest : list Tracker.LocalTrack) (now : Z) (m : SessionMap) (n : nat) :
  let fresh := {| sessionId := gen n; startTime := now; lastSeen := now |} in
  let refreshed old :=
    {| sessionId := sessionId old; startTime := startTime old;
       lastSeen := now |} in
  manageSessions gen (t :: rest) now m n
  = match mapGet (Tracker.id t) m with
    | None =>
        let r := manageSessions gen rest now
                   (mapSet (Tracker.id t) fresh m) (S n) in
        (Db.StartSession (gen n) :: fst (fst r), snd (fst r), snd r)
    | Some old =>
        manageSessions gen rest now
          (mapSet (Tracker.id t) (refreshed old) m) n
    end.
Proof.
  cbn zeta. cbn [manageSessions].
  destruct (mapGet (Tracker.id t) m); [ reflexivity | ].
  now destruct (manageSessions gen rest now _ (S n)) as [[calls m'] n'].
Qed.

(** *** One session per identity *)

Lemma NoDup_snoc {A : Type} (l : list A) (a : A) :
  NoDup l -> ~ In a l -> NoDup (l ++ [a]).
Proof.
  induction l as [ | b l IH ]; intros N I; cbn [app].
  - constructor; [ intros [] | constructor ].
  - inversion N as [ | ? ? Nb Nl ]; subst. constructor.
    + intros J. apply in_app_or in J. destruct J as [J | [J | []]].
      * contradiction.
      * apply I. now left.
    + apply IH; [ exact Nl | ]. intros J. apply I. now right.
Qed.

Section OneSessionPerIdentity.

Variable gen : nat -> string.
Hypothesis gen_injective : forall i j : nat, gen i = gen j -> i = j.

(** The session identifiers of the map are among the first [n] drawn. *)
Definition issued (n : nat) (m : SessionMap) : Prop :=
  Forall (fun sid => exists k, (k < n)%nat /\ sid = gen k) (sessionIds m).

Definition tidy (n : nat) (m : SessionMap) : Prop :=
  NoDup (map fst m) /\ NoDup (sessionIds m) /\ issued n m.

Lemma issued_fresh (n : nat) (m : SessionMap) :
  issued n m -> ~ In (gen n) (sessionIds m).
Proof.
  intros F I. unfold issued in F. rewrite Forall_forall in F.
  destruct (F _ I) as (k & L & E). apply gen_injective in E. lia.
Qed.

Lemma tidy_filter (q : string * SessionData -> bool) (n : nat)
    (m : SessionMap) :
  tidy n m -> tidy n (filter q m).
Proof.
  intros (K & S & I). unfold tidy, issued, sessionIds in *.
  split; [ | split ].
  - now apply AggregatorMore.NoDup_map_filter.
  - now apply AggregatorMore.NoDup_map_filter.
  - rewrite Forall_forall in *. intros sid J. apply I.
    apply in_map_iff in J. destruct J as (kv & E & J).
    apply filter_In in J. apply in_map_iff. exists kv. tauto.
Qed.

Lemma cleanupStaleSessions_tidy (currentTrackIds : list string) (now : Z)
    (n : nat) (m : SessionMap) :
  tidy n m -> tidy n (snd (cleanupStaleSessions currentTrackIds now m)).
Proof.
  intros T. rewrite cleanupStaleSessions_map. now apply tidy_filter.
Qed.

Lemma manageSessions_tidy (now : Z) (tracks : list Tracker.LocalTrack) :
  forall (m : SessionMap) (n : nat),
    tidy n m ->
    tidy (snd (manageSessions gen tracks now m n))
      (snd (fst (manageSessions gen tracks now m n)))
    /\ (n <= snd (manageSessions gen tracks now m n))%nat.
Proof.
  induction tracks as [ | t tracks IH ]; intros m n T.
  - cbn [manageSessions fst snd]. split; [ exact T | lia ].
  - rewrite manageSessions_cons. cbn zeta.
    destruct T as (K & U & I).
    destruct (mapGet (Tracker.id t) m) as [ old | ] eqn:G.
    + apply IH.
      destruct (mapSet_present _ old
                  {| sessionId := sessionId old; startTime := startTime old;
                     lastSeen := now |} m G) as [Ek Es].
      unfold tidy, issued. rewrite Ek, (Es eq_refl). auto.
    + cbn [fst snd].
      destruct (IH (mapSet (Tracker.id t)
                      {| sessionId := gen n; startTime := now;
                         lastSeen := now |} m) (S n)) as [T' L];
        [ | split; [ exact T' | lia ] ].
      rewrite (mapSet_absent _ _ _ G).
      unfold tidy, issued, sessionIds. rewrite !map_app. cbn [map fst snd].
      split; [ | split ].
      * apply NoDup_snoc; [ exact K | now apply mapGet_None_keys ].
      * apply NoDup_snoc; [ exact U | now apply issued_fresh ].
      * apply Forall_app. split.
        -- eapply Forall_impl; [ | exact I ]. cbn beta.
           intros sid (k & Lk & E). exists k. split; [ lia | exact E ].
        -- constructor; [ | constructor ]. exists n. split; [ lia | reflexivity ].
Qed.

End OneSessionPerIdentity.

Lemma analysisCycle_tidy (rt : Runtime) (inp : CycleInput) (w : World) :
  (forall i j, generateLongID rt i = generateLongID rt j -> i = j) ->
  tidy (generateLongID rt) (longIds w) (activeSessions w) ->
  tidy (generateLongID rt) (longIds (fst (analysisCycle rt inp w)))
    (activeSessions (fst (analysisCycle rt inp w))).
Proof.
  intros Inj T.
  destruct (analysisCycle_sessions rt inp w) as [Em En]. cbn zeta in Em, En.
  rewrite Em, En. destruct (isAnalyzing w); [ | exact T ].
  destruct (sessionPhase_parts rt inp w) as (_ & Pm & Pn & _).
  cbn zeta in Pm, Pn. rewrite Pm, Pn.
  apply manageSessions_tidy; [ exact Inj | ].
  now apply cleanupStaleSessions_tidy.
Qed.

Lemma runCycles_tidy (rt : Runtime) (inputs : list CycleInput) :
  (forall i j, generateLongID rt i = generateLongID rt j -> i = j) ->
  forall w : World,
    tidy (generateLongID rt) (longIds w) (activeSessions w) ->
    tidy (generateLongID rt) (longIds (runCycles rt inputs w))
      (activeSessions (runCycles rt inputs w)).
Proof.
  intros Inj. unfold runCycles.
  induction inputs as [ | inp inputs IH ]; intros w T; [ exact T | ].
  cbn [fold_left]. apply IH. now apply analysisCycle_tidy.
Qed.

Lemma initialWorld_tidy (gen : nat -> string) :
  tidy gen (longIds initialWorld) (activeSessions initialWorld).
Proof.
  repeat split; constructor.
Qed.

Lemma demoRuntime_injective (i j : nat) :
  generateLongID demoRuntime i = generateLongID demoRuntime j -> i = j.
Proof.
  cbn [demoRuntime generateLongID]. intros E. cbn [String.append] in E.
  apply TrackerFacts.tallyID_inj. unfold TrackerFacts.tallyID.
  f_equal. congruence.
Qed.

(** X23.  Provided [generateID('long')] never repeats an identifier: after
    any run of the loop from its initial state the session map holds at
    most one entry per track identifier, no two entries share a session
    identifier, and the entry found for a key is the only one with that
    session. *)
Theorem one_open_session_per_identity (rt : Runtime)
    (inputs : list CycleInput) :
  (forall i j, generateLongID rt i = generateLongID rt j -> i = j) ->
  let m := activeSessions (runCycles rt inputs initialWorld) in
  NoDup (map fst m)
  /\ NoDup (sessionIds m)
  /\ forall uid uid' sd sd',
       mapGet uid m = Some sd -> mapGet uid' m = Some sd' ->
       sessionId sd = sessionId sd' -> uid = uid'.
Proof.
  intros Inj. cbn zeta.
  destruct (runCycles_tidy rt inputs Inj initialWorld
              (initialWorld_tidy _)) as (K & S & _).
  split; [ exact K | split; [ exact S | ] ].
  intros uid uid' sd sd' G G' E.
  apply mapGet_In in G. apply mapGet_In in G'.
  set (m := activeSessions (runCycles rt inputs initialWorld)) in *.
  clearbody m. unfold sessionIds in S. clear K.
  induction m as [ | [k v] m IH ]; [ destruct G | ].
  cbn [map snd] in S. inversion S as [ | ? ? Nv Nm ]; subst.
  destruct G as [G | G], G' as [G' | G'].
  - congruence.
  - exfalso. apply Nv. injection G as _ ->. rewrite E.
    apply in_map_iff. now exists (uid', sd').
  - exfalso. apply Nv. injection G' as _ ->. rewrite <- E.
    apply in_map_iff. now exists (uid, sd).
  - now apply IH.
Qed.

Lemma one_open_session_per_identity_witness :
  NoDup
    (map fst
       (activeSessions
          (runCycles demoRuntime [seenAt 0; goneAt 6000; seenAt 7000]
             initialWorld))).
Proof.
  apply (one_open_session_per_identity demoRuntime
           [seenAt 0; goneAt 6000; seenAt 7000]).
  exact demoRuntime_injective.
Defined.

(** *** The sessions of the valid tracks *)

Lemma closed_not_published (currentTrackIds : list string) (now : Z)
    (m : SessionMap) (uid : string) :
  In uid (snd (sweep currentTrackIds now m)) -> ~ In uid currentTrackIds.
Proof.
  rewrite (proj1 (sweep_toRemove currentTrackIds now m)).
  intros I P. apply in_map_iff in I. destruct I as ([k sd] & E & I).
  cbn in E. subst k. apply filter_In in I. destruct I as [_ C].
  unfold staysOpen, closing in C. cbn [fst snd] in C.
  assert (X : existsb (String.eqb uid) currentTrackIds = true).
  { apply existsb_exists. exists uid. split; [ exact P | ].
    apply String.eqb_refl. }
  rewrite X in C. discriminate.
Qed.

Lemma cleanupStaleSessions_published (currentTrackIds : list string)
    (now : Z) (m : SessionMap) (uid : string) :
  In uid currentTrackIds ->
  mapGet uid (snd (cleanupStaleSessions currentTrackIds now m))
  = mapGet uid m.
Proof.
  intros P. pose proof (closed_not_published currentTrackIds now m uid) as C.
  unfold cleanupStaleSessions.
  destruct (sweep currentTrackIds now m) as [calls toRemove].
  cbn [snd] in *. revert m.
  induction toRemove as [ | u toRemove IH ]; intros m; [ reflexivity | ].
  cbn [fold_left]. rewrite IH.
  - apply mapGet_mapDelete_other. intros ->. apply C; [ now left | exact P ].
  - intros I. apply C. now right.
Qed.

Lemma manageSessions_other (gen : nat -> string) (now : Z) (key : string)
    (tracks : list Tracker.LocalTrack) :
  forall (m : SessionMap) (n : nat),
    Forall (fun t => Tracker.id t <> key) tracks ->
    mapGet key (snd (fst (manageSessions gen tracks now m n)))
    = mapGet key m.
Proof.
  induction tracks as [ | t tracks IH ]; intros m n F; [ reflexivity | ].
  inversion F as [ | ? ? Ft Frest ]; subst.
  rewrite manageSessions_cons. cbn zeta.
  destruct (mapGet (Tracker.id t) m) as [ old | ]; cbn [fst snd];
    rewrite (IH _ _ Frest); now apply mapGet_mapSet_other.
Qed.

(** An entry already stamped with the time of the cycle is left as it is
    by the rest of the loop over the valid tracks. *)
Lemma manageSessions_settled (gen : nat -> string) (now : Z) (key : string)
    (sd : SessionData) (tracks : list Tracker.LocalTrack) :
  lastSeen sd = now ->
  forall (m : SessionMap) (n : nat),
    mapGet key m = Some sd ->
    mapGet key (snd (fst (manageSessions gen tracks now m n))) = Some sd.
Proof.
  intros L. induction tracks as [ | t tracks IH ]; intros m n G;
    [ exact G | ].
  rewrite manageSessions_cons. cbn zeta.
  destruct (String.eqb_spec (Tracker.id t) key) as [E | N].
  - rewrite E, G. apply IH. rewrite mapGet_mapSet_same.
    destruct sd as [i s l]. cbn in L |- *. now subst l.
  - destruct (mapGet (Tracker.id t) m) as [ old | ]; cbn [fst snd];
      apply IH; now rewrite mapGet_mapSet_other.
Qed.

Lemma manageSessions_track (gen : nat -> string) (now : Z)
    (tracks : list Tracker.LocalTrack) (t : Tracker.LocalTrack) :
  forall (m : SessionMap) (n : nat),
    In t tracks ->
    exists sd,
      mapGet (Tracker.id t) (snd (fst (manageSessions gen tracks now m n)))
      = Some sd
      /\ lastSeen sd = now
      /\ match mapGet (Tracker.id t) m with
         | Some old =>
             sessionId sd = sessionId old /\ startTime sd = startTime old
         | None => startTime sd = now
         end.
Proof.
  induction tracks as [ | h tracks IH ]; intros m n I; [ destruct I | ].
  rewrite manageSessions_cons. cbn zeta.
  destruct (String.eqb_spec (Tracker.id h) (Tracker.id t)) as [E | N].
  - rewrite E. destruct (mapGet (Tracker.id t) m) as [ old | ] eqn:G;
      cbn [fst snd].
    + eexists. split; [ | split ].
      * apply manageSessions_settled; [ | apply mapGet_mapSet_same ].
        reflexivity.
      * reflexivity.
      * split; reflexivity.
    + eexists. split; [ | split ].
      * apply manageSessions_settled; [ | apply mapGet_mapSet_same ].
        reflexivity.
      * reflexivity.
      * reflexivity.
  - destruct I as [-> | I]; [ congruence | ].
    assert (Same : forall value,
               mapGet (Tracker.id t) (mapSet (Tracker.id h) value m)
               = mapGet (Tracker.id t) m)
      by (intros value; now apply mapGet_mapSet_other).
    destruct (mapGet (Tracker.id h) m) as [ old | ]; cbn [fst snd].
    + destruct (IH (mapSet (Tracker.id h)
                      {| sessionId := sessionId old;
                         startTime := startTime old; lastSeen := now |} m)
                  n I) as (sd & G & L & P).
      rewrite Same in P. now exists sd.
    + destruct (IH (mapSet (Tracker.id h)
                      {| sessionId := gen n; startTime := now;
                         lastSeen := now |} m) (S n) I) as (sd & G & L & P).
      rewrite Same in P. now exists sd.
Qed.

Lemma mapGet_filter_key (p : string -> bool) (key : string)
    (m : SessionMap) :
  mapGet key (filter (fun kv => p (fst kv)) m)
  = if p key then mapGet key m else None.
Proof.
  unfold mapGet. induction m as [ | [k v] m IH ]; cbn [filter find fst].
  - now destruct (p key).
  - destruct (String.eqb_spec k key) as [-> | N].
    + destruct (p key) eqn:P; cbn [find fst].
      * now rewrite String.eqb_refl.
      * rewrite IH. reflexivity.
    + destruct (p k); cbn [find fst]; [ | exact IH ].
      destruct (String.eqb_spec k key); [ contradiction | exact IH ].
Qed.

(** X24.  After the session phase of a cycle at time [now], every valid
    track (one with an identifier, confirmed, and matched in the latest
    frame) has a session in the map whose [lastSeen] is [now]: the
    session it had before the cycle, with the same identifier and start
    time and however long ago it was last seen, or else a new one started
    at [now].  An entry whose key is the identifier of no published track
    is either removed or left exactly as it was. *)
Theorem valid_tracks_keep_their_session (rt : Runtime) (inp : CycleInput)
    (w : World) :
  let after := activeSessions (snd (sessionPhase rt inp w)) in
  (forall t, In t (currentTracks inp) -> isValidTrack t = true ->
     exists sd,
       mapGet (Tracker.id t) after = Some sd
       /\ lastSeen sd = now inp
       /\ match mapGet (Tracker.id t) (activeSessions w) with
          | Some old =>
              sessionId sd = sessionId old /\ startTime sd = startTime old
          | None => startTime sd = now inp
          end)
  /\ (forall key, ~ In key (map Tracker.id (currentTracks inp)) ->
        mapGet key after = None
        \/ mapGet key after = mapGet key (activeSessions w)).
Proof.
  cbn zeta. destruct (sessionPhase_parts rt inp w) as (_ & Pm & _).
  cbn zeta in Pm. rewrite Pm. split.
  - intros t I V.
    assert (Iv : In t (validTracks inp)) by (apply filter_In; tauto).
    destruct (manageSessions_track (generateLongID rt) (now inp)
                (validTracks inp) t
                (snd (cleanupStaleSessions (trackIds inp) (now inp)
                        (activeSessions w)))
                (longIds w) Iv) as (sd & G & L & P).
    exists sd. split; [ exact G | split; [ exact L | ] ].
    rewrite cleanupStaleSessions_published in P; [ exact P | ].
    unfold trackIds. apply in_map. apply filter_In. split; [ exact I | ].
    unfold isValidTrack in V. apply andb_true_iff in V. destruct V as [V _].
    apply andb_true_iff in V. tauto.
  - intros key N. rewrite manageSessions_other.
    + rewrite cleanupStaleSessions_map.
      pose proof (mapGet_filter_key
                    (fun k => negb (existsb (String.eqb k)
                                      (snd (sweep (trackIds inp) (now inp)
                                              (activeSessions w)))))
                    key (activeSessions w)) as K.
      cbn beta in K. rewrite K.
      destruct (negb _); [ now right | now left ].
    + apply Forall_forall. intros t I E. apply N.
      apply filter_In in I. rewrite <- E. apply in_map. tauto.
Qed.

(** *** The sweep under a clock that does not go back *)

(** Every entry has [startTime <= lastSeen <= clock]. *)
Definition inOrder (clock : Z) (m : SessionMap) : Prop :=
  Forall (fun kv => startTime (snd kv) <= lastSeen (snd kv) <= clock) m.

Fixpoint nondecreasing (from : Z) (clock : list Z) : Prop :=
  match clock with
  | [] => True
  | t :: rest => from <= t /\ nondecreasing t rest
  end.

Lemma Forall_mapSet (P : string * SessionData -> Prop) (key : string)
    (value : SessionData) (m : SessionMap) :
  Forall P m -> P (key, value) -> Forall P (mapSet key value m).
Proof.
  intros F V. induction F as [ | [k v] m Pk Fm IH ]; cbn [mapSet].
  - constructor; [ exact V | constructor ].
  - destruct (String.eqb_spec k key) as [-> | N].
    + constructor; [ exact V | exact Fm ].
    + constructor; [ exact Pk | exact IH ].
Qed.

Lemma inOrder_later (clock later : Z) (m : SessionMap) :
  clock <= later -> inOrder clock m -> inOrder later m.
Proof.
  intros L F. eapply Forall_impl; [ | exact F ]. cbn beta. lia.
Qed.

Lemma manageSessions_inOrder (gen : nat -> string) (now : Z)
    (tracks : list Tracker.LocalTrack) :
  forall (m : SessionMap) (n : nat),
    (forall uid old, mapGet uid m = Some old -> startTime old <= now) ->
    inOrder now m ->
    inOrder now (snd (fst (manageSessions gen tracks now m n))).
Proof.
  induction tracks as [ | t tracks IH ]; intros m n B F; [ exact F | ].
  rewrite manageSessions_cons. cbn zeta.
  assert (Step : forall value,
             startTime value <= now -> lastSeen value = now ->
             (forall uid old,
                 mapGet uid (mapSet (Tracker.id t) value m) = Some old ->
                 startTime old <= now)
             /\ inOrder now (mapSet (Tracker.id t) value m)).
  { intros value Sv Lv. split.
    - intros uid old G.
      destruct (String.eqb_spec (Tracker.id t) uid) as [E | N].
      + rewrite <- E, mapGet_mapSet_same in G. now injection G as <-.
      + rewrite mapGet_mapSet_other in G by exact N. now apply (B uid).
    - apply Forall_mapSet; [ exact F | ]. cbn [snd]. lia. }
  destruct (mapGet (Tracker.id t) m) as [ old | ] eqn:G; cbn [fst snd].
  - destruct (Step {| sessionId := sessionId old; startTime := startTime old;
                      lastSeen := now |}) as [B' F'];
      [ cbn [startTime]; now apply (B (Tracker.id t)) | reflexivity | ].
    now apply IH.
  - destruct (Step {| sessionId := gen n; startTime := now;
                      lastSeen := now |}) as [B' F'];
      [ cbn; lia | reflexivity | ].
    now apply IH.
Qed.

Lemma analysisCycle_inOrder (rt : Runtime) (inp : CycleInput) (w : World)
    (clock : Z) :
  clock <= now inp ->
  inOrder clock (activeSessions w) ->
  inOrder (now inp) (activeSessions (fst (analysisCycle rt inp w))).
Proof.
  intros L F. destruct (analysisCycle_sessions rt inp w) as [Em _].
  cbn zeta in Em. rewrite Em.
  destruct (isAnalyzing w); [ | now apply (inOrder_later clock) ].
  destruct (sessionPhase_parts rt inp w) as (_ & Pm & _).
  cbn zeta in Pm. rewrite Pm.
  assert (Swept : inOrder (now inp)
                    (snd (cleanupStaleSessions (trackIds inp) (now inp)
                            (activeSessions w)))).
  { rewrite cleanupStaleSessions_map. apply (inOrder_later clock); [ lia | ].
    unfold inOrder in *. rewrite Forall_forall in *. intros kv I.
    apply filter_In in I. apply F. tauto. }
  apply manageSessions_inOrder; [ | exact Swept ].
  intros uid old G. apply mapGet_In in G.
  unfold inOrder in Swept. rewrite Forall_forall in Swept.
  specialize (Swept _ G). cbn [snd] in Swept. lia.
Qed.

Definition isDelete (c : Db.DbCall) : bool :=
  match c with
  | Db.DeleteSession _ => true
  | _ => false
  end.

Lemma sweep_no_delete (currentTrackIds : list string) (now clock : Z)
    (m : SessionMap) :
  inOrder clock m ->
  Forall (fun c => isDelete c = false) (fst (sweep currentTrackIds now m)).
Proof.
  intros F. induction F as [ | [uid sd] m P _ IH ]; [ constructor | ].
  rewrite sweep_cons.
  pose proof (closing_never_deletes currentTrackIds now uid sd) as N.
  cbn [snd] in P.
  destruct (closing currentTrackIds now uid sd).
  - exact IH.
  - constructor; [ reflexivity | exact IH ].
  - exfalso. apply N; [ lia | reflexivity ].
Qed.

Lemma manageSessions_no_delete (gen : nat -> string) (now : Z)
    (tracks : list Tracker.LocalTrack) :
  forall (m : SessionMap) (n : nat),
    Forall (fun c => isDelete c = false)
      (fst (fst (manageSessions gen tracks now m n))).
Proof.
  induction tracks as [ | t tracks IH ]; intros m n; [ constructor | ].
  rewrite manageSessions_cons. cbn zeta.
  destruct (mapGet (Tracker.id t) m); cbn [fst snd]; [ apply IH | ].
  constructor; [ reflexivity | apply IH ].
Qed.

Lemma logResults_no_delete (rt : Runtime) (m : SessionMap)
    (promptText : string) (later : Z) (items : list Nano.NanoAnalysisResult) :
  forall st : Aggregator.Storage,
    Forall (fun c => isDelete c = false)
      (fst (logResults rt m items promptText later st)).
Proof.
  induction items as [ | res items IH ]; intros st; [ constructor | ].
  cbn [logResults]. destruct (sessionFor m res) as [ [u sd] | ];
    [ | apply IH ].
  match goal with
  | |- context [logResults rt m items promptText later ?st2] =>
      specialize (IH st2);
      destruct (logResults rt m items promptText later st2) as [calls st3]
  end.
  cbn [fst] in *. constructor; [ reflexivity | exact IH ].
Qed.

Lemma analysisCycle_no_delete (rt : Runtime) (inp : CycleInput) (w : World)
    (clock : Z) :
  inOrder clock (activeSessions w) ->
  Forall (fun c => isDelete c = false) (dbCalls (snd (analysisCycle rt inp w))).
Proof.
  intros F.
  assert (Phase : Forall (fun c => isDelete c = false)
                    (fst (sessionPhase rt inp w))).
  { destruct (sessionPhase_parts rt inp w) as (Pc & _). cbn zeta in Pc.
    rewrite Pc. apply Forall_app. split.
    - rewrite cleanupStaleSessions_calls. now apply (sweep_no_delete _ _ clock).
    - apply manageSessions_no_delete. }
  unfold analysisCycle. destruct (isAnalyzing w); cbn [negb];
    [ | constructor ].
  destruct (sessionPhase rt inp w) as [calls w1]. cbn [fst] in Phase.
  destruct (callsEngine inp); [ | exact Phase ].
  destruct (Nano.analyzeFrameWithNanoStreaming _ _ _) as [ response | ];
    [ | exact Phase ].
  destruct (Nano.results response) as [ items | ]; [ | exact Phase ].
  pose proof (logResults_no_delete rt (activeSessions w1) (Nano.prompt response)
                (resolvedAt inp) items (storage w1)) as Lg.
  destruct (logResults rt _ items _ _ _) as [logged st]. cbn [snd dbCalls fst] in *.
  apply Forall_app. now split.
Qed.

(** X25.  While [Date.now()] never goes back from one cycle to the next,
    no cycle of a loop run from its initial state calls [deleteSession]:
    every session that the sweep closes is ended, however short the time
    for which its track was seen. *)
Theorem no_session_is_deleted_by_the_sweep (rt : Runtime)
    (inputs : list CycleInput) (inp : CycleInput) (start : Z) :
  nondecreasing start (map now (inputs ++ [inp])%list) ->
  Forall (fun c => isDelete c = false)
    (dbCalls (snd (analysisCycle rt inp (runCycles rt inputs initialWorld)))).
Proof.
  assert (G : forall (w : World) (clock : Z),
             inOrder clock (activeSessions w) ->
             nondecreasing clock (map now (inputs ++ [inp])%list) ->
             Forall (fun c => isDelete c = false)
               (dbCalls (snd (analysisCycle rt inp (runCycles rt inputs w))))).
  { unfold runCycles.
    induction inputs as [ | i inputs IH ]; intros w clock F N.
    - cbn [fold_left]. now apply (analysisCycle_no_delete rt inp w clock).
    - cbn [fold_left]. cbn [app map nondecreasing] in N. destruct N as [L N].
      apply (IH _ (now i)); [ | exact N ].
      now apply (analysisCycle_inOrder rt i w clock). }
  intros N. apply (G initialWorld start); [ constructor | exact N ].
Qed.

Lemma no_session_is_deleted_by_the_sweep_witness :
  Forall (fun c => isDelete c = false)
    (dbCalls
       (snd (analysisCycle demoRuntime (goneAt 5001)
               (runCycles demoRuntime [seenAt 0] initialWorld)))).
Proof.
  apply (no_session_is_deleted_by_the_sweep demoRuntime [seenAt 0]
           (goneAt 5001) 0).
  cbn. lia.
Defined.

End SessionsMore.
